(** * pyxirr.pure: the secant solver, the NPV evaluator and xirr

    A shallow embedding of [src/pyxirr/pure.py].  The three functions of the
    module ([secant], [xnpv], [xirr]) are written once over an interface
    [Arith] of the arithmetic they use, and the interface is instantiated
    twice: by IEEE 754 binary64 numbers (Python's [float], Rocq's primitive
    floats) and by the real numbers.  Python exceptions are explicit: every
    function returns an [outcome].  [xirr_scipy] of
    [src/pyxirr/__init__.py] is embedded over the library function it
    calls.

    What depends on the control flow alone is proved for every [Arith];
    what depends on rounding is evaluated on floats; what is algebra (the
    bracket of the solver, the scaling of the amounts, the order of the
    entries) is proved over the real numbers. *)

From Stdlib Require Import ZArith List Bool Lia Permutation Sorted.
From Stdlib Require Import Floats Uint63 Reals Lra.
Import ListNotations.

(** ** Outcomes of a call *)

(** The exceptions the module can meet.  [ConvergenceFailed] is the
    module's own class; the others are raised by the interpreter:
    [ZeroDivisionError] by [/] (and by [0.0 ** y] for negative [y]),
    [OverflowError] by [**], [IndexError] by [cash_flow[0]] on an empty
    list.  [OutsideModel] is not a Python exception: it marks the arguments
    of [**] at which the models of the power function below say nothing. *)
Inductive exn : Type :=
| ConvergenceFailed
| ZeroDivisionError
| OverflowError
| IndexError
| OutsideModel.

Inductive outcome (A : Type) : Type :=
| Return (v : A)
| Raise (e : exn).

Arguments Return {A} v.
Arguments Raise {A} e.

Definition bind {A B : Type} (c : outcome A) (k : A -> outcome B) : outcome B :=
  match c with
  | Return v => k v
  | Raise e => Raise e
  end.

Declare Scope py_scope.
Delimit Scope py_scope with py.

Notation "x <- c ;; k" := (bind c (fun x => k))
  (at level 61, c at next level, right associativity) : py_scope.

(** ** The arithmetic the module uses *)

(** [zero], [one], [ten], [year_days] and [eps_default] are the literals
    [0.0] (also the integer [0] where it meets a float), [1], [10.0],
    [365.0] and [1e-6]; [quot] is the quotient that [/] computes when the
    divisor is not zero; [of_int] is the conversion of an integer that
    [int / float] performs. *)
Class Arith (F : Type) : Type := {
  zero : F;
  one : F;
  ten : F;
  year_days : F;
  eps_default : F;
  add : F -> F -> F;
  sub : F -> F -> F;
  mul : F -> F -> F;
  quot : F -> F -> F;
  absv : F -> F;
  power : F -> F -> outcome F;
  ltb : F -> F -> bool;
  geb : F -> F -> bool;
  eqb : F -> F -> bool;
  of_int : Z -> F
}.

Declare Scope arith_scope.
Delimit Scope arith_scope with A.

Infix "+" := add : arith_scope.
Infix "-" := sub : arith_scope.
Infix "*" := mul : arith_scope.
Infix "<?" := ltb : arith_scope.
Infix ">=?" := geb (at level 70) : arith_scope.
Infix "==?" := eqb (at level 70) : arith_scope.

(** A cash flow: a timestamp and an amount.  A [datetime.date] is modelled
    by its ordinal, a day offset by itself: both are integers. *)
Definition entry (F : Type) : Type := (Z * F)%type.

(** The difference of two dates is a [timedelta]; [.days] reads its day
    count.  With dates as ordinals the difference already is that count. *)
Definition days (delta : Z) : Z := delta.

(** The iteration state of [secant]: what the loop body hands to the next
    iteration, or the value it returns. *)
Inductive step (F : Type) : Type :=
| Stop (result : option F)
| Continue (a_n b_n : F) (prev_m_n : option F).

Arguments Stop {F} result.
Arguments Continue {F} a_n b_n prev_m_n.

Section Pure.

Context {F : Type} {AF : Arith F}.

Local Open Scope py_scope.
Local Open Scope arith_scope.

(** Python's [x / y] on floats. *)
Definition div (x y : F) : outcome F :=
  if y ==? zero then Raise ZeroDivisionError else Return (quot x y).

(** *** sorted(cash_flow, key=lambda x: x[0])

    [sorted] is stable: entries with equal keys keep their order.  The
    insertion below puts an entry before the first one whose key is not
    smaller, and the entries are inserted from the last to the first. *)
Fixpoint insert_by_key (x : entry F) (l : list (entry F)) : list (entry F) :=
  match l with
  | [] => [x]
  | y :: l' =>
      if (fst x <=? fst y)%Z then x :: l else y :: insert_by_key x l'
  end.

Definition sorted (l : list (entry F)) : list (entry F) :=
  fold_right insert_by_key [] l.

(** *** secant (lines 12-75) *)

(** Lines 52-57: the stall check of iteration [n]; it returns the new
    value of [prev_m_n]. *)
Definition checkpoint (n : nat) (prev_m_n : option F) (m_n : F)
  : outcome (option F) :=
  if (n mod 100 =? 0)%nat then
    match prev_m_n with
    | None => Return (Some m_n)
    | Some p => if p ==? m_n then Raise ConvergenceFailed else Return prev_m_n
    end
  else Return prev_m_n.

(** Lines 48-51: the secant estimate [m_n] of a bracket. *)
Definition estimate (f : F -> outcome F) (a_n b_n : F) : outcome F :=
  f_a_n <- f a_n ;;
  f_b_n <- f b_n ;;
  q <- div (f_a_n * (b_n - a_n)) (f_b_n - f_a_n) ;;
  Return (a_n - q).

(** Lines 48-72: the body of the loop. *)
Definition iteration (f : F -> outcome F) (eps_y eps_x : F)
    (n : nat) (a_n b_n : F) (prev_m_n : option F) : outcome (step F) :=
  f_a_n <- f a_n ;;
  f_b_n <- f b_n ;;
  q <- div (f_a_n * (b_n - a_n)) (f_b_n - f_a_n) ;;
  let m_n := a_n - q in
  f_m_n <- f m_n ;;
  prev_m_n <- checkpoint n prev_m_n m_n ;;
  if absv (b_n - a_n) <? eps_x then Return (Stop (Some m_n))
  else if absv f_m_n <? eps_y then Return (Stop (Some m_n))
  else if f_a_n * f_m_n <? zero then Return (Continue a_n m_n prev_m_n)
  else if f_b_n * f_m_n <? zero then Return (Continue m_n b_n prev_m_n)
  else Return (Stop None).

(** Lines 47-75: [for n in range(1, N + 1)], over the list of the
    values of [n] still to come. *)
Fixpoint secant_loop (f : F -> outcome F) (eps_y eps_x : F)
    (ns : list nat) (a_n b_n : F) (prev_m_n : option F)
  : outcome (option F) :=
  match ns with
  | [] => Return None
  | n :: ns' =>
      st <- iteration f eps_y eps_x n a_n b_n prev_m_n ;;
      match st with
      | Stop result => Return result
      | Continue a_n' b_n' prev' =>
          secant_loop f eps_y eps_x ns' a_n' b_n' prev'
      end
  end.

Definition secant (f : F -> outcome F) (a b : F) (N : nat) (eps_y eps_x : F)
  : outcome (option F) :=
  f_a <- f a ;;
  f_b <- f b ;;
  if f_a * f_b >=? zero then Return None
  else secant_loop f eps_y eps_x (seq 1 N) a b None.

(** The state in which iteration [n] of the loop starts, when the
    iterations before it neither returned nor raised. *)
Fixpoint state_after (f : F -> outcome F) (eps_y eps_x : F)
    (ns : list nat) (a_n b_n : F) (prev_m_n : option F)
  : option (F * F * option F) :=
  match ns with
  | [] => Some (a_n, b_n, prev_m_n)
  | n :: ns' =>
      match iteration f eps_y eps_x n a_n b_n prev_m_n with
      | Return (Continue a_n' b_n' prev') =>
          state_after f eps_y eps_x ns' a_n' b_n' prev'
      | _ => None
      end
  end.

(** The estimate [m_n] of iteration [n] (counted from 1). *)
Definition estimate_at (f : F -> outcome F) (a b : F) (eps_y eps_x : F)
    (n : nat) : option F :=
  match state_after f eps_y eps_x (seq 1 (n - 1)) a b None with
  | Some (a_n, b_n, _) =>
      match estimate f a_n b_n with
      | Return m_n => Some m_n
      | Raise _ => None
      end
  | None => None
  end.

(** *** xnpv (lines 78-112) *)

(** Lines 103-111: the loop over the items, with the running
    [last_power], [last_raised] and [x]. *)
Fixpoint xnpv_loop (rate_plus_1 : F) (t0 : Z) (already_day_diffs : bool)
    (items : list (entry F)) (last_power last_raised x : F) : outcome F :=
  match items with
  | [] => Return x
  | item :: rest =>
      new_power <-
        (if already_day_diffs
         then div (of_int (fst item - t0)) year_days
         else div (of_int (days (fst item - t0))) year_days) ;;
      raised <- power rate_plus_1 (new_power - last_power) ;;
      let last_raised := raised * last_raised in
      term <- div (snd item) last_raised ;;
      xnpv_loop rate_plus_1 t0 already_day_diffs rest
        new_power last_raised (x + term)
  end.

Definition xnpv (rate : F) (cash_flow : list (entry F))
    (sorted_ already_day_diffs : bool) : outcome F :=
  let cash_flow := if sorted_ then cash_flow else sorted cash_flow in
  match cash_flow with
  | [] => Raise IndexError
  | (t0, _) :: _ =>
      xnpv_loop (rate + one) t0 already_day_diffs cash_flow zero one zero
  end.

(** *** xirr (lines 115-144) *)

(** [float(amount)]: the amounts of the model are numbers of [F]
    already. *)
Definition to_float (amount : F) : F := amount.

(** Lines 134-138: the entries sorted by date, then the dates replaced
    by their distance in days to the first one. *)
Definition normalized (cash_flow : list (entry F)) : outcome (list (entry F)) :=
  let cash_flow :=
    sorted (map (fun e => (fst e, to_float (snd e))) cash_flow) in
  match cash_flow with
  | [] => Raise IndexError
  | (t0, _) :: _ =>
      Return (map (fun e => (days (fst e - t0), snd e)) cash_flow)
  end.

(** Line 140: the solver on the NPV of the normalized series. *)
Definition solve (cash_flow : list (entry F)) : outcome (option F) :=
  secant (fun r => xnpv r cash_flow true true)
         zero ten 2000 eps_default eps_default.

Definition xirr {G : Type} (cash_flow : list (entry F)) (guess : G)
    (silent : bool) : outcome (option F) :=
  cash_flow <- normalized cash_flow ;;
  match solve cash_flow with
  | Raise ConvergenceFailed =>
      if silent then Return None else Raise ConvergenceFailed
  | r => r
  end.

(** *** What the statements below speak of *)

(** The amounts of a series added from left to right, starting from
    [0.0], as the loop of [xnpv] adds its terms. *)
Definition sum_amounts (cash_flow : list (entry F)) : F :=
  fold_left (fun x item => x + snd item) cash_flow zero.

(** Every amount of a series multiplied by [c]. *)
Definition scale (c : F) (cash_flow : list (entry F)) : list (entry F) :=
  map (fun item => (fst item, c * snd item)) cash_flow.

(** The outcome of a call multiplied by [c]. *)
Definition scaled (c : F) (r : outcome F) : outcome F :=
  match r with
  | Return v => Return (c * v)
  | Raise e => Raise e
  end.

(** The order of the sort. *)
Definition key_le (x y : entry F) : Prop := (fst x <= fst y)%Z.

(** Two numbers that are both above zero or both below zero. *)
Definition same_sign (x y : F) : bool :=
  ((zero <? x) && (zero <? y)) || ((x <? zero) && (y <? zero)).

(** What the evaluation at the rate [0] uses of the arithmetic: facts
    about [1.0], and [a / 1.0 = a] for the amounts of the series.  They
    hold of the floats and of the real numbers. *)
Record zero_rate_laws (s : list (entry F)) : Prop := {
  zr_rate_plus_1 : zero + one = one;
  zr_power : forall y, power one y = Return one;
  zr_raised : one * one = one;
  zr_one : (one ==? zero) = false;
  zr_year : (year_days ==? zero) = false;
  zr_amounts : Forall (fun item => quot (snd item) one = snd item) s
}.

(** What the evaluation of a single entry of amount [a] uses: the year
    fraction of the offset [0] is [0.0], [x ** 0.0] is [1.0], and
    [0.0 + a / 1.0] is [a].  These hold of the floats for an amount that
    is not a zero, and of the real numbers. *)
Record single_entry_laws (a : F) : Prop := {
  se_year : (year_days ==? zero) = false;
  se_fraction : quot (of_int 0) year_days = zero;
  se_exponent : zero - zero = zero;
  se_power : forall x, power x zero = Return one;
  se_raised : one * one = one;
  se_one : (one ==? zero) = false;
  se_term : quot a one = a;
  se_sum : zero + a = a
}.

(** Two lists that differ by exchanges of neighbours with the same
    timestamp. *)
Inductive tie_equiv : list (entry F) -> list (entry F) -> Prop :=
| tie_refl l : tie_equiv l l
| tie_swap d a b l : tie_equiv ((d, a) :: (d, b) :: l) ((d, b) :: (d, a) :: l)
| tie_skip x l l' : tie_equiv l l' -> tie_equiv (x :: l) (x :: l')
| tie_trans l1 l2 l3 : tie_equiv l1 l2 -> tie_equiv l2 l3 -> tie_equiv l1 l3.

End Pure.

(** ** Python floats *)

(** [float(n)] for an integer [n] of at most 62 bits, which covers every
    distance between two dates. *)
Definition float_of_int (z : Z) : float :=
  if (z <? 0)%Z then (- of_uint63 (Uint63.of_Z (- z)))%float
  else of_uint63 (Uint63.of_Z z).

(** [x ** y] is the platform's [pow].  The model gives the values that
    [pow] returns exactly: [x ** 0.0] is [1.0] for every [x], [1.0 ** y]
    is [1.0] for every [y], and [x ** 1.0] is [x].  Elsewhere [pow]
    rounds as the C library does, which is not modelled. *)
Definition float_pow (x y : float) : outcome float :=
  if (y =? 0)%float then Return 1%float
  else if (x =? 1)%float then Return 1%float
  else if (y =? 1)%float then Return x
  else Raise OutsideModel.

(** [0x1.0c6f7a0b5ed8dp-20] is the binary64 number nearest to [1e-6]. *)
#[global] Instance float_arith : Arith float := {
  zero := 0%float;
  one := 1%float;
  ten := 10%float;
  year_days := 365%float;
  eps_default := 0x1.0c6f7a0b5ed8dp-20%float;
  add := PrimFloat.add;
  sub := PrimFloat.sub;
  mul := PrimFloat.mul;
  quot := PrimFloat.div;
  absv := PrimFloat.abs;
  power := float_pow;
  ltb := PrimFloat.ltb;
  geb := fun x y => PrimFloat.leb y x;
  eqb := PrimFloat.eqb;
  of_int := float_of_int
}.

(** ** Exact arithmetic *)

Definition real_ltb (x y : R) : bool := if Rlt_dec x y then true else false.
Definition real_geb (x y : R) : bool := if Rge_dec x y then true else false.
Definition real_eqb (x y : R) : bool := if Req_dec_T x y then true else false.

(** [x ** y] on real numbers: [1] for the exponent [0], [exp (y * ln x)]
    for a positive base, [0] for the base [0] and a positive exponent, a
    [ZeroDivisionError] for the base [0] and a negative exponent.  A
    negative base is not modelled. *)
Definition real_pow (x y : R) : outcome R :=
  if Req_dec_T y 0 then Return 1%R
  else if Rlt_dec 0 x then Return (Rpower x y)
  else if Req_dec_T x 0 then
    if Rlt_dec 0 y then Return 0%R else Raise ZeroDivisionError
  else Raise OutsideModel.

#[global] Instance real_arith : Arith R := {
  zero := 0%R;
  one := 1%R;
  ten := 10%R;
  year_days := 365%R;
  eps_default := (/ 1000000)%R;
  add := Rplus;
  sub := Rminus;
  mul := Rmult;
  quot := Rdiv;
  absv := Rabs;
  power := real_pow;
  ltb := real_ltb;
  geb := real_geb;
  eqb := real_eqb;
  of_int := IZR
}.

(** [a_n < b_n], and [f] changes sign between them. *)
Definition bracketing (f : R -> outcome R) (a_n b_n : R) : Prop :=
  (a_n < b_n)%R /\
  exists f_a_n f_b_n,
    f a_n = Return f_a_n /\ f b_n = Return f_b_n /\ (f_a_n * f_b_n < 0)%R.

(** ** Inputs used in the examples *)

Module Inputs.

Local Open Scope float_scope.

(** An objective on which the estimates move until iteration 149 and
    are identical from then on:
    [lambda x: -2.0**70 if x <= 0 else (2.0**64 if x > 1 else 1.0)]. *)
Definition stalling (x : float) : outcome float :=
  Return (if x <=? 0 then - 0x1p70 else if 1 <? x then 0x1p64 else 1).

(** The same with the threshold at 5: the estimates are identical from
    iteration 45 on. *)
Definition stalling_early (x : float) : outcome float :=
  Return (if x <=? 0 then - 0x1p70 else if 5 <? x then 0x1p64 else 1).

(** [-2**70] on 2015-06-11, [3 * 2**70] 365 days later: the rate is 2,
    and the NPV near it moves in steps far above [1e-6]. *)
Definition huge : list (entry float) :=
  [(735760%Z, - 0x1p70); (736125%Z, 0x1.8p71)].

(** [-1] on 2015-06-11, [2] 365 days later: the rate is 1. *)
Definition doubling : list (entry float) :=
  [(735760%Z, -1); (736125%Z, 2)].

(** Two inflows: the NPV is positive at every rate. *)
Definition inflows : list (entry float) :=
  [(735760%Z, 1); (736125%Z, 2)].

(** Three entries on one day whose sum depends on the order in which
    they are added, and an outflow 365 days later. *)
Definition cancelling : list (entry float) :=
  [(735760%Z, 1e16); (735760%Z, 1); (735760%Z, -1e16); (736125%Z, -3)].

Definition cancelling_permuted : list (entry float) :=
  [(735760%Z, 1e16); (735760%Z, -1e16); (735760%Z, 1); (736125%Z, -3)].

(** An objective that is NaN inside the bracket:
    [lambda x: -1.0 if x == 0 else (1.0 if x == 10 else nan)]. *)
Definition nan_inside (x : float) : outcome float :=
  Return (if x =? 0 then -1 else if x =? 10 then 1 else nan).

(** An objective that is NaN at the left end only:
    [lambda x: nan if x == 0 else (1.0 if x == 10 else -1.0)]. *)
Definition nan_at_left (x : float) : outcome float :=
  Return (if x =? 0 then nan else if x =? 10 then 1 else -1).

(** The same with [0.0] away from the ends:
    [lambda x: nan if x == 0 else (1.0 if x == 10 else 0.0)]. *)
Definition nan_then_zero (x : float) : outcome float :=
  Return (if x =? 0 then nan else if x =? 10 then 1 else 0).

(** Two inflows, on the real numbers. *)
Definition real_inflows : list (entry R) :=
  [(735760%Z, 1%R); (736125%Z, 2%R)].

(** A line through [(1, 0)], on the real numbers. *)
Definition line (x : R) : outcome R := Return (x - 1)%R.

(** [-10] on a day and [11] 365 days later, on the real numbers: the rate
    is [0.1]; the first estimate is [1], with an NPV of [-4.5]. *)
Definition round_flows : list (entry R) :=
  [(735760%Z, (-10)%R); (736125%Z, 11%R)].

(** The same with every amount multiplied by [1e-8]. *)
Definition small_flows : list (entry R) :=
  scale (/ 100000000)%R round_flows.

(** Two real amounts on one day and one 365 days later. *)
Definition tied : list (entry R) :=
  [(735760%Z, 1%R); (735760%Z, (-3)%R); (736125%Z, 4%R)].

End Inputs.

(** ** What the further statements speak of *)

Section Further.

Context {F : Type} {AF : Arith F}.

Local Open Scope arith_scope.

(** Every date of a series moved by [k] days. *)
Definition shift (k : Z) (cash_flow : list (entry F)) : list (entry F) :=
  map (fun item => ((fst item + k)%Z, snd item)) cash_flow.

(** Lines 139-144 of [pure.py]: the [try] of [xirr] around the solver. *)
Definition handled (silent : bool) (r : outcome (option F))
  : outcome (option F) :=
  match r with
  | Raise ConvergenceFailed =>
      if silent then Return None else Raise ConvergenceFailed
  | Raise e => Raise e
  | Return v => Return v
  end.

(** The two ends have values of [f], and the values differ: the
    division of line 50 goes through. *)
Definition ends_apart (f : F -> outcome F) (a_n b_n : F) : Prop :=
  exists f_a_n f_b_n,
    f a_n = Return f_a_n /\ f b_n = Return f_b_n /\
    (f_b_n - f_a_n ==? zero) = false.

(** The run of [secant] gets past its initial check and through its
    first [k] iterations, to the bracket of [a_k] and [b_k]. *)
Definition reached (f : F -> outcome F) (eps_y eps_x a b : F) (k : nat)
    (a_k b_k : F) : Prop :=
  exists f_a f_b prev,
    f a = Return f_a /\ f b = Return f_b /\ (f_a * f_b >=? zero) = false /\
    state_after f eps_y eps_x (seq 1 k) a b None = Some (a_k, b_k, prev).

(** A step with the two ends of its bracket exchanged. *)
Definition exchanged (st : step F) : step F :=
  match st with
  | Stop result => Stop result
  | Continue a_n b_n prev_m_n => Continue b_n a_n prev_m_n
  end.

End Further.

(** [f] changes sign between the two ends, in either order. *)
Definition sign_change (f : R -> outcome R) (a_n b_n : R) : Prop :=
  exists f_a_n f_b_n,
    f a_n = Return f_a_n /\ f b_n = Return f_b_n /\ (f_a_n * f_b_n < 0)%R.

(** The sum of the docstring of [xnpv] (line 91): each amount divided by
    [(1 + rate) ** ((t - t0) / 365)]. *)
Definition present_value (rate : R) (t0 : Z) (cash_flow : list (entry R)) : R :=
  fold_left
    (fun x item =>
       (x + snd item / Rpower (rate + 1) (IZR (fst item - t0) / 365))%R)
    cash_flow 0%R.

(** A float that is not a zero. *)
Definition not_zero (s : spec_float) : Prop :=
  match s with S754_zero _ => False | _ => True end.

(** ** Amounts of one sign *)

(** Python floats with [**] given by [pw]: what holds of this
    arithmetic for every [pw] holds whatever the platform's [pow]
    computes. *)
Definition float_with (pw : float -> float -> outcome float) : Arith float :=
  {| zero := 0%float;
     one := 1%float;
     ten := 10%float;
     year_days := 365%float;
     eps_default := 0x1.0c6f7a0b5ed8dp-20%float;
     add := PrimFloat.add;
     sub := PrimFloat.sub;
     mul := PrimFloat.mul;
     quot := PrimFloat.div;
     absv := PrimFloat.abs;
     power := pw;
     ltb := PrimFloat.ltb;
     geb := fun x y => PrimFloat.leb y x;
     eqb := PrimFloat.eqb;
     of_int := float_of_int |}.

Section Signs.

Context {F : Type} {AF : Arith F}.

Local Open Scope arith_scope.

(** [x > 0]. *)
Definition above_zero (x : F) : Prop := (zero <? x) = true.

(** [x >= 0], or [x <= 0] when [negative] is set. *)
Definition of_sign (negative : bool) (x : F) : Prop :=
  if negative then (zero >=? x) = true else (x >=? zero) = true.

(** Lines 106-108: the year fraction of a day offset. *)
Definition year_fraction (d : Z) : F := quot (of_int d) year_days.

(** What the evaluation of a series whose amounts have one sign uses of
    the arithmetic.  [os_power] is about [**]: what it returns for the base
    [11.0] at the difference of two year fractions in their order is above
    zero; [os_quot] and [os_product] are about the amounts of the series
    and their sum. *)
Record one_sign_laws (negative : bool) (ns : list (entry F)) : Prop := {
  os_year : (year_days ==? zero) = false;
  os_fraction : year_fraction 0 = zero;
  os_one : above_zero one;
  os_zero : of_sign negative zero;
  os_add : forall x t,
    of_sign negative x -> of_sign negative t -> of_sign negative (x + t);
  os_quot :
    Forall (fun item =>
              forall d, above_zero d -> of_sign negative (quot (snd item) d))
           ns;
  os_mul : forall x y,
    above_zero x -> above_zero y -> (x * y ==? zero) = false ->
    above_zero (x * y);
  os_power : forall d d' r,
    (0 <= d' <= d)%Z ->
    power (ten + one) (year_fraction d - year_fraction d') = Return r ->
    above_zero r;
  os_product : forall y,
    of_sign negative y -> (sum_amounts ns * y >=? zero) = true
}.

End Signs.

(** The sign of a float, read on its specification. *)
Definition sf_of_sign (negative : bool) (s : spec_float) : Prop :=
  match s with
  | S754_zero _ => True
  | S754_infinity b => b = negative
  | S754_finite b _ _ => b = negative
  | S754_nan => False
  end.

Definition sf_above_zero (s : spec_float) : Prop :=
  match s with
  | S754_infinity false => True
  | S754_finite false _ _ => True
  | _ => False
  end.

(** Finite, not a zero, and of the sign. *)
Definition sf_proper (negative : bool) (s : spec_float) : Prop :=
  match s with
  | S754_finite b _ _ => b = negative
  | _ => False
  end.

(** ** xirr_scipy (src/pyxirr/__init__.py) *)

(** [d[k] = v] on a dict, held as the list of its items in the order of
    insertion: a key that is present keeps its place and takes the new
    value, a new key goes to the end. *)
Fixpoint dict_set {V : Type} (k : Z) (v : V) (d : list (Z * V))
  : list (Z * V) :=
  match d with
  | [] => [(k, v)]
  | (k', v') :: d' =>
      if (k =? k')%Z then (k', v) :: d' else (k', v') :: dict_set k v d'
  end.

(** [dict(payments)] on a list of pairs. *)
Definition dict {V : Type} (payments : list (Z * V)) : list (Z * V) :=
  fold_left (fun d item => dict_set (fst item) (snd item) d) payments [].

(** Lines 9-10.  [library_xirr] stands for [xirr.math.xirr], a function
    of another package. *)
Definition xirr_scipy {V A : Type} (library_xirr : list (Z * V) -> A)
    (payments : list (Z * V)) : A :=
  library_xirr (dict payments).

(** Two dicts that differ in the value of [d] at most. *)
Definition differ_at {V : Type} (d : Z) (X Y : list (Z * V)) : Prop :=
  exists X1 X2 a b,
    ~ In d (map fst X1) /\ X = X1 ++ (d, a) :: X2 /\ Y = X1 ++ (d, b) :: X2.

(** ** Further inputs *)

Module Samples.

(** The objective of the docstring of [secant],
    [lambda x: x**2 - x - 1], with [x * x] for [x ** 2]. *)
Definition golden (x : float) : outcome float :=
  Return (x * x - x - 1)%float.

(** The payments of [src/tests.py]: 2015-06-11, 2015-07-21, 2018-06-10
    and 2015-10-17, as ordinals. *)
Definition payments : list (entry R) :=
  [(735760%Z, (-1000)%R); (735800%Z, (-9000)%R);
   (736855%Z, 20000%R); (735888%Z, (-3000)%R)].

(** The same on floats. *)
Definition float_payments : list (entry float) :=
  [(735760%Z, (-1000)%float); (735800%Z, (-9000)%float);
   (736855%Z, 20000%float); (735888%Z, (-3000)%float)].

(** Three amounts on one day. *)
Definition one_day : list (entry float) :=
  [(735760%Z, 1e16%float); (735760%Z, 1%float); (735760%Z, (-1e16)%float)].

(** An objective that raises right of [1]. *)
Definition failing (x : R) : outcome R :=
  if Rle_dec x 1 then Return (x - 1 / 2)%R else Raise OverflowError.

End Samples.

(** ** The solver's control flow *)

Section SolverFacts.

Context {F : Type} {AF : Arith F}.

Local Open Scope py_scope.
Local Open Scope arith_scope.

(** The initial check of [secant] (lines 41-43). *)
Lemma secant_initial_check (f : F -> outcome F) (a b : F) (N : nat)
    (eps_y eps_x f_a f_b : F) :
  f a = Return f_a -> f b = Return f_b ->
  (f_a * f_b >=? zero) = true ->
  secant f a b N eps_y eps_x = Return None.
Proof.
  intros Ha Hb Hsign. unfold secant.
  rewrite Ha, Hb. cbn [bind]. now rewrite Hsign.
Qed.

(** [xirr] hands the outcome of the solver on, but for a stall. *)
Lemma xirr_of_solve {G : Type} (s ns : list (entry F)) (g : G) (silent : bool) :
  normalized s = Return ns ->
  xirr s g silent =
    match solve ns with
    | Raise ConvergenceFailed =>
        if silent then Return None else Raise ConvergenceFailed
    | r => r
    end.
Proof. intros Hn. unfold xirr. now rewrite Hn. Qed.

(** The same for [xirr]: the NPV at the rates [0.0] and [10.0]. *)
Lemma xirr_initial_check {G : Type} (s ns : list (entry F)) (g : G)
    (silent : bool) (npv_0 npv_10 : F) :
  normalized s = Return ns ->
  xnpv zero ns true true = Return npv_0 ->
  xnpv ten ns true true = Return npv_10 ->
  (npv_0 * npv_10 >=? zero) = true ->
  xirr s g silent = Return None.
Proof.
  intros Hn H0 H10 Hsign.
  rewrite (xirr_of_solve s ns g silent Hn). unfold solve.
  now rewrite (secant_initial_check _ _ _ 2000 _ _ _ _ H0 H10 Hsign).
Qed.

(** C8.  When the solver stalls on the normalized series, [xirr] raises
    [ConvergenceFailed] with [silent=False] and returns [None] with
    [silent=True]; on every other outcome of [xirr] with [silent=False]
    (a rate, [None], another exception) [silent=True] gives the same. *)
Theorem xirr_silent_masks_stall_only {G : Type} (s : list (entry F)) (g : G) :
  (forall ns, normalized s = Return ns ->
              solve ns = Raise ConvergenceFailed ->
              xirr s g false = Raise ConvergenceFailed /\
              xirr s g true = Return None)
  /\
  (xirr s g false <> Raise ConvergenceFailed ->
   xirr s g true = xirr s g false).
Proof.
  split.
  - intros ns Hn Hstall.
    rewrite !(xirr_of_solve s ns g _ Hn), Hstall. now split.
  - unfold xirr. destruct (normalized s) as [ns|e]; cbn [bind]; [|reflexivity].
    destruct (solve ns) as [r|[]]; try reflexivity.
    intros H. now contradiction H.
Qed.

(** C9.  [xirr] does not read [guess]: two calls that differ in it only
    have the same outcome. *)
Theorem xirr_guess_inert {G1 G2 : Type} (s : list (entry F))
    (g1 : G1) (g2 : G2) (silent : bool) :
  xirr s g1 silent = xirr s g2 silent.
Proof. reflexivity. Qed.

End SolverFacts.

(** ** The stall check *)

Section StallCheck.

Context {F : Type} {AF : Arith F}.
Variables (f : F -> outcome F) (eps_y eps_x : F).

Local Open Scope py_scope.
Local Open Scope arith_scope.

Lemma estimate_inv (a_n b_n m_n : F) :
  estimate f a_n b_n = Return m_n ->
  exists f_a_n f_b_n q,
    f a_n = Return f_a_n /\ f b_n = Return f_b_n /\
    div (f_a_n * (b_n - a_n)) (f_b_n - f_a_n) = Return q /\
    m_n = a_n - q.
Proof.
  unfold estimate.
  destruct (f a_n) as [f_a_n|]; cbn [bind]; [|discriminate].
  destruct (f b_n) as [f_b_n|]; cbn [bind]; [|discriminate].
  destruct (div _ _) as [q|] eqn:Hq; cbn [bind]; [|discriminate].
  intros [= <-]. now exists f_a_n, f_b_n, q.
Qed.

(** An iteration that goes on went through its stall check. *)
Lemma iteration_Continue_inv (n : nat) (a_n b_n : F) (prev : option F)
    (a' b' : F) (prev' : option F) :
  iteration f eps_y eps_x n a_n b_n prev = Return (Continue a' b' prev') ->
  exists m_n, estimate f a_n b_n = Return m_n /\
              checkpoint n prev m_n = Return prev'.
Proof.
  unfold iteration, estimate.
  destruct (f a_n) as [f_a_n|]; cbn [bind]; [|discriminate].
  destruct (f b_n) as [f_b_n|]; cbn [bind]; [|discriminate].
  destruct (div _ _) as [q|]; cbn [bind]; [|discriminate].
  destruct (f (a_n - q)) as [f_m_n|]; cbn [bind]; [|discriminate].
  destruct (checkpoint n prev (a_n - q)) as [p|] eqn:Hc; cbn [bind];
    [|discriminate].
  intros H. exists (a_n - q). split; [reflexivity|].
  rewrite Hc. f_equal.
  repeat match type of H with
         | (if ?c then _ else _) = _ => destruct c
         end; congruence.
Qed.

(** Once recorded, [prev_m_n] is never assigned again. *)
Lemma checkpoint_keeps_recorded (n : nat) (m_0 m_n : F) (prev' : option F) :
  checkpoint n (Some m_0) m_n = Return prev' -> prev' = Some m_0.
Proof.
  unfold checkpoint.
  destruct (n mod 100 =? 0)%nat; [destruct (m_0 ==? m_n)|]; congruence.
Qed.

Lemma checkpoint_off (n : nat) (prev : option F) (m_n : F) :
  (n mod 100 =? 0)%nat = false -> checkpoint n prev m_n = Return prev.
Proof. unfold checkpoint. now intros ->. Qed.

Lemma state_after_app (ns1 ns2 : list nat) (a_n b_n : F) (prev : option F) :
  state_after f eps_y eps_x (ns1 ++ ns2) a_n b_n prev =
    match state_after f eps_y eps_x ns1 a_n b_n prev with
    | Some (a', b', prev') => state_after f eps_y eps_x ns2 a' b' prev'
    | None => None
    end.
Proof.
  revert a_n b_n prev.
  induction ns1 as [|n ns1 IH]; intros a_n b_n prev; cbn; [reflexivity|].
  destruct (iteration f eps_y eps_x n a_n b_n prev) as [[r|a' b' prev']|];
    auto.
Qed.

Lemma secant_loop_app (ns1 ns2 : list nat) (a_n b_n : F) (prev : option F)
    (a' b' : F) (prev' : option F) :
  state_after f eps_y eps_x ns1 a_n b_n prev = Some (a', b', prev') ->
  secant_loop f eps_y eps_x (ns1 ++ ns2) a_n b_n prev =
    secant_loop f eps_y eps_x ns2 a' b' prev'.
Proof.
  revert a_n b_n prev.
  induction ns1 as [|n ns1 IH]; intros a_n b_n prev; cbn.
  - now intros [= -> -> ->].
  - destruct (iteration f eps_y eps_x n a_n b_n prev) as [[r|a1 b1 prev1]|];
      cbn [bind]; try discriminate.
    apply IH.
Qed.

Lemma state_after_keeps_recorded (ns : list nat) (a_n b_n m_0 : F)
    (a' b' : F) (prev' : option F) :
  state_after f eps_y eps_x ns a_n b_n (Some m_0) = Some (a', b', prev') ->
  prev' = Some m_0.
Proof.
  revert a_n b_n.
  induction ns as [|n ns IH]; intros a_n b_n; cbn.
  - now intros [= _ _ <-].
  - destruct (iteration f eps_y eps_x n a_n b_n (Some m_0))
      as [[r|a1 b1 prev1]|] eqn:Hit; try discriminate.
    apply iteration_Continue_inv in Hit as (m_n & _ & Hc).
    apply checkpoint_keeps_recorded in Hc. subst prev1. apply IH.
Qed.

Lemma state_after_unrecorded (ns : list nat) (a_n b_n : F)
    (a' b' : F) (prev' : option F) :
  forallb (fun n => negb (n mod 100 =? 0)%nat) ns = true ->
  state_after f eps_y eps_x ns a_n b_n None = Some (a', b', prev') ->
  prev' = None.
Proof.
  revert a_n b_n.
  induction ns as [|n ns IH]; intros a_n b_n; cbn.
  - now intros _ [= _ _ <-].
  - intros [Hn Hns]%andb_prop.
    destruct (iteration f eps_y eps_x n a_n b_n None)
      as [[r|a1 b1 prev1]|] eqn:Hit; try discriminate.
    apply iteration_Continue_inv in Hit as (m_n & _ & Hc).
    rewrite checkpoint_off in Hc by now apply negb_true_iff.
    injection Hc as <-. now apply IH.
Qed.

(** What [prev_m_n] holds after the first checkpoint: the estimate of
    iteration 100, in every later iteration. *)
Lemma prev_m_n_is_first_checkpoint (a b : F) (n : nat) (m_100 : F)
    (a_n b_n : F) (prev : option F) :
  (100 <= n)%nat ->
  estimate_at f a b eps_y eps_x 100 = Some m_100 ->
  state_after f eps_y eps_x (seq 1 n) a b None = Some (a_n, b_n, prev) ->
  prev = Some m_100.
Proof.
  intros Hn H100 Hst.
  replace n with (99 + (1 + (n - 100)))%nat in Hst by lia.
  rewrite !seq_app, !state_after_app in Hst.
  unfold estimate_at in H100. change (100 - 1)%nat with 99%nat in H100.
  destruct (state_after f eps_y eps_x (seq 1 99) a b None)
    as [[[a1 b1] prev1]|] eqn:H99; [|discriminate].
  assert (prev1 = None) as ->
      by (now apply state_after_unrecorded in H99).
  destruct (estimate f a1 b1) as [m|] eqn:Hm; [|discriminate].
  injection H100 as ->.
  cbn [seq app state_after Nat.add] in Hst.
  destruct (iteration f eps_y eps_x 100 a1 b1 None)
    as [[r|a2 b2 prev2]|] eqn:Hit; try discriminate.
  apply iteration_Continue_inv in Hit as (m & Hm' & Hc).
  rewrite Hm in Hm'. injection Hm' as <-.
  cbn in Hc. injection Hc as <-.
  now apply state_after_keeps_recorded in Hst.
Qed.

(** What the code does at a checkpoint after the first: it raises when
    the estimate equals the one of iteration 100. *)
Lemma stall_against_first_checkpoint (a b : F) (N j : nat)
    (f_a f_b m_100 m_n f_m_n : F) :
  (2 <= j)%nat -> (100 * j <= N)%nat ->
  f a = Return f_a -> f b = Return f_b -> (f_a * f_b >=? zero) = false ->
  estimate_at f a b eps_y eps_x 100 = Some m_100 ->
  estimate_at f a b eps_y eps_x (100 * j) = Some m_n ->
  f m_n = Return f_m_n ->
  (m_100 ==? m_n) = true ->
  secant f a b N eps_y eps_x = Raise ConvergenceFailed.
Proof.
  intros Hj HN Ha Hb Hsign H100 Hn Hfm Heq.
  unfold secant. rewrite Ha, Hb. cbn [bind]. rewrite Hsign.
  replace N with ((100 * j - 1) + (1 + (N - 100 * j)))%nat by lia.
  rewrite seq_app.
  unfold estimate_at in Hn.
  destruct (state_after f eps_y eps_x (seq 1 (100 * j - 1)) a b None)
    as [[[a_n b_n] prev]|] eqn:Hst; [|discriminate].
  rewrite (secant_loop_app _ _ _ _ _ _ _ _ Hst).
  assert (prev = Some m_100) as ->
      by (apply (prev_m_n_is_first_checkpoint a b (100 * j - 1) m_100 a_n b_n);
          [lia | assumption | assumption]).
  destruct (estimate f a_n b_n) as [m|] eqn:Hm; [|discriminate].
  injection Hn as ->.
  destruct (estimate_inv _ _ _ Hm) as (f_a_n & f_b_n & q & Hfa & Hfb & Hq & ->).
  rewrite seq_app. cbn [seq app secant_loop].
  unfold iteration. rewrite Hfa, Hfb. cbn [bind]. rewrite Hq. cbn [bind].
  rewrite Hfm. cbn [bind]. unfold checkpoint.
  replace (1 + (100 * j - 1))%nat with (j * 100)%nat by lia.
  rewrite Nat.Div0.mod_mul. cbn [Nat.eqb]. rewrite Heq. reflexivity.
Qed.

End StallCheck.

(** ** The bracket update *)

Section BracketUpdate.

Context {F : Type} {AF : Arith F}.
Variables (f : F -> outcome F) (eps_y eps_x : F).

Local Open Scope py_scope.
Local Open Scope arith_scope.

(** Lines 58-72 in an iteration whose values are at hand and whose stall
    check went through: the last branch returns [None]. *)
Lemma iteration_last_branch (n : nat) (a_n b_n : F) (prev prev' : option F)
    (f_a_n f_b_n q f_m_n : F) :
  f a_n = Return f_a_n -> f b_n = Return f_b_n ->
  div (f_a_n * (b_n - a_n)) (f_b_n - f_a_n) = Return q ->
  f (a_n - q) = Return f_m_n ->
  checkpoint n prev (a_n - q) = Return prev' ->
  (absv (b_n - a_n) <? eps_x) = false ->
  (absv f_m_n <? eps_y) = false ->
  (f_a_n * f_m_n <? zero) = false ->
  (f_b_n * f_m_n <? zero) = false ->
  iteration f eps_y eps_x n a_n b_n prev = Return (Stop None).
Proof.
  intros Ha Hb Hq Hm Hc Hx Hy Hsa Hsb. unfold iteration.
  rewrite Ha, Hb. cbn [bind]. rewrite Hq. cbn [bind].
  rewrite Hm. cbn [bind]. rewrite Hc. cbn [bind].
  now rewrite Hx, Hy, Hsa, Hsb.
Qed.

Lemma secant_loop_Stop (n : nat) (ns : list nat) (a_n b_n : F)
    (prev : option F) (r : option F) :
  iteration f eps_y eps_x n a_n b_n prev = Return (Stop r) ->
  secant_loop f eps_y eps_x (n :: ns) a_n b_n prev = Return r.
Proof. intros H. cbn [secant_loop]. now rewrite H. Qed.

End BracketUpdate.

(** ** NaN in the tests of the solver *)

Module NaN.

Local Open Scope float_scope.

Lemma SFeqb_refl_false (s : spec_float) : SFeqb s s = false -> s = S754_nan.
Proof.
  unfold SFeqb.
  destruct s as [[]|[]|  |[] m e]; cbn; try discriminate; try reflexivity;
    rewrite Z.compare_refl, Pos.compare_cont_refl; discriminate.
Qed.

Lemma is_nan_spec (x : float) : is_nan x = true -> Prim2SF x = S754_nan.
Proof.
  unfold is_nan. rewrite negb_true_iff, FloatAxioms.eqb_spec.
  apply SFeqb_refl_false.
Qed.

(** A product with a NaN factor is not [< 0]. *)
Lemma nan_product_not_negative (x y : float) :
  is_nan x = true \/ is_nan y = true -> (x * y <? 0) = false.
Proof.
  intros H. rewrite FloatAxioms.ltb_spec, FloatAxioms.mul_spec.
  destruct H as [H|H]; apply is_nan_spec in H; rewrite H;
    [|destruct (Prim2SF x)]; reflexivity.
Qed.

(** The absolute value of NaN is below no tolerance. *)
Lemma nan_abs_not_below (x eps : float) :
  is_nan x = true -> (abs x <? eps) = false.
Proof.
  intros H. rewrite FloatAxioms.ltb_spec, FloatAxioms.abs_spec.
  apply is_nan_spec in H. now rewrite H.
Qed.

(** C4.  On floats, in an iteration that evaluated [f] at [a_n], [b_n]
    and [m_n] and went through its stall check: when [|b_n - a_n| < eps_x]
    and [|f(m_n)| < eps_y] both fail and neither [f(a_n) * f(m_n) < 0] nor
    [f(b_n) * f(m_n) < 0] holds, the loop ends there and [secant] returns
    [None], not an exception.  A NaN is not looked for: a NaN factor makes
    the test [< 0] of its own product fail, and a NaN [f(m_n)], the factor
    of both products, makes the [eps_y] test fail as well, so that the
    iteration ends in the same branch.  A NaN [f(a_n)] or [f(b_n)] decides
    the test of its own product only: the statement says nothing more of
    it, and the iteration may then go on. *)
Theorem secant_inconsistent_signs_returns_None
    (f : float -> outcome float) (eps_y eps_x : float)
    (n : nat) (ns : list nat) (a_n b_n : float) (prev prev' : option float)
    (f_a_n f_b_n q f_m_n : float) :
  f a_n = Return f_a_n -> f b_n = Return f_b_n ->
  div (f_a_n * (b_n - a_n)) (f_b_n - f_a_n) = Return q ->
  f (a_n - q) = Return f_m_n ->
  checkpoint n prev (a_n - q) = Return prev' ->
  (abs (b_n - a_n) <? eps_x) = false ->
  ((abs f_m_n <? eps_y) = false ->
   (f_a_n * f_m_n <? 0) = false ->
   (f_b_n * f_m_n <? 0) = false ->
   secant_loop f eps_y eps_x (n :: ns) a_n b_n prev = Return None)
  /\
  ((is_nan f_a_n = true \/ is_nan f_m_n = true ->
    (f_a_n * f_m_n <? 0) = false) /\
   (is_nan f_b_n = true \/ is_nan f_m_n = true ->
    (f_b_n * f_m_n <? 0) = false) /\
   (is_nan f_m_n = true -> (abs f_m_n <? eps_y) = false))
  /\
  (is_nan f_m_n = true ->
   secant_loop f eps_y eps_x (n :: ns) a_n b_n prev = Return None).
Proof.
  intros Ha Hb Hq Hm Hc Hx.
  assert (forall Hy : (abs f_m_n <? eps_y) = false,
             (f_a_n * f_m_n <? 0) = false ->
             (f_b_n * f_m_n <? 0) = false ->
             secant_loop f eps_y eps_x (n :: ns) a_n b_n prev = Return None)
    as Hlast.
  { intros Hy Hsa Hsb. apply secant_loop_Stop.
    exact (iteration_last_branch f eps_y eps_x n a_n b_n prev prev'
             f_a_n f_b_n q f_m_n Ha Hb Hq Hm Hc Hx Hy Hsa Hsb). }
  split; [exact Hlast|]. split.
  - split; [|split].
    + apply nan_product_not_negative.
    + apply nan_product_not_negative.
    + apply nan_abs_not_below.
  - intros Hnan. apply Hlast.
    + now apply nan_abs_not_below.
    + apply nan_product_not_negative. now right.
    + apply nan_product_not_negative. now right.
Qed.

End NaN.

(** ** The sort *)

Section SortFacts.

Context {F : Type} {AF : Arith F}.

Lemma insert_by_key_perm (x : entry F) (l : list (entry F)) :
  Permutation (insert_by_key x l) (x :: l).
Proof.
  induction l as [|y l IH]; cbn; [reflexivity|].
  destruct (fst x <=? fst y)%Z; [reflexivity|].
  rewrite IH. apply perm_swap.
Qed.

Lemma sorted_perm (l : list (entry F)) : Permutation (sorted l) l.
Proof.
  induction l as [|x l IH]; cbn; [reflexivity|].
  rewrite insert_by_key_perm. now apply perm_skip.
Qed.

Lemma insert_by_key_sorted (x : entry F) (l : list (entry F)) :
  StronglySorted key_le l -> StronglySorted key_le (insert_by_key x l).
Proof.
  induction 1 as [|y l Hl IH Hy]; cbn.
  - repeat constructor.
  - destruct (fst x <=? fst y)%Z eqn:Hxy.
    + apply Z.leb_le in Hxy. constructor; [now constructor|].
      constructor; [exact Hxy|].
      eapply Forall_impl; [|exact Hy]. unfold key_le. intros z Hz. lia.
    + apply Z.leb_gt in Hxy. constructor; [exact IH|].
      rewrite insert_by_key_perm. constructor; [unfold key_le; lia|exact Hy].
Qed.

Lemma sorted_sorted (l : list (entry F)) : StronglySorted key_le (sorted l).
Proof.
  induction l as [|x l IH]; cbn; [constructor|].
  now apply insert_by_key_sorted.
Qed.

(** Two sorted lists with the same entries and no key twice are the same
    list. *)
Lemma sorted_unique (l1 l2 : list (entry F)) :
  StronglySorted key_le l1 -> StronglySorted key_le l2 ->
  NoDup (map fst l1) -> Permutation l1 l2 -> l1 = l2.
Proof.
  revert l2. induction l1 as [|x l1 IH]; intros l2 H1 H2 Hnd Hp.
  - now apply Permutation_nil in Hp.
  - destruct l2 as [|y l2];
      [now apply Permutation_sym, Permutation_nil in Hp|].
    apply StronglySorted_inv in H1 as [H1 Hx].
    apply StronglySorted_inv in H2 as [H2 Hy].
    inversion Hnd as [|k ks Hk Hnd']; subst.
    assert (x = y) as ->.
    { assert (In x (y :: l2)) as [->|Hx2]
          by (eapply Permutation_in; [exact Hp|now left]); [reflexivity|].
      assert (In y (x :: l1)) as [->|Hy1]
          by (eapply Permutation_in; [symmetry; exact Hp|now left]);
        [reflexivity|].
      exfalso. apply Hk.
      rewrite Forall_forall in Hx, Hy.
      specialize (Hx y Hy1). specialize (Hy x Hx2). unfold key_le in Hx, Hy.
      replace (fst x) with (fst y) by lia. now apply in_map. }
    f_equal. apply IH; try assumption.
    now apply Permutation_cons_inv in Hp.
Qed.

Lemma sorted_of_permutation (l1 l2 : list (entry F)) :
  NoDup (map fst l1) -> Permutation l1 l2 -> sorted l1 = sorted l2.
Proof.
  intros Hnd Hp. apply sorted_unique; try apply sorted_sorted.
  - eapply Permutation_NoDup; [|exact Hnd].
    apply Permutation_map. symmetry. apply sorted_perm.
  - now rewrite !sorted_perm.
Qed.

Lemma map_to_float (l : list (entry F)) :
  map (fun e => (fst e, to_float (snd e))) l = l.
Proof.
  induction l as [|[d a] l IH]; cbn; [reflexivity|]. now rewrite IH.
Qed.

Lemma sorted_nonempty (l : list (entry F)) : l <> [] -> sorted l <> [].
Proof.
  intros Hl Hs. apply Hl. apply Permutation_nil.
  rewrite <- Hs. apply sorted_perm.
Qed.

(** [xirr] on two orders of a series without a timestamp twice. *)
Lemma xirr_permutation_distinct {G : Type} (s s' : list (entry F)) (g : G)
    (silent : bool) :
  NoDup (map fst s) -> Permutation s s' ->
  xirr s' g silent = xirr s g silent.
Proof.
  intros Hnd Hp. unfold xirr, normalized.
  rewrite !map_to_float. now rewrite (sorted_of_permutation s s' Hnd Hp).
Qed.

End SortFacts.

(** ** The NPV at the rate 0 and the NPV of a single entry *)

Section EvaluatorFacts.

Context {F : Type} {AF : Arith F}.

Local Open Scope py_scope.
Local Open Scope arith_scope.

Lemma xnpv_loop_rate_zero (t0 : Z) (already_day_diffs : bool)
    (items : list (entry F)) (last_power x : F) :
  zero_rate_laws items ->
  xnpv_loop one t0 already_day_diffs items last_power one x =
    Return (fold_left (fun x item => x + snd item) items x).
Proof.
  intros [_ Hpow H11 H1 Hyear Hitems].
  revert last_power x.
  induction Hitems as [|item rest Hitem _ IH]; intros last_power x;
    [reflexivity|].
  cbn [xnpv_loop fold_left]. unfold div.
  rewrite Hyear. destruct already_day_diffs; cbn [bind];
    rewrite Hpow; cbn [bind]; rewrite H11, H1; cbn [bind];
    rewrite Hitem; apply IH.
Qed.

Lemma zero_rate_laws_perm (s s' : list (entry F)) :
  Permutation s s' -> zero_rate_laws s -> zero_rate_laws s'.
Proof.
  intros Hp [H0 Hpow H11 H1 Hyear Hitems]. constructor; try assumption.
  now rewrite <- Hp.
Qed.

(** [xnpv] at the rate [0]: the amounts added in the order in which the
    loop meets them. *)
Lemma xnpv_rate_zero (s : list (entry F)) (sorted_ already_day_diffs : bool) :
  s <> [] -> zero_rate_laws s ->
  xnpv zero s sorted_ already_day_diffs =
    Return (sum_amounts (if sorted_ then s else sorted s)).
Proof.
  intros Hs Hlaws. unfold xnpv, sum_amounts.
  assert (zero_rate_laws (if sorted_ then s else sorted s)) as Hl
      by (destruct sorted_; [assumption|];
          eapply zero_rate_laws_perm; [|exact Hlaws];
          symmetry; apply sorted_perm).
  assert ((if sorted_ then s else sorted s) <> []) as Hne
      by (destruct sorted_; [assumption|now apply sorted_nonempty]).
  destruct (if sorted_ then s else sorted s) as [|[t0 a] rest];
    [now contradiction Hne|].
  rewrite (zr_rate_plus_1 _ Hl). now apply xnpv_loop_rate_zero.
Qed.

Lemma xnpv_single_entry (rate a : F) :
  single_entry_laws a -> xnpv rate [(0%Z, a)] true true = Return a.
Proof.
  intros [Hyear Hfr Hexp Hpow H11 H1 Hterm Hsum].
  unfold xnpv. cbn [xnpv_loop fst snd]. unfold div.
  rewrite Hyear. cbn [bind]. change (0 - 0)%Z with 0%Z.
  rewrite Hfr, Hexp, Hpow. cbn [bind].
  rewrite H11, H1. cbn [bind]. now rewrite Hterm, Hsum.
Qed.

Lemma normalized_single_entry (d : Z) (a : F) :
  normalized [(d, a)] = Return [(0%Z, a)].
Proof.
  unfold normalized, days, to_float. cbn. now rewrite Z.sub_diag.
Qed.

Lemma xirr_single_entry {G : Type} (d : Z) (a : F) (g : G) (silent : bool) :
  single_entry_laws a -> (a * a >=? zero) = true ->
  xirr [(d, a)] g silent = Return None.
Proof.
  intros Hlaws Hsquare.
  rewrite (xirr_of_solve _ _ g silent (normalized_single_entry d a)).
  unfold solve.
  rewrite (secant_initial_check _ _ _ _ _ _ a a); try reflexivity;
    try (now apply xnpv_single_entry).
  exact Hsquare.
Qed.

End EvaluatorFacts.

(** ** Exact arithmetic: the tests and the laws *)

Module ExactFacts.

Local Open Scope R_scope.

Lemma ltb_true (x y : R) : real_ltb x y = true <-> x < y.
Proof. unfold real_ltb. destruct (Rlt_dec x y); split; intros; easy. Qed.

Lemma ltb_false (x y : R) : real_ltb x y = false <-> y <= x.
Proof.
  unfold real_ltb. destruct (Rlt_dec x y); split; intros; try easy; lra.
Qed.

Lemma geb_true (x y : R) : real_geb x y = true <-> y <= x.
Proof.
  unfold real_geb. destruct (Rge_dec x y); split; intros; try easy; lra.
Qed.

Lemma geb_false (x y : R) : real_geb x y = false <-> x < y.
Proof.
  unfold real_geb. destruct (Rge_dec x y); split; intros; try easy; lra.
Qed.

Lemma eqb_true (x y : R) : real_eqb x y = true <-> x = y.
Proof. unfold real_eqb. destruct (Req_dec_T x y); split; intros; easy. Qed.

Lemma eqb_false (x y : R) : real_eqb x y = false <-> x <> y.
Proof. unfold real_eqb. destruct (Req_dec_T x y); split; intros; easy. Qed.

Lemma ltb_ext (x y x' y' : R) :
  (x < y <-> x' < y') -> real_ltb x y = real_ltb x' y'.
Proof.
  intros H. destruct (real_ltb x' y') eqn:H'.
  - apply ltb_true. apply H. now apply ltb_true.
  - apply ltb_false. apply ltb_false in H'. lra.
Qed.

Lemma pow_exponent_zero (x y : R) : y = 0 -> real_pow x y = Return 1.
Proof. intros Hy. unfold real_pow. now destruct (Req_dec_T y 0). Qed.

Lemma pow_base_one (y : R) : real_pow 1 y = Return 1.
Proof.
  unfold real_pow. destruct (Req_dec_T y 0); [reflexivity|].
  destruct (Rlt_dec 0 1); [|lra].
  unfold Rpower. now rewrite ln_1, Rmult_0_r, exp_0.
Qed.

Lemma year_days_nonzero : real_eqb 365 0 = false.
Proof. apply eqb_false. lra. Qed.

Lemma one_nonzero : real_eqb 1 0 = false.
Proof. apply eqb_false. lra. Qed.

Lemma real_zero_rate_laws (s : list (entry R)) : zero_rate_laws s.
Proof.
  constructor; cbn.
  - lra.
  - exact pow_base_one.
  - lra.
  - exact one_nonzero.
  - exact year_days_nonzero.
  - apply Forall_forall. intros item _. field.
Qed.

Lemma real_single_entry_laws (a : R) : single_entry_laws a.
Proof.
  constructor; cbn.
  - exact year_days_nonzero.
  - lra.
  - lra.
  - intros x. now apply pow_exponent_zero.
  - lra.
  - exact one_nonzero.
  - field.
  - lra.
Qed.

(** In exact arithmetic the sum of the amounts does not depend on their
    order. *)
Lemma fold_amounts_perm (l l' : list (entry R)) :
  Permutation l l' ->
  forall x, fold_left (fun x item => x + snd item) l x =
            fold_left (fun x item => x + snd item) l' x.
Proof.
  induction 1 as [|e l l' _ IH|e e' l|l l' l'' _ IH1 _ IH2]; intros x; cbn.
  - reflexivity.
  - apply IH.
  - f_equal. lra.
  - now rewrite IH1.
Qed.

Lemma sum_amounts_perm (l l' : list (entry R)) :
  Permutation l l' -> sum_amounts l = sum_amounts l'.
Proof. intros Hp. now apply fold_amounts_perm. Qed.

Lemma real_same_sign_product (x y : R) :
  same_sign x y = true -> real_geb (x * y) 0 = true.
Proof.
  unfold same_sign. cbn [ltb zero real_arith].
  intros [[Hx Hy]%andb_prop|[Hx Hy]%andb_prop]%orb_prop;
    apply ltb_true in Hx, Hy; apply geb_true; nra.
Qed.

(** Deciding the tests of the solver on explicit real numbers. *)
Ltac solve_real :=
  solve [ lra | unfold Rabs; destruct (Rcase_abs _); lra ].

Ltac decide_test :=
  match goal with
  | |- context [real_ltb ?x ?y] =>
      first [ rewrite (proj2 (ltb_true x y)) by solve_real
            | rewrite (proj2 (ltb_false x y)) by solve_real ]
  | |- context [real_geb ?x ?y] =>
      first [ rewrite (proj2 (geb_true x y)) by solve_real
            | rewrite (proj2 (geb_false x y)) by solve_real ]
  | |- context [real_eqb ?x ?y] =>
      first [ rewrite (proj2 (eqb_true x y)) by solve_real
            | rewrite (proj2 (eqb_false x y)) by solve_real ]
  end.

Ltac real_ops :=
  cbn [zero one ten year_days eps_default add sub mul quot absv power
       ltb geb eqb of_int real_arith].

(** The NPV of two entries 365 days apart. *)
Lemma xnpv_year_apart (rate a_0 a_1 : R) :
  -1 < rate ->
  xnpv rate [(0%Z, a_0); (365%Z, a_1)] true true =
    Return (a_0 + a_1 / (1 + rate)).
Proof.
  intros Hrate. unfold xnpv. cbn. unfold div. cbn.
  rewrite (proj2 (eqb_false 365 0)) by lra. cbn.
  rewrite (pow_exponent_zero (rate + 1) (0 / 365 - 0)) by lra. cbn.
  rewrite (proj2 (eqb_false (1 * 1) 0)) by lra. cbn.
  unfold real_pow.
  destruct (Req_dec_T (365 / 365 - 0 / 365) 0) as [E|_]; [lra|].
  destruct (Rlt_dec 0 (rate + 1)) as [_|E]; [|lra].
  replace (365 / 365 - 0 / 365) with 1 by field.
  rewrite Rpower_1 by lra. cbn.
  rewrite (proj2 (eqb_false ((rate + 1) * (1 * 1)) 0)) by lra. cbn.
  f_equal. field. lra.
Qed.

End ExactFacts.

(** ** Floats: the laws *)

Module FloatFacts.

Local Open Scope Z_scope.

Lemma Prim2SF_inj (x y : float) : Prim2SF x = Prim2SF y -> x = y.
Proof.
  intros H. rewrite <- (SF2Prim_Prim2SF x), <- (SF2Prim_Prim2SF y).
  now rewrite H.
Qed.

(** A binary64 mantissa has 53 digits, or fewer at the least exponent. *)
Lemma valid_mantissa (m : positive) (e : Z) :
  valid_binary (S754_finite false m e) = true ->
  e <= 971 /\
  ((Z.pos (digits2_pos m) = 53 /\ -1074 < e) \/
   (Z.pos (digits2_pos m) <= 53 /\ e = -1074)).
Proof.
  unfold valid_binary, bounded, canonical_mantissa.
  intros [H1 H2]%andb_prop. apply Z.eqb_eq in H1. apply Z.leb_le in H2.
  unfold fexp, SpecFloat.emin in H1.
  change emax with 1024 in *. change prec with 53 in *. lia.
Qed.

Lemma div_eucl_exact (a b q : Z) :
  0 < b -> a = b * q -> Z.div_eucl a b = (q, 0).
Proof.
  intros Hb ->.
  destruct (Z.div_eucl (b * q) b) as [q' r] eqn:E.
  assert (q' = b * q / b) as -> by (unfold Z.div; now rewrite E).
  assert (r = (b * q) mod b) as -> by (unfold Z.modulo; now rewrite E).
  rewrite (Z.mul_comm b q), Z.div_mul, Z.mod_mul by lia. reflexivity.
Qed.

(** The quotient by [1.0], which is the mantissa [2 ** 52] at the
    exponent [-52]. *)
Lemma SFdiv_one (s : spec_float) :
  valid_binary s = true ->
  SF64div s (S754_finite false 4503599627370496 (-52)) = s.
Proof.
  destruct s as [sx|sx| |sx mx ex]; intros Hv;
    try (now destruct sx); try reflexivity.
  assert (valid_binary (S754_finite false mx ex) = true) as Hv' by exact Hv.
  apply valid_mantissa in Hv' as [Hex Hd].
  unfold SF64div, SFdiv, SFdiv_core_binary.
  rewrite xorb_false_r.
  change (Zdigits2 (Z.pos 4503599627370496)) with 53.
  change (Zdigits2 (Z.pos mx)) with (Z.pos (digits2_pos mx)).
  unfold fexp, SpecFloat.emin.
  change (3 - emax - prec) with (-1074). change prec with 53.
  change emax with 1024.
  destruct Hd as [[Hd He]|[Hd He]].
  - replace (Z.min (Z.max (Z.pos (digits2_pos mx) + ex - (53 + -52) - 53)
                          (-1074))
                   (ex - -52)) with (ex - 1) by lia.
    replace (ex - -52 - (ex - 1)) with 53 by lia.
    rewrite (div_eucl_exact _ _ (Z.pos (xO mx))); [|lia|].
    2:{ rewrite Z.shiftl_mul_pow2 by lia.
        change (2 ^ 53) with 9007199254740992. lia. }
    cbn [new_location Z.even new_location_even Z.eqb].
    unfold binary_round_aux, shr_fexp.
    cbn [Zdigits2 digits2_pos].
    unfold fexp, SpecFloat.emin.
    change (3 - 1024 - 53) with (-1074).
    rewrite Pos2Z.inj_succ.
    replace (Z.max (Z.succ (Z.pos (digits2_pos mx)) + (ex - 1) - 53) (-1074)
             - (ex - 1)) with 1 by lia.
    cbn [shr shr_record_of_loc SpecFloat.iter_pos shr_1 orb shr_m
         loc_of_shr_record round_nearest_even].
    cbn [Zdigits2].
    replace (ex - 1 + 1) with ex by lia.
    replace (Z.max (Z.pos (digits2_pos mx) + ex - 53) (-1074) - ex)
      with 0 by lia.
    cbn [shr shr_m].
    change (1024 - 53) with 971.
    now apply Z.leb_le in Hex as ->.
  - subst ex.
    replace (Z.min (Z.max (Z.pos (digits2_pos mx) + -1074 - (53 + -52) - 53)
                          (-1074))
                   (-1074 - -52)) with (-1074) by lia.
    change (-1074 - -52 - -1074) with 52.
    rewrite (div_eucl_exact _ _ (Z.pos mx)); [|lia|].
    2:{ rewrite Z.shiftl_mul_pow2 by lia.
        change (2 ^ 52) with 4503599627370496. lia. }
    cbn [new_location Z.even new_location_even Z.eqb].
    unfold binary_round_aux, shr_fexp.
    cbn [Zdigits2].
    unfold fexp, SpecFloat.emin.
    change (3 - 1024 - 53) with (-1074).
    replace (Z.max (Z.pos (digits2_pos mx) + -1074 - 53) (-1074) - -1074)
      with 0 by lia.
    cbn [shr shr_record_of_loc shr_m loc_of_shr_record round_nearest_even].
    cbn [Zdigits2].
    replace (Z.max (Z.pos (digits2_pos mx) + -1074 - 53) (-1074) - -1074)
      with 0 by lia.
    reflexivity.
Qed.

(** [a / 1.0] is [a], for every float. *)
Lemma float_div_one (a : float) : (a / 1)%float = a.
Proof.
  apply Prim2SF_inj. rewrite FloatAxioms.div_spec.
  change (Prim2SF 1) with (S754_finite false 4503599627370496 (-52)).
  apply SFdiv_one, Prim2SF_valid.
Qed.

(** [0.0 + a] is [a], but for [a = -0.0]. *)
Lemma float_zero_add (a : float) : (a =? 0)%float = false -> (0 + a)%float = a.
Proof.
  intros Ha. apply Prim2SF_inj. rewrite FloatAxioms.add_spec.
  rewrite FloatAxioms.eqb_spec in Ha.
  change (Prim2SF 0) with (S754_zero false) in *.
  destruct (Prim2SF a) as [sx|sx| |sx mx ex]; try reflexivity.
  discriminate.
Qed.

Lemma shr_1_nonneg (mrs : shr_record) :
  0 <= shr_m mrs -> 0 <= shr_m (shr_1 mrs).
Proof.
  destruct mrs as [m r s]. destruct m as [|[p|p|]|[p|p|]]; cbn; lia.
Qed.

Lemma iter_pos_nonneg (n : positive) (mrs : shr_record) :
  0 <= shr_m mrs -> 0 <= shr_m (SpecFloat.iter_pos shr_1 n mrs).
Proof.
  revert mrs. induction n as [n IH|n IH|]; intros mrs H; cbn.
  - now apply IH, IH, shr_1_nonneg.
  - now apply IH, IH.
  - now apply shr_1_nonneg.
Qed.

Lemma shr_fexp_nonneg (m e : Z) (l : location) :
  0 <= m -> 0 <= shr_m (fst (shr_fexp prec emax m e l)).
Proof.
  intros Hm. unfold shr_fexp, shr.
  assert (0 <= shr_m (shr_record_of_loc m l)) as H0
      by (now destruct l as [|[]]).
  destruct (fexp prec emax (Zdigits2 m + e) - e); cbn; try assumption.
  now apply iter_pos_nonneg.
Qed.

Lemma round_nearest_even_nonneg (m : Z) (l : location) :
  0 <= m -> 0 <= round_nearest_even m l.
Proof.
  intros Hm. destruct l as [|[]]; cbn; try destruct (Z.even m); lia.
Qed.

(** Rounding a positive mantissa with the sign [+] gives a number that is
    not below zero (and not NaN). *)
Lemma binary_round_aux_nonneg (m e : Z) (l : location) :
  0 <= m ->
  SFleb (S754_zero false) (binary_round_aux prec emax false m e l) = true.
Proof.
  intros Hm. unfold binary_round_aux.
  pose proof (shr_fexp_nonneg m e l Hm) as H1.
  destruct (shr_fexp prec emax m e l) as [mrs' e']. cbn [fst] in H1.
  pose proof (shr_fexp_nonneg _ e' loc_Exact
                (round_nearest_even_nonneg _ (loc_of_shr_record mrs') H1))
    as H2.
  destruct (shr_fexp prec emax _ e' loc_Exact) as [mrs'' e''].
  cbn [fst] in H2.
  destruct (shr_m mrs'') as [|p|p]; try reflexivity; [|lia].
  now destruct (e'' <=? emax - prec).
Qed.

Lemma is_nan_false (a : float) : is_nan a = false -> Prim2SF a <> S754_nan.
Proof.
  unfold is_nan. rewrite negb_false_iff, FloatAxioms.eqb_spec.
  intros H E. rewrite E in H. discriminate.
Qed.

(** [a * a >= 0] for every float but NaN. *)
Lemma float_square_nonneg (a : float) :
  is_nan a = false -> (0 <=? a * a)%float = true.
Proof.
  intros Ha%is_nan_false. rewrite FloatAxioms.leb_spec, FloatAxioms.mul_spec.
  change (Prim2SF 0) with (S754_zero false).
  destruct (Prim2SF a) as [sx|sx| |sx mx ex]; try (now destruct sx);
    [now contradiction Ha|].
  unfold SF64mul, SFmul. rewrite xorb_nilpotent.
  apply binary_round_aux_nonneg. lia.
Qed.

(** The product of two floats of the same sign is [>= 0]. *)
Lemma float_same_sign_product (x y : float) :
  same_sign x y = true -> (0 <=? x * y)%float = true.
Proof.
  unfold same_sign. cbn [ltb zero float_arith].
  rewrite !FloatAxioms.ltb_spec, FloatAxioms.leb_spec, FloatAxioms.mul_spec.
  change (Prim2SF 0) with (S754_zero false).
  destruct (Prim2SF x) as [sx|[]| |[] mx ex], (Prim2SF y) as [sy|[]| |[] my ey];
    cbn [SFltb SFcompare andb orb]; try discriminate; intros _;
    try reflexivity;
    unfold SF64mul, SFmul; cbn [xorb];
    apply binary_round_aux_nonneg; lia.
Qed.

(** With a NaN factor [x * y >= 0] fails, and [x - x] is not [0.0]. *)
Lemma nan_product_not_ge (x y : float) :
  is_nan x = true \/ is_nan y = true -> (0 <=? x * y)%float = false.
Proof.
  intros H. rewrite FloatAxioms.leb_spec, FloatAxioms.mul_spec.
  change (Prim2SF 0) with (S754_zero false).
  destruct H as [H|H]; apply NaN.is_nan_spec in H; rewrite H;
    [|destruct (Prim2SF x)]; reflexivity.
Qed.

Lemma nan_difference_nonzero (x : float) :
  is_nan x = true -> (x - x =? 0)%float = false.
Proof.
  intros H%NaN.is_nan_spec.
  rewrite FloatAxioms.eqb_spec, FloatAxioms.sub_spec, H.
  reflexivity.
Qed.

Lemma float_zero_rate_laws (s : list (entry float)) : zero_rate_laws s.
Proof.
  constructor; try reflexivity.
  - intros y. cbn. unfold float_pow. now destruct (y =? 0)%float.
  - apply Forall_forall. intros item _. apply float_div_one.
Qed.

Lemma float_single_entry_laws (a : float) :
  (a =? 0)%float = false -> single_entry_laws a.
Proof.
  intros Ha. constructor; try reflexivity.
  - apply float_div_one.
  - now apply float_zero_add.
Qed.

(** [xirr] on a single entry whose amount is not a zero: the initial
    check returns [None], and for a NaN amount the first iteration does. *)
Lemma float_xirr_single_entry {G : Type} (d : Z) (a : float) (g : G)
    (silent : bool) :
  (a =? 0)%float = false -> xirr [(d, a)] g silent = Return None.
Proof.
  intros Ha. pose proof (float_single_entry_laws a Ha) as Hlaws.
  destruct (is_nan a) eqn:Hnan.
  - rewrite (xirr_of_solve _ _ g silent (normalized_single_entry d a)).
    unfold solve, secant. rewrite !(xnpv_single_entry _ a Hlaws).
    cbn [bind]. cbn [geb zero mul float_arith].
    rewrite nan_product_not_ge by now left.
    change (seq 1 2000) with (1%nat :: seq 2 1999).
    rewrite (secant_loop_Stop _ _ _ _ _ _ _ _ None); [reflexivity|].
    apply (iteration_last_branch _ _ _ _ _ _ None None a a
             (quot (mul a (sub ten zero)) (sub a a)) a);
      try (now apply xnpv_single_entry); try reflexivity.
    + unfold div. cbn [eqb zero sub float_arith].
      now rewrite nan_difference_nonzero.
    + now apply NaN.nan_abs_not_below.
    + apply NaN.nan_product_not_negative. now left.
    + apply NaN.nan_product_not_negative. now left.
  - apply xirr_single_entry; [exact Hlaws|].
    cbn [geb zero mul float_arith]. now apply float_square_nonneg.
Qed.

End FloatFacts.

(** ** The initial check *)

(** C3.  When [f(a) * f(b) >= 0], [secant] returns [None] whatever the
    number of iterations and the tolerances, and does not raise: [f] is
    evaluated at [a] and [b] only.  So a series whose NPV at the rates
    [0.0] and [10.0] has a product that is [>= 0] makes [xirr] return
    [None], whatever [silent] is; on floats and on real numbers this is
    the case when the two NPVs have the same sign. *)
Theorem secant_no_sign_change_returns_None :
  (forall (F : Type) (AF : Arith F) (f : F -> outcome F) (a b : F) (N : nat)
          (eps_y eps_x f_a f_b : F),
      f a = Return f_a -> f b = Return f_b ->
      geb (mul f_a f_b) zero = true ->
      secant f a b N eps_y eps_x = Return None)
  /\
  (forall (F : Type) (AF : Arith F) (G : Type) (s ns : list (entry F)) (g : G)
          (silent : bool) (npv_0 npv_10 : F),
      normalized s = Return ns ->
      xnpv zero ns true true = Return npv_0 ->
      xnpv ten ns true true = Return npv_10 ->
      geb (mul npv_0 npv_10) zero = true ->
      xirr s g silent = Return None)
  /\
  (forall (G : Type) (s ns : list (entry float)) (g : G) (silent : bool)
          (npv_0 npv_10 : float),
      normalized s = Return ns ->
      xnpv 0%float ns true true = Return npv_0 ->
      xnpv 10%float ns true true = Return npv_10 ->
      same_sign npv_0 npv_10 = true ->
      xirr s g silent = Return None)
  /\
  (forall (G : Type) (s ns : list (entry R)) (g : G) (silent : bool)
          (npv_0 npv_10 : R),
      normalized s = Return ns ->
      xnpv 0%R ns true true = Return npv_0 ->
      xnpv 10%R ns true true = Return npv_10 ->
      same_sign npv_0 npv_10 = true ->
      xirr s g silent = Return None).
Proof.
  split; [|split; [|split]].
  - intros F AF. exact secant_initial_check.
  - intros F AF G. exact xirr_initial_check.
  - intros G s ns g silent npv_0 npv_10 Hn H0 H10 Hsign.
    apply (xirr_initial_check s ns g silent npv_0 npv_10 Hn H0 H10).
    now apply FloatFacts.float_same_sign_product.
  - intros G s ns g silent npv_0 npv_10 Hn H0 H10 Hsign.
    apply (xirr_initial_check s ns g silent npv_0 npv_10 Hn H0 H10).
    now apply ExactFacts.real_same_sign_product.
Qed.

(** ** The evaluator's two closed forms *)

(** C5.  For a series that is not empty, [xnpv] at the rate [0] returns
    the sum of its amounts, whatever [sorted_] and [already_day_diffs]
    are.  In any arithmetic with the laws of [zero_rate_laws], and so on
    floats, the amounts are added from [0.0] in the order in which the loop
    meets them, which is the order of the dates when [xnpv] sorts; in
    exact arithmetic this is the sum of the amounts in any order. *)
Theorem xnpv_rate_zero_is_sum :
  (forall (F : Type) (AF : Arith F) (s : list (entry F))
          (sorted_ already_day_diffs : bool),
      s <> [] -> zero_rate_laws s ->
      xnpv zero s sorted_ already_day_diffs =
        Return (sum_amounts (if sorted_ then s else sorted s)))
  /\
  (forall (s : list (entry float)) (sorted_ already_day_diffs : bool),
      s <> [] ->
      xnpv 0%float s sorted_ already_day_diffs =
        Return (sum_amounts (if sorted_ then s else sorted s)))
  /\
  (forall (s : list (entry R)) (sorted_ already_day_diffs : bool),
      s <> [] ->
      xnpv 0%R s sorted_ already_day_diffs = Return (sum_amounts s)).
Proof.
  split; [|split].
  - intros F AF s sorted_ already_day_diffs. apply xnpv_rate_zero.
  - intros s sorted_ already_day_diffs Hs.
    exact (xnpv_rate_zero s sorted_ already_day_diffs Hs
             (FloatFacts.float_zero_rate_laws s)).
  - intros s sorted_ already_day_diffs Hs.
    change 0%R with (@zero R real_arith).
    rewrite (xnpv_rate_zero s sorted_ already_day_diffs Hs
               (ExactFacts.real_zero_rate_laws s)).
    destruct sorted_; [reflexivity|].
    f_equal. apply ExactFacts.sum_amounts_perm, sorted_perm.
Qed.

(** C7.  A series of one entry of amount [a]: the normalized series is
    the entry at the offset [0], its NPV is [a] at every rate, and [xirr]
    returns [None] without raising.  This holds in any arithmetic with the
    laws of [single_entry_laws] at [a] and [a * a >= 0]; on floats for
    every amount that is not a zero (a NaN amount fails the initial check
    and ends the first iteration); and for every real amount. *)
Theorem xirr_single_entry_returns_None :
  (forall (F : Type) (AF : Arith F) (G : Type) (d : Z) (a : F) (g : G)
          (silent : bool),
      single_entry_laws a ->
      normalized [(d, a)] = Return [(0%Z, a)] /\
      (forall rate, xnpv rate [(0%Z, a)] true true = Return a) /\
      ((geb (mul a a) zero) = true -> xirr [(d, a)] g silent = Return None))
  /\
  (forall (G : Type) (d : Z) (a : float) (g : G) (silent : bool),
      (a =? 0)%float = false ->
      normalized [(d, a)] = Return [(0%Z, a)] /\
      (forall rate : float, xnpv rate [(0%Z, a)] true true = Return a) /\
      xirr [(d, a)] g silent = Return None)
  /\
  (forall (G : Type) (d : Z) (a : R) (g : G) (silent : bool),
      a <> 0%R ->
      normalized [(d, a)] = Return [(0%Z, a)] /\
      (forall rate : R, xnpv rate [(0%Z, a)] true true = Return a) /\
      xirr [(d, a)] g silent = Return None).
Proof.
  split; [|split].
  - intros F AF G d a g silent Hlaws. split; [|split].
    + apply normalized_single_entry.
    + intros rate. now apply xnpv_single_entry.
    + now apply xirr_single_entry.
  - intros G d a g silent Ha. split; [|split].
    + apply normalized_single_entry.
    + intros rate.
      now apply xnpv_single_entry, FloatFacts.float_single_entry_laws.
    + now apply FloatFacts.float_xirr_single_entry.
  - intros G d a g silent _. split; [|split].
    + apply normalized_single_entry.
    + intros rate. apply xnpv_single_entry, ExactFacts.real_single_entry_laws.
    + apply xirr_single_entry; [apply ExactFacts.real_single_entry_laws|].
      apply ExactFacts.geb_true. cbn. nra.
Qed.

(** ** The bracket of the solver, in exact arithmetic *)

Module Bracket.

Import ExactFacts.
Local Open Scope R_scope.

Lemma estimate_inside (a_n b_n f_a_n f_b_n : R) :
  a_n < b_n -> f_a_n * f_b_n < 0 ->
  f_b_n - f_a_n <> 0 /\
  a_n < a_n - f_a_n * (b_n - a_n) / (f_b_n - f_a_n) < b_n.
Proof.
  intros Hab Hsign.
  assert (f_b_n - f_a_n <> 0) as Hd by nra.
  split; [exact Hd|].
  set (t := f_a_n * (b_n - a_n) / (f_b_n - f_a_n)).
  assert (t * (f_b_n - f_a_n) = f_a_n * (b_n - a_n)) as Ht
      by (unfold t; now field).
  destruct (Rlt_dec 0 f_a_n) as [Hpos|Hneg].
  - assert (f_b_n < 0) by nra.
    split.
    + assert (t < 0); [|lra].
      apply Rnot_le_lt. intros Hge. nra.
    + assert (- (b_n - a_n) < t); [|lra].
      apply Rnot_le_lt. intros Hle. nra.
  - assert (f_a_n < 0) by nra. assert (0 < f_b_n) by nra.
    split.
    + assert (t < 0); [|lra].
      apply Rnot_le_lt. intros Hge. nra.
    + assert (- (b_n - a_n) < t); [|lra].
      apply Rnot_le_lt. intros Hle. nra.
Qed.

Section Invariant.

Variables (f : R -> outcome R) (eps_y eps_x : R).

Lemma bracketing_estimate (a_n b_n : R) :
  bracketing f a_n b_n ->
  exists f_a_n f_b_n m_n,
    f a_n = Return f_a_n /\ f b_n = Return f_b_n /\
    f_b_n - f_a_n <> 0 /\
    m_n = a_n - f_a_n * (b_n - a_n) / (f_b_n - f_a_n) /\
    estimate f a_n b_n = Return m_n /\
    a_n < m_n < b_n.
Proof.
  intros (Hab & f_a_n & f_b_n & Ha & Hb & Hsign).
  destruct (estimate_inside a_n b_n f_a_n f_b_n Hab Hsign) as [Hd Hm].
  exists f_a_n, f_b_n, (a_n - f_a_n * (b_n - a_n) / (f_b_n - f_a_n)).
  repeat split; try assumption; try apply Hm.
  unfold estimate, div. rewrite Ha, Hb. cbn.
  now apply eqb_false in Hd as ->.
Qed.

(** One iteration from a bracket: a returned rate is strictly inside
    it, and the next bracket is a bracket inside it. *)
Lemma iteration_bracketing (n : nat) (a_n b_n : R) (prev : option R)
    (st : step R) :
  bracketing f a_n b_n ->
  iteration f eps_y eps_x n a_n b_n prev = Return st ->
  match st with
  | Stop (Some r) => a_n < r < b_n
  | Stop None => True
  | Continue a' b' _ => a_n <= a' /\ b' <= b_n /\ bracketing f a' b'
  end.
Proof.
  intros Hbr.
  destruct (bracketing_estimate a_n b_n Hbr)
    as (f_a_n & f_b_n & m_n & Ha & Hb & Hd & Hm & _ & Hin).
  unfold iteration, div. rewrite Ha, Hb. cbn.
  apply eqb_false in Hd as ->. cbn. rewrite <- Hm.
  destruct (f m_n) as [f_m_n|] eqn:Hfm; cbn; [|discriminate].
  destruct (checkpoint n prev m_n) as [prev'|]; cbn; [|discriminate].
  destruct (real_ltb (Rabs (b_n - a_n)) eps_x); [now intros [= <-]|].
  destruct (real_ltb (Rabs f_m_n) eps_y); [now intros [= <-]|].
  destruct (real_ltb (f_a_n * f_m_n) 0) eqn:Hsa.
  { intros [= <-]. apply ltb_true in Hsa.
    repeat split; try lra. now exists f_a_n, f_m_n. }
  destruct (real_ltb (f_b_n * f_m_n) 0) eqn:Hsb.
  { intros [= <-]. apply ltb_true in Hsb.
    repeat split; try lra. exists f_m_n, f_b_n. repeat split; try assumption.
    lra. }
  now intros [= <-].
Qed.

Lemma secant_loop_inside (ns : list nat) (a_n b_n : R) (prev : option R)
    (r : R) :
  bracketing f a_n b_n ->
  secant_loop f eps_y eps_x ns a_n b_n prev = Return (Some r) ->
  a_n < r < b_n.
Proof.
  revert a_n b_n prev.
  induction ns as [|n ns IH]; intros a_n b_n prev Hbr; cbn;
    [discriminate|].
  destruct (iteration f eps_y eps_x n a_n b_n prev) as [st|] eqn:Hit;
    cbn; [|discriminate].
  apply (iteration_bracketing _ _ _ _ _ Hbr) in Hit.
  destruct st as [[r'|]|a' b' prev'].
  - now intros [= <-].
  - discriminate.
  - intros Hloop. destruct Hit as (Ha & Hb & Hbr').
    apply (IH _ _ _ Hbr') in Hloop. lra.
Qed.

Lemma secant_inside (a b : R) (N : nat) (r : R) :
  a < b -> secant f a b N eps_y eps_x = Return (Some r) -> a < r < b.
Proof.
  intros Hab. unfold secant.
  destruct (f a) as [f_a|] eqn:Ha; cbn; [|discriminate].
  destruct (f b) as [f_b|] eqn:Hb; cbn; [|discriminate].
  destruct (real_geb (f_a * f_b) 0) eqn:Hsign; [discriminate|].
  apply geb_false in Hsign. apply secant_loop_inside.
  split; [exact Hab|]. now exists f_a, f_b.
Qed.

End Invariant.

Lemma xirr_inside {G : Type} (s : list (entry R)) (g : G) (silent : bool)
    (r : R) :
  xirr s g silent = Return (Some r) -> 0 < r < 10.
Proof.
  unfold xirr. destruct (normalized s) as [ns|]; cbn; [|discriminate].
  destruct (solve ns) as [[r'|]|e] eqn:Hsolve.
  - intros [= <-]. unfold solve in Hsolve.
    apply secant_inside in Hsolve; [exact Hsolve|cbn; lra].
  - discriminate.
  - destruct e, silent; discriminate.
Qed.

(** C10.  In exact arithmetic, from a bracket [a_n < b_n] with
    [f(a_n) * f(b_n) < 0]: the denominator [f(b_n) - f(a_n)] is not
    zero, the estimate [m_n] lies strictly between [a_n] and [b_n], and
    an iteration that goes on leaves a bracket with [a_n <= a_{n+1} <
    b_{n+1} <= b_n] and [f(a_{n+1}) * f(b_{n+1}) < 0].  So a rate that
    [secant] returns on [a < b] lies strictly between [a] and [b], and a
    rate that [xirr] returns lies strictly between [0] and [10]. *)
Theorem secant_keeps_its_bracket :
  (forall (f : R -> outcome R) (a_n b_n : R),
      bracketing f a_n b_n ->
      exists f_a_n f_b_n m_n,
        f a_n = Return f_a_n /\ f b_n = Return f_b_n /\
        f_b_n - f_a_n <> 0 /\
        m_n = a_n - f_a_n * (b_n - a_n) / (f_b_n - f_a_n) /\
        estimate f a_n b_n = Return m_n /\
        a_n < m_n < b_n /\
        forall (eps_y eps_x : R) (n : nat) (prev prev' : option R)
               (a' b' : R),
          iteration f eps_y eps_x n a_n b_n prev
            = Return (Continue a' b' prev') ->
          a_n <= a' /\ b' <= b_n /\ bracketing f a' b')
  /\
  (forall (f : R -> outcome R) (a b : R) (N : nat) (eps_y eps_x r : R),
      a < b -> secant f a b N eps_y eps_x = Return (Some r) -> a < r < b)
  /\
  (forall (G : Type) (s : list (entry R)) (g : G) (silent : bool) (r : R),
      xirr s g silent = Return (Some r) -> 0 < r < 10).
Proof.
  split; [|split].
  - intros f a_n b_n Hbr.
    destruct (bracketing_estimate f a_n b_n Hbr)
      as (f_a_n & f_b_n & m_n & Ha & Hb & Hd & Hm & He & Hin).
    exists f_a_n, f_b_n, m_n.
    refine (conj Ha (conj Hb (conj Hd (conj Hm (conj He (conj Hin _)))))).
    intros eps_y eps_x n prev prev' a' b' Hit.
    now apply (iteration_bracketing f eps_y eps_x n a_n b_n prev _ Hbr) in Hit.
  - intros f a b N eps_y eps_x r. apply secant_inside.
  - intros G s g silent r. apply xirr_inside.
Qed.

End Bracket.

(** ** Scaling the amounts *)

Section Extensionality.

Context {F : Type} {AF : Arith F}.
Variables (f g : F -> outcome F).
Hypothesis f_g : forall x, f x = g x.

Lemma iteration_ext (eps_y eps_x : F) (n : nat) (a_n b_n : F)
    (prev : option F) :
  iteration f eps_y eps_x n a_n b_n prev =
    iteration g eps_y eps_x n a_n b_n prev.
Proof.
  unfold iteration. rewrite !f_g.
  destruct (g a_n); cbn [bind]; [|reflexivity].
  destruct (g b_n); cbn [bind]; [|reflexivity].
  destruct (div _ _); cbn [bind]; [|reflexivity].
  now rewrite f_g.
Qed.

Lemma secant_loop_ext (eps_y eps_x : F) (ns : list nat) (a_n b_n : F)
    (prev : option F) :
  secant_loop f eps_y eps_x ns a_n b_n prev =
    secant_loop g eps_y eps_x ns a_n b_n prev.
Proof.
  revert a_n b_n prev. induction ns as [|n ns IH]; intros; cbn;
    [reflexivity|].
  rewrite iteration_ext.
  destruct (iteration g eps_y eps_x n a_n b_n prev) as [[r|a' b' prev']|];
    cbn [bind]; auto.
Qed.

Lemma secant_ext (a b : F) (N : nat) (eps_y eps_x : F) :
  secant f a b N eps_y eps_x = secant g a b N eps_y eps_x.
Proof.
  unfold secant. rewrite !f_g.
  destruct (g a); cbn [bind]; [|reflexivity].
  destruct (g b); cbn [bind]; [|reflexivity].
  now rewrite secant_loop_ext.
Qed.

End Extensionality.

Section ScaleSort.

Context {F : Type} {AF : Arith F}.
Variable c : F.

Lemma insert_by_key_scale (x : entry F) (l : list (entry F)) :
  insert_by_key (fst x, mul c (snd x)) (scale c l) =
    scale c (insert_by_key x l).
Proof.
  unfold scale. induction l as [|y l IH]; [reflexivity|].
  cbn [map insert_by_key fst].
  destruct (fst x <=? fst y)%Z; [reflexivity|].
  cbn [map]. f_equal. exact IH.
Qed.

Lemma sorted_scale (l : list (entry F)) :
  sorted (scale c l) = scale c (sorted l).
Proof.
  induction l as [|x l IH]; [reflexivity|].
  change (sorted (scale c (x :: l)))
    with (insert_by_key (fst x, mul c (snd x)) (sorted (scale c l))).
  rewrite IH. apply insert_by_key_scale.
Qed.

Lemma normalized_scale (s ns : list (entry F)) :
  normalized s = Return ns -> normalized (scale c s) = Return (scale c ns).
Proof.
  unfold normalized. rewrite !map_to_float, sorted_scale.
  destruct (sorted s) as [|[t0 a] rest]; cbn; [discriminate|].
  intros [= <-]. f_equal.
  unfold scale. cbn [map fst snd]. f_equal.
  rewrite !map_map. now apply map_ext.
Qed.

End ScaleSort.

Module Scaling.

Import ExactFacts.
Local Open Scope R_scope.

Lemma xnpv_loop_scale (c rate_plus_1 : R) (t0 : Z) (already_day_diffs : bool)
    (items : list (entry R)) (last_power last_raised x : R) :
  xnpv_loop rate_plus_1 t0 already_day_diffs (scale c items)
    last_power last_raised (c * x) =
  scaled c (xnpv_loop rate_plus_1 t0 already_day_diffs items
              last_power last_raised x).
Proof.
  revert last_power last_raised x.
  induction items as [|[d a] rest IH]; intros; cbn; [reflexivity|].
  destruct (if already_day_diffs
            then div (IZR (d - t0)) 365 else div (IZR (days (d - t0))) 365)
    as [new_power|]; cbn; [|reflexivity].
  destruct (real_pow rate_plus_1 (new_power - last_power)) as [raised|];
    cbn; [|reflexivity].
  unfold div. cbn.
  destruct (real_eqb (raised * last_raised) 0) eqn:Hz; cbn; [reflexivity|].
  apply eqb_false in Hz.
  replace (c * x + c * a / (raised * last_raised))
    with (c * (x + a / (raised * last_raised)))
    by (field; split; intros E; apply Hz; rewrite E; ring).
  apply IH.
Qed.

(** The NPV is homogeneous in the amounts. *)
Lemma xnpv_scale (c rate : R) (ns : list (entry R)) :
  xnpv rate (scale c ns) true true = scaled c (xnpv rate ns true true).
Proof.
  unfold xnpv. destruct ns as [|[t0 a] rest]; [reflexivity|].
  change (scale c ((t0, a) :: rest)) with ((t0, c * a) :: scale c rest).
  cbn iota beta.
  change ((t0, c * a) :: scale c rest) with (scale c ((t0, a) :: rest)).
  replace (@zero R real_arith) with (c * 0) at 2 by (cbn; lra).
  apply xnpv_loop_scale.
Qed.

Section Solver.

Variables (f : R -> outcome R) (c eps_y eps_x : R).
Hypothesis c_pos : 0 < c.

Lemma iteration_scale (n : nat) (a_n b_n : R) (prev : option R) :
  iteration (fun x => scaled c (f x)) (c * eps_y) eps_x n a_n b_n prev =
    iteration f eps_y eps_x n a_n b_n prev.
Proof.
  unfold iteration.
  destruct (f a_n) as [f_a_n|]; cbn; [|reflexivity].
  destruct (f b_n) as [f_b_n|]; cbn; [|reflexivity].
  unfold div. cbn.
  destruct (real_eqb (f_b_n - f_a_n) 0) eqn:Hd.
  - apply eqb_true in Hd.
    assert (real_eqb (c * f_b_n - c * f_a_n) 0 = true) as ->
        by (apply eqb_true; nra).
    reflexivity.
  - apply eqb_false in Hd.
    assert (real_eqb (c * f_b_n - c * f_a_n) 0 = false) as ->
        by (apply eqb_false; nra).
    cbn.
    replace (c * f_a_n * (b_n - a_n) / (c * f_b_n - c * f_a_n))
      with (f_a_n * (b_n - a_n) / (f_b_n - f_a_n))
      by (field; split; [nra|lra]).
    destruct (f (a_n - f_a_n * (b_n - a_n) / (f_b_n - f_a_n)))
      as [f_m_n|]; cbn; [|reflexivity].
    destruct (checkpoint n prev _) as [prev'|]; cbn; [|reflexivity].
    rewrite (ltb_ext (Rabs (c * f_m_n)) (c * eps_y) (Rabs f_m_n) eps_y)
      by (rewrite Rabs_mult, (Rabs_pos_eq c) by lra; split; intros; nra).
    rewrite (ltb_ext (c * f_a_n * (c * f_m_n)) 0 (f_a_n * f_m_n) 0)
      by (assert (0 < c * c) by nra; split; intros; nra).
    rewrite (ltb_ext (c * f_b_n * (c * f_m_n)) 0 (f_b_n * f_m_n) 0)
      by (assert (0 < c * c) by nra; split; intros; nra).
    reflexivity.
Qed.

Lemma secant_loop_scale (ns : list nat) (a_n b_n : R) (prev : option R) :
  secant_loop (fun x => scaled c (f x)) (c * eps_y) eps_x ns a_n b_n prev =
    secant_loop f eps_y eps_x ns a_n b_n prev.
Proof.
  revert a_n b_n prev. induction ns as [|n ns IH]; intros; cbn;
    [reflexivity|].
  rewrite iteration_scale.
  destruct (iteration f eps_y eps_x n a_n b_n prev) as [[r|a' b' prev']|];
    cbn; auto.
Qed.

Lemma secant_scale (a b : R) (N : nat) :
  secant (fun x => scaled c (f x)) a b N (c * eps_y) eps_x =
    secant f a b N eps_y eps_x.
Proof.
  unfold secant.
  destruct (f a) as [f_a|]; cbn; [|reflexivity].
  destruct (f b) as [f_b|]; cbn; [|reflexivity].
  assert (real_geb (c * f_a * (c * f_b)) 0 = real_geb (f_a * f_b) 0) as ->.
  { assert (0 < c * c) by nra.
    destruct (real_geb (f_a * f_b) 0) eqn:Hs.
    - apply geb_true in Hs. apply geb_true. nra.
    - apply geb_false in Hs. apply geb_false. nra. }
  destruct (real_geb (f_a * f_b) 0); [reflexivity|].
  apply secant_loop_scale.
Qed.

End Solver.

(** C2, as the code has it.  In exact arithmetic, for [c > 0]: the
    normalized series of the scaled series is the scaled normalized
    series, its NPV is [c] times the NPV at every rate (an exception is
    the same exception), and the solver run on it with the tolerance
    [c * eps_y] has the outcome of the solver run on the NPV of the
    series with [eps_y]: the same rate, [None] or
    [ConvergenceFailed]. *)
Theorem xirr_scaling_with_scaled_tolerance
    (s ns : list (entry R)) (c : R) (N : nat) (eps_y eps_x : R) :
  0 < c ->
  normalized s = Return ns ->
  normalized (scale c s) = Return (scale c ns) /\
  (forall rate : R,
      xnpv rate (scale c ns) true true = scaled c (xnpv rate ns true true)) /\
  secant (fun r => xnpv r (scale c ns) true true) 0 10 N (c * eps_y) eps_x =
    secant (fun r => xnpv r ns true true) 0 10 N eps_y eps_x.
Proof.
  intros Hc Hn. split; [|split].
  - now apply normalized_scale.
  - intros rate. apply xnpv_scale.
  - rewrite <- (secant_scale (fun r => xnpv r ns true true) c eps_y eps_x Hc).
    apply secant_ext. intros rate. apply xnpv_scale.
Qed.

End Scaling.

(** ** Entries that share a timestamp *)

Section Ties.

Context {F : Type} {AF : Arith F}.

Lemma insert_by_key_tie_equiv (x : entry F) (l l' : list (entry F)) :
  tie_equiv l l' -> tie_equiv (insert_by_key x l) (insert_by_key x l').
Proof.
  induction 1 as [l|d a b l|y l l' Hl IH|l1 l2 l3 _ IH1 _ IH2].
  - apply tie_refl.
  - cbn. destruct (fst x <=? d)%Z.
    + apply tie_skip, tie_swap.
    + apply tie_swap.
  - cbn. destruct (fst x <=? fst y)%Z.
    + now apply tie_skip, tie_skip.
    + now apply tie_skip.
  - now apply tie_trans with (insert_by_key x l2).
Qed.

Lemma insert_by_key_twice (x y : entry F) (l : list (entry F)) :
  tie_equiv (insert_by_key y (insert_by_key x l))
            (insert_by_key x (insert_by_key y l)).
Proof.
  destruct x as [dx ax], y as [dy ay].
  induction l as [|[dz az] l IH]; cbn.
  - destruct (dy <=? dx)%Z eqn:Hyx, (dx <=? dy)%Z eqn:Hxy;
      try apply tie_refl.
    + apply Z.leb_le in Hyx, Hxy. assert (dx = dy) as -> by lia.
      apply tie_swap.
    + apply Z.leb_gt in Hyx, Hxy. lia.
  - destruct (dx <=? dz)%Z eqn:Hxz, (dy <=? dz)%Z eqn:Hyz; cbn;
      rewrite ?Hxz, ?Hyz.
    + destruct (dy <=? dx)%Z eqn:Hyx, (dx <=? dy)%Z eqn:Hxy;
        try apply tie_refl.
      * apply Z.leb_le in Hyx, Hxy. assert (dx = dy) as -> by lia.
        apply tie_swap.
      * apply Z.leb_gt in Hyx, Hxy. lia.
    + assert ((dy <=? dx)%Z = false) as ->
          by (apply Z.leb_gt; apply Z.leb_le in Hxz;
              apply Z.leb_gt in Hyz; lia).
      apply tie_refl.
    + assert ((dx <=? dy)%Z = false) as ->
          by (apply Z.leb_gt; apply Z.leb_le in Hyz;
              apply Z.leb_gt in Hxz; lia).
      apply tie_refl.
    + now apply tie_skip.
Qed.

Lemma sorted_tie_equiv (l l' : list (entry F)) :
  Permutation l l' -> tie_equiv (sorted l) (sorted l').
Proof.
  induction 1 as [|x l l' _ IH|x y l|l1 l2 l3 _ IH1 _ IH2].
  - apply tie_refl.
  - now apply insert_by_key_tie_equiv.
  - apply insert_by_key_twice.
  - now apply tie_trans with (sorted l2).
Qed.

Lemma tie_equiv_offsets (t0 : Z) (l l' : list (entry F)) :
  tie_equiv l l' ->
  tie_equiv (map (fun e => (days (fst e - t0), snd e)) l)
            (map (fun e => (days (fst e - t0), snd e)) l').
Proof.
  induction 1 as [l|d a b l|y l l' _ IH|l1 l2 l3 _ IH1 _ IH2]; cbn.
  - apply tie_refl.
  - apply tie_swap.
  - now apply tie_skip.
  - eapply tie_trans; eassumption.
Qed.

(** Lists that differ by such exchanges are both empty or start at the
    same timestamp. *)
Lemma tie_equiv_first (l l' : list (entry F)) :
  tie_equiv l l' ->
  match l, l' with
  | [], [] => True
  | x :: _, y :: _ => fst x = fst y
  | _, _ => False
  end.
Proof.
  induction 1 as [l|d a b l|y l l' _ IH|l1 l2 l3 _ IH1 _ IH2]; cbn; trivial.
  - now destruct l.
  - destruct l1, l2, l3; try easy. congruence.
Qed.

Lemma normalized_tie_equiv (s s' : list (entry F)) :
  Permutation s s' ->
  match normalized s, normalized s' with
  | Return ns, Return ns' => tie_equiv ns ns'
  | Raise e, Raise e' => e = e'
  | _, _ => False
  end.
Proof.
  intros Hp. unfold normalized. rewrite !map_to_float.
  pose proof (sorted_tie_equiv s s' Hp) as Ht.
  pose proof (tie_equiv_first _ _ Ht) as Hfirst.
  destruct (sorted s) as [|[t0 a] rest], (sorted s') as [|[t0' a'] rest'];
    try easy.
  cbn in Hfirst. subst t0'. now apply tie_equiv_offsets.
Qed.

End Ties.

Module ExactTies.

Import ExactFacts.
Local Open Scope R_scope.

Lemma xnpv_loop_tie_equiv (rate_plus_1 : R) (t0 : Z) (already_day_diffs : bool)
    (l l' : list (entry R)) :
  tie_equiv l l' ->
  forall last_power last_raised x,
    xnpv_loop rate_plus_1 t0 already_day_diffs l last_power last_raised x =
    xnpv_loop rate_plus_1 t0 already_day_diffs l' last_power last_raised x.
Proof.
  induction 1 as [l|d a b l|y l l' _ IH|l1 l2 l3 _ IH1 _ IH2];
    intros last_power last_raised x.
  - reflexivity.
  - cbn [xnpv_loop fst snd].
    destruct (if already_day_diffs
              then div (of_int (d - t0)) year_days
              else div (of_int (days (d - t0))) year_days)
      as [new_power|]; cbn [bind]; [|reflexivity].
    destruct (power rate_plus_1 (sub new_power last_power)) as [raised|];
      cbn [bind]; [|reflexivity].
    unfold div. cbn.
    destruct (real_eqb (raised * last_raised) 0) eqn:Hz; cbn; [reflexivity|].
    rewrite (pow_exponent_zero rate_plus_1 (new_power - new_power)) by lra.
    cbn. apply eqb_false in Hz.
    assert (real_eqb (1 * (raised * last_raised)) 0 = false) as ->
        by (apply eqb_false; lra).
    cbn. f_equal. field.
    split; intros E; apply Hz; rewrite E; ring.
  - cbn [xnpv_loop].
    destruct (if already_day_diffs
              then div (of_int (fst y - t0)) year_days
              else div (of_int (days (fst y - t0))) year_days)
      as [new_power|]; cbn [bind]; [|reflexivity].
    destruct (power rate_plus_1 (sub new_power last_power)) as [raised|];
      cbn [bind]; [|reflexivity].
    destruct (div (snd y) (mul raised last_raised)) as [term|];
      cbn [bind]; [|reflexivity].
    apply IH.
  - now rewrite IH1.
Qed.

Lemma xnpv_tie_equiv (rate : R) (ns ns' : list (entry R)) :
  tie_equiv ns ns' -> xnpv rate ns true true = xnpv rate ns' true true.
Proof.
  intros Ht. pose proof (tie_equiv_first _ _ Ht) as Hfirst.
  unfold xnpv. destruct ns as [|[t0 a] rest], ns' as [|[t0' a'] rest'];
    try easy.
  cbn in Hfirst. subst t0'. now apply xnpv_loop_tie_equiv.
Qed.

(** In exact arithmetic the order of the input does not matter. *)
Lemma xirr_permutation_exact {G : Type} (s s' : list (entry R)) (g : G)
    (silent : bool) :
  Permutation s s' -> xirr s' g silent = xirr s g silent.
Proof.
  intros Hp. pose proof (normalized_tie_equiv s s' Hp) as Hn.
  unfold xirr.
  destruct (normalized s) as [ns|e], (normalized s') as [ns'|e'];
    try easy; cbn [bind]; [|now subst].
  unfold solve.
  rewrite (secant_ext (fun r => xnpv r ns' true true)
                      (fun r => xnpv r ns true true)); [reflexivity|].
  intros rate. symmetry. now apply xnpv_tie_equiv.
Qed.

End ExactTies.

(** C6, as the code has it.  [xirr] returns the same on two orders of a
    series when no timestamp occurs twice in it, in any arithmetic; and on
    any two orders of any series in exact arithmetic.  (The sort is stable,
    so entries that share a timestamp are added in the order of the input,
    and a sum of floats may depend on that order.) *)
Theorem xirr_permutation :
  (forall (F : Type) (AF : Arith F) (G : Type) (s s' : list (entry F)) (g : G)
          (silent : bool),
      NoDup (map fst s) -> Permutation s s' ->
      xirr s' g silent = xirr s g silent)
  /\
  (forall (G : Type) (s s' : list (entry R)) (g : G) (silent : bool),
      Permutation s s' -> xirr s' g silent = xirr s g silent).
Proof.
  split.
  - intros F AF G s s' g silent. apply xirr_permutation_distinct.
  - intros G s s' g silent. apply ExactTies.xirr_permutation_exact.
Qed.

(** ** The statements on inputs *)

Module Examples.

Import Inputs.
Local Open Scope float_scope.

(** C1, on the code.  On [stalling] over [[0, 10]] the estimates of the
    iterations 200 and 300 are the same number and the estimate of
    iteration 100 is another one; [secant] compares every checkpoint with
    the estimate of iteration 100 only, runs through its 2000 iterations
    and returns [None]: it does not raise [ConvergenceFailed]. *)
Theorem secant_misses_stall_after_first_checkpoint :
  estimate_at stalling 0 10 eps_default eps_default 100
    = Some 0x1.0f904e1765c26p+1 /\
  estimate_at stalling 0 10 eps_default eps_default 200
    = Some 0x1.fc279a441113bp-1 /\
  estimate_at stalling 0 10 eps_default eps_default 300
    = Some 0x1.fc279a441113bp-1 /\
  secant stalling 0 10 2000 eps_default eps_default = Return None.
Proof. repeat split; vm_compute; reflexivity. Qed.

(** When the estimates of the iterations 100 and 200 are the same, the
    stall is seen. *)
Lemma secant_sees_stall_at_second_checkpoint :
  secant stalling_early 0 10 2000 eps_default eps_default
    = Raise ConvergenceFailed.
Proof.
  apply (stall_against_first_checkpoint stalling_early
           eps_default eps_default 0 10 2000 2 (- 0x1p70) 0x1p64
           0x1.3e8cd3c4133e6p+2 0x1.3e8cd3c4133e6p+2 1);
    try lia; vm_compute; reflexivity.
Defined.

(** C2 fails on the code: on floats [doubling] has the rate
    [1.0000010728836062], and the same series with every amount multiplied
    by [2 ** -30] has the rate [5.5], the first estimate, whose NPV is below
    [1e-6]. *)
Lemma xirr_scaling_counterexample :
  (0 <? 0x1p-30) = true /\
  xirr doubling tt false = Return (Some 0x1.0000120000001p+0) /\
  xirr (scale 0x1p-30 doubling) tt false = Return (Some 0x1.6p+2) /\
  xirr (scale 0x1p-30 doubling) tt false <> xirr doubling tt false.
Proof.
  split; [|split; [|split]]; try (vm_compute; reflexivity).
  vm_compute. intros [= H].
Qed.

(** C6 fails on the code: [cancelling] and [cancelling_permuted] hold
    the same entries, three of them on one day; on the first [xirr]
    returns [None], on the second the rate [2.0000024418186242]. *)
Lemma xirr_permutation_counterexample :
  Permutation cancelling cancelling_permuted /\
  xirr cancelling tt false = Return None /\
  xirr cancelling_permuted tt false = Return (Some 0x1.0000147bc3fc3p+1) /\
  xirr cancelling_permuted tt false <> xirr cancelling tt false.
Proof.
  split; [|split; [|split]]; try (vm_compute; reflexivity).
  - unfold cancelling, cancelling_permuted. apply perm_skip, perm_swap.
  - vm_compute. discriminate.
Qed.

(** C4 fails on the code when the NaN is the value at an end of the
    bracket.  On [nan_at_left] over [[0, 10]], [f(a_1)] is NaN and so is
    the estimate [m_1]; neither stopping criterion holds, [f(a_1) * f(m_1)]
    is not [< 0] but [f(b_1) * f(m_1)] is, so the iteration does not end:
    it goes on with [a_2 = NaN], and the loop runs through its 2000
    iterations.  On [nan_then_zero] the value at the NaN estimate is [0.0],
    the [eps_y] test holds, and [secant] returns NaN as the rate. *)
Lemma secant_nan_counterexample :
  (nan_at_left 0 = Return nan /\ is_nan nan = true /\
   nan_at_left 10 = Return 1 /\
   estimate nan_at_left 0 10 = Return nan /\
   nan_at_left nan = Return (-1) /\
   (abs (10 - 0) <? eps_default) = false /\
   (abs (-1) <? eps_default) = false /\
   (nan * -1 <? 0) = false /\
   (1 * -1 <? 0) = true /\
   iteration nan_at_left eps_default eps_default 1 0 10 None
     = Return (Continue nan 10 None) /\
   state_after nan_at_left eps_default eps_default (seq 1 2000) 0 10 None
     = Some (nan, 10, Some nan)) /\
  (nan_then_zero 0 = Return nan /\
   estimate nan_then_zero 0 10 = Return nan /\
   nan_then_zero nan = Return 0 /\
   secant nan_then_zero 0 10 2000 eps_default eps_default
     = Return (Some nan)).
Proof. repeat split; vm_compute; reflexivity. Qed.

(** *** The statements above applied to inputs *)

Lemma secant_no_sign_change_witness :
  secant (fun r => xnpv r [(0%Z, 1); (365%Z, 2)] true true)
    0 10 2000 eps_default eps_default = Return None /\
  xirr inflows tt false = Return None /\
  xirr inflows tt true = Return None /\
  xirr real_inflows tt false = Return None.
Proof.
  split; [|split; [|split]].
  - apply (proj1 secant_no_sign_change_returns_None float float_arith
             _ 0 10 2000%nat _ _ 0x1.8p+1 0x1.2e8ba2e8ba2e9p+0);
      vm_compute; reflexivity.
  - apply (proj1 (proj2 secant_no_sign_change_returns_None) float float_arith
             unit inflows [(0%Z, 1); (365%Z, 2)] tt false
             0x1.8p+1 0x1.2e8ba2e8ba2e9p+0);
      vm_compute; reflexivity.
  - apply (proj1 (proj2 (proj2 secant_no_sign_change_returns_None))
             unit inflows [(0%Z, 1); (365%Z, 2)] tt true
             0x1.8p+1 0x1.2e8ba2e8ba2e9p+0);
      vm_compute; reflexivity.
  - apply (proj2 (proj2 (proj2 secant_no_sign_change_returns_None))
             unit real_inflows [(0%Z, 1%R); (365%Z, 2%R)] tt false
             (1 + 2 / (1 + 0))%R (1 + 2 / (1 + 10))%R).
    + reflexivity.
    + apply ExactFacts.xnpv_year_apart. lra.
    + apply ExactFacts.xnpv_year_apart. lra.
    + unfold same_sign. ExactFacts.real_ops.
      repeat ExactFacts.decide_test. reflexivity.
Defined.

Lemma xirr_silent_witness :
  (xirr huge tt false = Raise ConvergenceFailed /\
   xirr huge tt true = Return None) /\
  xirr doubling tt true = xirr doubling tt false.
Proof.
  split.
  - apply (proj1 (xirr_silent_masks_stall_only huge tt)
             [(0%Z, - 0x1p70); (365%Z, 0x1.8p71)]);
      vm_compute; reflexivity.
  - apply (proj2 (xirr_silent_masks_stall_only doubling tt)).
    vm_compute. discriminate.
Defined.

Lemma secant_inconsistent_signs_witness :
  secant_loop nan_inside eps_default eps_default (seq 1 2000) 0 10 None
    = Return None.
Proof.
  refine (proj2 (proj2 (NaN.secant_inconsistent_signs_returns_None nan_inside
                          eps_default eps_default 1%nat (seq 2 1999) 0 10
                          None None (-1) 1 (-5) nan _ _ _ _ _ _)) _);
    vm_compute; reflexivity.
Defined.

Lemma xnpv_rate_zero_witness :
  xnpv 0 cancelling false true = Return (sum_amounts (sorted cancelling)) /\
  xnpv 0 doubling true true = Return (sum_amounts doubling) /\
  xnpv 0%R tied false false = Return (sum_amounts tied).
Proof.
  split; [|split].
  - apply (proj1 xnpv_rate_zero_is_sum float float_arith cancelling false true).
    + discriminate.
    + apply FloatFacts.float_zero_rate_laws.
  - apply (proj1 (proj2 xnpv_rate_zero_is_sum) doubling true true).
    discriminate.
  - apply (proj2 (proj2 xnpv_rate_zero_is_sum) tied false false); discriminate.
Defined.

Lemma xirr_single_entry_witness :
  (normalized [(735760%Z, -1000)] = Return [(0%Z, -1000)] /\
   (forall rate, xnpv rate [(0%Z, -1000)] true true = Return (-1000)) /\
   xirr [(735760%Z, -1000)] tt false = Return None) /\
  (normalized [(735760%Z, nan)] = Return [(0%Z, nan)] /\
   (forall rate, xnpv rate [(0%Z, nan)] true true = Return nan) /\
   xirr [(735760%Z, nan)] tt false = Return None) /\
  (normalized [(735760%Z, (-1000)%R)] = Return [(0%Z, (-1000)%R)] /\
   (forall rate : R,
       xnpv rate [(0%Z, (-1000)%R)] true true = Return (-1000)%R) /\
   xirr [(735760%Z, (-1000)%R)] tt false = Return None).
Proof.
  split; [|split].
  - pose proof (proj1 xirr_single_entry_returns_None float float_arith unit
                  735760%Z (-1000) tt false
                  (FloatFacts.float_single_entry_laws (-1000) eq_refl))
      as (Hn & Hnpv & Hxirr).
    split; [exact Hn|split; [exact Hnpv|]].
    apply Hxirr. vm_compute. reflexivity.
  - apply (proj1 (proj2 xirr_single_entry_returns_None) unit 735760%Z nan
             tt false).
    vm_compute. reflexivity.
  - apply (proj2 (proj2 xirr_single_entry_returns_None) unit 735760%Z
             (-1000)%R tt false).
    lra.
Defined.

Lemma xirr_permutation_witness :
  xirr (rev doubling) tt false = xirr doubling tt false /\
  xirr (rev tied) tt false = xirr tied tt false.
Proof.
  split.
  - apply (proj1 xirr_permutation float float_arith unit doubling
             (rev doubling) tt false).
    + repeat constructor; cbn; intuition discriminate.
    + apply Permutation_rev.
  - apply (proj2 xirr_permutation unit tied (rev tied) tt false).
    apply Permutation_rev.
Defined.

Lemma xirr_scaling_witness :
  normalized (scale 2%R tied)
    = Return (scale 2%R [(0%Z, 1%R); (0%Z, (-3)%R); (365%Z, 4%R)]) /\
  (forall rate : R,
      xnpv rate (scale 2%R [(0%Z, 1%R); (0%Z, (-3)%R); (365%Z, 4%R)])
        true true =
      scaled 2%R
        (xnpv rate [(0%Z, 1%R); (0%Z, (-3)%R); (365%Z, 4%R)] true true)) /\
  secant (fun r => xnpv r (scale 2%R [(0%Z, 1%R); (0%Z, (-3)%R); (365%Z, 4%R)])
                     true true)
    0%R 10%R 2000 (2 * / 1000000)%R (/ 1000000)%R =
  secant (fun r => xnpv r [(0%Z, 1%R); (0%Z, (-3)%R); (365%Z, 4%R)] true true)
    0%R 10%R 2000 (/ 1000000)%R (/ 1000000)%R.
Proof.
  apply (Scaling.xirr_scaling_with_scaled_tolerance tied
           [(0%Z, 1%R); (0%Z, (-3)%R); (365%Z, 4%R)] 2%R 2000%nat
           (/ 1000000)%R (/ 1000000)%R).
  - lra.
  - reflexivity.
Defined.

(** Two runs of the solver on real numbers. *)
Lemma secant_line :
  secant line 0%R 3%R 1 (/ 2)%R (/ 2)%R = Return (Some (0 - -1)%R).
Proof.
  unfold secant, line. cbn. ExactFacts.decide_test.
  unfold iteration, div. cbn.
  repeat (ExactFacts.decide_test; cbn [bind]).
  replace ((0 - 1) * (3 - 0) / (3 - 1 - (0 - 1)))%R with (-1)%R by field.
  repeat (ExactFacts.decide_test; cbn [bind]).
  reflexivity.
Qed.

Lemma xirr_small_flows : xirr small_flows tt false = Return (Some (0 - -1)%R).
Proof.
  unfold xirr.
  change (normalized small_flows)
    with (Return [(0%Z, (/ 100000000 * -10)%R); (365%Z, (/ 100000000 * 11)%R)]).
  cbn [bind]. unfold solve, secant.
  rewrite !ExactFacts.xnpv_year_apart by (cbn; lra).
  cbn [bind]. ExactFacts.real_ops. ExactFacts.decide_test.
  change (seq 1 2000) with (1%nat :: seq 2 1999). cbn [secant_loop].
  unfold iteration.
  rewrite !ExactFacts.xnpv_year_apart by (cbn; lra).
  cbn [bind]. unfold div. ExactFacts.real_ops.
  repeat (ExactFacts.decide_test; cbn [bind]).
  match goal with
  | |- context [xnpv (0 - ?q)%R] => replace q with (-1)%R by (field; lra)
  end.
  rewrite ExactFacts.xnpv_year_apart by lra. cbn [bind].
  change (checkpoint 1 None (0 - -1)%R) with (@Return (option R) None).
  cbn [bind].
  replace (/ 100000000 * -10 + / 100000000 * 11 / (1 + (0 - -1)))%R
    with (- (45 / 1000000000))%R by (field; lra).
  repeat (ExactFacts.decide_test; cbn [bind]).
  reflexivity.
Qed.

(** On the series itself the first estimate is not accepted, and what
    the solver returns later lies strictly below it. *)
Lemma xirr_round_flows : xirr round_flows tt false <> Return (Some (0 - -1)%R).
Proof.
  unfold xirr.
  change (normalized round_flows)
    with (Return [(0%Z, (-10)%R); (365%Z, 11%R)]).
  cbn [bind]. unfold solve, secant.
  rewrite !ExactFacts.xnpv_year_apart by (cbn; lra).
  cbn [bind]. ExactFacts.real_ops. ExactFacts.decide_test.
  change (seq 1 2000) with (1%nat :: seq 2 1999). cbn [secant_loop].
  unfold iteration.
  rewrite !ExactFacts.xnpv_year_apart by (cbn; lra).
  cbn [bind]. unfold div. ExactFacts.real_ops.
  repeat (ExactFacts.decide_test; cbn [bind]).
  match goal with
  | |- context [xnpv (0 - ?q)%R] => replace q with (-1)%R by (field; lra)
  end.
  rewrite ExactFacts.xnpv_year_apart by lra. cbn [bind].
  change (checkpoint 1 None (0 - -1)%R) with (@Return (option R) None).
  cbn [bind].
  replace (-10 + 11 / (1 + (0 - -1)))%R with (- (9 / 2))%R by (field; lra).
  repeat (ExactFacts.decide_test; cbn [bind]).
  destruct (secant_loop _ _ _ _ _ _ _) as [[r|]|e] eqn:Hloop;
    try discriminate; [|destruct e; discriminate].
  apply Bracket.secant_loop_inside in Hloop.
  - intros [= ->]. lra.
  - split; [lra|]. exists (-10 + 11 / (1 + 0))%R, (-10 + 11 / (1 + (0 - -1)))%R.
    repeat split; try (apply ExactFacts.xnpv_year_apart; lra). lra.
Qed.

(** The rounding of floats is not what makes C2 fail: in exact arithmetic
    too the scaled series has the first estimate for its rate and the
    series itself has not. *)
Lemma xirr_scaling_exact_counterexample :
  (0 < / 100000000)%R /\
  xirr (scale (/ 100000000)%R round_flows) tt false
    = Return (Some (0 - -1)%R) /\
  xirr round_flows tt false <> Return (Some (0 - -1)%R).
Proof.
  split; [lra|]. split; [exact xirr_small_flows|exact xirr_round_flows].
Qed.

Lemma bracketing_line : bracketing line 0%R 3%R.
Proof.
  split; [lra|]. exists (0 - 1)%R, (3 - 1)%R. repeat split. lra.
Qed.

Lemma secant_keeps_its_bracket_witness :
  (exists f_a_n f_b_n m_n : R,
      line 0%R = Return f_a_n /\ line 3%R = Return f_b_n /\
      (f_b_n - f_a_n)%R <> 0%R /\
      m_n = (0 - f_a_n * (3 - 0) / (f_b_n - f_a_n))%R /\
      estimate line 0%R 3%R = Return m_n /\
      (0 < m_n < 3)%R /\
      forall (eps_y eps_x : R) (n : nat) (prev prev' : option R) (a' b' : R),
        iteration line eps_y eps_x n 0%R 3%R prev
          = Return (Continue a' b' prev') ->
        (0 <= a')%R /\ (b' <= 3)%R /\ bracketing line a' b') /\
  (0 < 0 - -1 < 3)%R /\
  (0 < 0 - -1 < 10)%R.
Proof.
  split; [|split].
  - apply (proj1 Bracket.secant_keeps_its_bracket line 0%R 3%R).
    exact bracketing_line.
  - apply (proj1 (proj2 Bracket.secant_keeps_its_bracket)
             line 0%R 3%R 1%nat (/ 2)%R (/ 2)%R (0 - -1)%R).
    + lra.
    + exact secant_line.
  - apply (proj2 (proj2 Bracket.secant_keeps_its_bracket)
             unit small_flows tt false (0 - -1)%R).
    exact xirr_small_flows.
Defined.

End Examples.

(** * Further properties *)

(** ** The runs of the solver *)

Section SolverRuns.

Context {F : Type} {AF : Arith F}.
Variables (f : F -> outcome F) (eps_y eps_x : F).

Local Open Scope py_scope.
Local Open Scope arith_scope.

(** A loop that returned a rate or raised does the same on a longer
    list of iterations. *)
Lemma secant_loop_longer (ns ns' : list nat) (a_n b_n : F) (prev : option F)
    (r : outcome (option F)) :
  secant_loop f eps_y eps_x ns a_n b_n prev = r -> r <> Return None ->
  secant_loop f eps_y eps_x (ns ++ ns') a_n b_n prev = r.
Proof.
  revert a_n b_n prev.
  induction ns as [|n ns IH]; intros a_n b_n prev; cbn.
  - intros <- H. now contradiction H.
  - destruct (iteration f eps_y eps_x n a_n b_n prev) as [[r'|a' b' prev']|];
      cbn [bind]; auto.
Qed.

Lemma secant_longer (a b : F) (N N' : nat) (r : outcome (option F)) :
  (N <= N')%nat ->
  secant f a b N eps_y eps_x = r -> r <> Return None ->
  secant f a b N' eps_y eps_x = r.
Proof.
  intros HN. unfold secant.
  destruct (f a) as [f_a|]; cbn [bind]; [|now intros].
  destruct (f b) as [f_b|]; cbn [bind]; [|now intros].
  destruct (f_a * f_b >=? zero); [now intros|].
  replace N' with (N + (N' - N))%nat by lia. rewrite seq_app.
  apply secant_loop_longer.
Qed.

(** The iteration that returns a rate: the rate is its estimate, and one
    of the two tolerances is met. *)
Lemma iteration_Stop_Some (n : nat) (a_n b_n : F) (prev : option F) (m : F) :
  iteration f eps_y eps_x n a_n b_n prev = Return (Stop (Some m)) ->
  exists f_m,
    estimate f a_n b_n = Return m /\ f m = Return f_m /\
    ((absv (b_n - a_n) <? eps_x) = true \/ (absv f_m <? eps_y) = true).
Proof.
  unfold iteration, estimate.
  destruct (f a_n) as [f_a_n|]; cbn [bind]; [|discriminate].
  destruct (f b_n) as [f_b_n|]; cbn [bind]; [|discriminate].
  destruct (div _ _) as [q|]; cbn [bind]; [|discriminate].
  destruct (f (a_n - q)) as [f_m_n|] eqn:Hfm; cbn [bind]; [|discriminate].
  destruct (checkpoint n prev (a_n - q)) as [p|]; cbn [bind]; [|discriminate].
  destruct (absv (b_n - a_n) <? eps_x) eqn:Hx.
  { intros [= <-]. exists f_m_n. auto. }
  destruct (absv f_m_n <? eps_y) eqn:Hy.
  { intros [= <-]. exists f_m_n. auto. }
  destruct (f_a_n * f_m_n <? zero); [discriminate|].
  destruct (f_b_n * f_m_n <? zero); discriminate.
Qed.

Lemma secant_loop_Some (len s : nat) (a_n b_n : F) (prev : option F) (m : F) :
  secant_loop f eps_y eps_x (seq s len) a_n b_n prev = Return (Some m) ->
  exists k a_k b_k prev_k f_m,
    (k < len)%nat /\
    state_after f eps_y eps_x (seq s k) a_n b_n prev
      = Some (a_k, b_k, prev_k) /\
    estimate f a_k b_k = Return m /\ f m = Return f_m /\
    ((absv (b_k - a_k) <? eps_x) = true \/ (absv f_m <? eps_y) = true).
Proof.
  revert s a_n b_n prev.
  induction len as [|len IH]; intros s a_n b_n prev; cbn; [discriminate|].
  destruct (iteration f eps_y eps_x s a_n b_n prev) as [[r|a' b' prev']|]
    eqn:Hit; cbn [bind]; try discriminate.
  - intros [= ->]. apply iteration_Stop_Some in Hit as (f_m & He & Hf & Ht).
    exists 0%nat, a_n, b_n, prev, f_m. repeat split; try assumption. lia.
  - intros H. apply IH in H as (k & a_k & b_k & prev_k & f_m & Hk & Hst & H).
    exists (S k), a_k, b_k, prev_k, f_m. split; [lia|]. split; [|exact H].
    cbn. now rewrite Hit.
Qed.

Lemma secant_Some (a b : F) (N : nat) (m : F) :
  secant f a b N eps_y eps_x = Return (Some m) ->
  exists n a_n b_n prev f_m,
    (1 <= n <= N)%nat /\
    state_after f eps_y eps_x (seq 1 (n - 1)) a b None
      = Some (a_n, b_n, prev) /\
    estimate f a_n b_n = Return m /\ f m = Return f_m /\
    ((absv (b_n - a_n) <? eps_x) = true \/ (absv f_m <? eps_y) = true).
Proof.
  unfold secant.
  destruct (f a) as [f_a|]; cbn [bind]; [|discriminate].
  destruct (f b) as [f_b|]; cbn [bind]; [|discriminate].
  destruct (f_a * f_b >=? zero); [discriminate|].
  intros H. apply secant_loop_Some in H
    as (k & a_k & b_k & prev_k & f_m & Hk & Hst & H).
  exists (S k), a_k, b_k, prev_k, f_m. split; [lia|].
  replace (S k - 1)%nat with k by lia. now split.
Qed.

(** When every iteration goes on, the loop ends with [None]. *)
Lemma secant_loop_exhausted (ns : list nat) (a_n b_n : F) (prev : option F)
    (st : F * F * option F) :
  state_after f eps_y eps_x ns a_n b_n prev = Some st ->
  secant_loop f eps_y eps_x ns a_n b_n prev = Return None.
Proof.
  destruct st as [[a' b'] prev']. intros H.
  rewrite <- (app_nil_r ns).
  now rewrite (secant_loop_app _ _ _ _ _ _ _ _ _ _ _ H).
Qed.

End SolverRuns.

(** ** The stall report *)

Section StallReport.

Context {F : Type} {AF : Arith F}.
Variables (f : F -> outcome F) (eps_y eps_x : F).
Hypothesis f_never_stalls : forall x, f x <> Raise ConvergenceFailed.

Local Open Scope py_scope.
Local Open Scope arith_scope.

Lemma div_raises (x y : F) (e : exn) :
  div x y = Raise e -> e = ZeroDivisionError.
Proof. unfold div. destruct (y ==? zero); congruence. Qed.

(** An iteration raises [ConvergenceFailed] at its stall check only. *)
Lemma iteration_stalls (n : nat) (a_n b_n : F) (prev : option F) :
  iteration f eps_y eps_x n a_n b_n prev = Raise ConvergenceFailed ->
  exists p m_n f_m_n,
    prev = Some p /\ (n mod 100 =? 0)%nat = true /\
    estimate f a_n b_n = Return m_n /\ f m_n = Return f_m_n /\
    (p ==? m_n) = true.
Proof.
  unfold iteration, estimate.
  destruct (f a_n) as [f_a_n|e] eqn:Ha; cbn [bind];
    [|intros [= ->]; now apply f_never_stalls in Ha].
  destruct (f b_n) as [f_b_n|e] eqn:Hb; cbn [bind];
    [|intros [= ->]; now apply f_never_stalls in Hb].
  destruct (div _ _) as [q|e] eqn:Hq; cbn [bind];
    [|intros [= ->]; apply div_raises in Hq; discriminate].
  destruct (f (a_n - q)) as [f_m_n|e] eqn:Hm; cbn [bind];
    [|intros [= ->]; now apply f_never_stalls in Hm].
  unfold checkpoint.
  destruct (n mod 100 =? 0)%nat; cbn [bind].
  - destruct prev as [p|]; cbn [bind].
    + destruct (p ==? (a_n - q)) eqn:Heq; cbn [bind].
      * intros _. now exists p, (a_n - q), f_m_n.
      * intros H. exfalso.
        repeat match type of H with
               | (if ?c then _ else _) = _ => destruct c
               end; discriminate.
    + intros H. exfalso.
      repeat match type of H with
             | (if ?c then _ else _) = _ => destruct c
             end; discriminate.
  - intros H. exfalso.
    repeat match type of H with
           | (if ?c then _ else _) = _ => destruct c
           end; discriminate.
Qed.

(** The iteration at which a loop raises. *)
Lemma secant_loop_raises (len s : nat) (a_n b_n : F) (prev : option F)
    (e : exn) :
  secant_loop f eps_y eps_x (seq s len) a_n b_n prev = Raise e ->
  exists k a_k b_k prev_k,
    (k < len)%nat /\
    state_after f eps_y eps_x (seq s k) a_n b_n prev
      = Some (a_k, b_k, prev_k) /\
    iteration f eps_y eps_x (s + k) a_k b_k prev_k = Raise e.
Proof.
  revert s a_n b_n prev.
  induction len as [|len IH]; intros s a_n b_n prev; cbn; [discriminate|].
  destruct (iteration f eps_y eps_x s a_n b_n prev) as [[r|a' b' prev']|e']
    eqn:Hit; cbn [bind]; try discriminate.
  - intros H. apply IH in H as (k & a_k & b_k & prev_k & Hk & Hst & H).
    exists (S k), a_k, b_k, prev_k. split; [lia|]. split.
    + cbn. now rewrite Hit.
    + now replace (s + S k)%nat with (S s + k)%nat by lia.
  - intros [= ->]. exists 0%nat, a_n, b_n, prev.
    rewrite Nat.add_0_r. repeat split; [lia|exact Hit].
Qed.

Lemma no_checkpoint_below_100 (k : nat) :
  (k < 100)%nat ->
  forallb (fun n => negb (n mod 100 =? 0)%nat) (seq 1 k) = true.
Proof.
  intros Hk. apply forallb_forall. intros n [Hn1 Hn2]%in_seq.
  apply negb_true_iff, Nat.eqb_neq. rewrite Nat.mod_small; lia.
Qed.

(** A run that got past iteration 100 has an estimate at iteration
    100. *)
Lemma estimate_at_100 (a b : F) (k : nat) (st : F * F * option F) :
  (100 <= k)%nat ->
  state_after f eps_y eps_x (seq 1 k) a b None = Some st ->
  exists m_100, estimate_at f a b eps_y eps_x 100 = Some m_100.
Proof.
  intros Hk Hst.
  replace k with (99 + (1 + (k - 100)))%nat in Hst by lia.
  rewrite !seq_app, !state_after_app in Hst.
  unfold estimate_at. change (100 - 1)%nat with 99%nat.
  destruct (state_after f eps_y eps_x (seq 1 99) a b None)
    as [[[a1 b1] prev1]|]; [|discriminate].
  cbn [seq app state_after Nat.add] in Hst.
  destruct (iteration f eps_y eps_x 100 a1 b1 prev1)
    as [[r|a2 b2 prev2]|] eqn:Hit; try discriminate.
  apply iteration_Continue_inv in Hit as (m & -> & _). now exists m.
Qed.

Lemma secant_stalls_inv (a b : F) (N : nat) :
  secant f a b N eps_y eps_x = Raise ConvergenceFailed ->
  exists j f_a f_b m_100 m_n f_m_n,
    (2 <= j)%nat /\ (100 * j <= N)%nat /\
    f a = Return f_a /\ f b = Return f_b /\ (f_a * f_b >=? zero) = false /\
    estimate_at f a b eps_y eps_x 100 = Some m_100 /\
    estimate_at f a b eps_y eps_x (100 * j) = Some m_n /\
    f m_n = Return f_m_n /\ (m_100 ==? m_n) = true.
Proof.
  unfold secant.
  destruct (f a) as [f_a|e] eqn:Ha; cbn [bind];
    [|intros [= ->]; now apply f_never_stalls in Ha].
  destruct (f b) as [f_b|e] eqn:Hb; cbn [bind];
    [|intros [= ->]; now apply f_never_stalls in Hb].
  destruct (f_a * f_b >=? zero) eqn:Hsign; [discriminate|].
  intros H. apply secant_loop_raises in H
    as (k & a_k & b_k & prev_k & Hk & Hst & Hit).
  apply iteration_stalls in Hit
    as (p & m_n & f_m_n & -> & Hmod & He & Hf & Heq).
  apply Nat.eqb_eq in Hmod.
  assert (100 <= k)%nat as Hk100.
  { destruct (Nat.lt_ge_cases k 100) as [Hlt|Hge]; [|exact Hge].
    pose proof (state_after_unrecorded f eps_y eps_x _ _ _ _ _ _
                  (no_checkpoint_below_100 k Hlt) Hst). discriminate. }
  destruct (estimate_at_100 a b k _ Hk100 Hst) as [m_100 H100].
  pose proof (prev_m_n_is_first_checkpoint f eps_y eps_x a b k m_100
                a_k b_k (Some p) Hk100 H100 Hst) as [= ->].
  assert (1 + k = 100 * ((1 + k) / 100))%nat as Hj
      by (rewrite (Nat.div_mod_eq (1 + k) 100) at 1; lia).
  exists ((1 + k) / 100)%nat, f_a, f_b, m_100, m_n, f_m_n.
  assert (2 <= (1 + k) / 100)%nat by lia.
  repeat split; try assumption; try lia.
  unfold estimate_at. rewrite <- Hj.
  replace (1 + k - 1)%nat with k by lia. now rewrite Hst, He.
Qed.

End StallReport.

(** ** The division of the solver *)

Section SafeDivision.

Context {F : Type} {AF : Arith F}.
Variables (f : F -> outcome F) (eps_y eps_x : F).

Local Open Scope py_scope.
Local Open Scope arith_scope.

Hypothesis below_zero : forall z, (z <? zero) = true -> (z >=? zero) = false.
Hypothesis apart : forall x y,
  (x * y >=? zero) = false ->
  (y - x ==? zero) = false /\ (x - y ==? zero) = false.

Lemma iteration_keeps_ends_apart (n : nat) (a_n b_n : F) (prev : option F)
    (a' b' : F) (prev' : option F) :
  iteration f eps_y eps_x n a_n b_n prev = Return (Continue a' b' prev') ->
  ends_apart f a' b'.
Proof.
  unfold iteration.
  destruct (f a_n) as [f_a_n|] eqn:Ha; cbn [bind]; [|discriminate].
  destruct (f b_n) as [f_b_n|] eqn:Hb; cbn [bind]; [|discriminate].
  destruct (div _ _) as [q|]; cbn [bind]; [|discriminate].
  destruct (f (a_n - q)) as [f_m_n|] eqn:Hm; cbn [bind]; [|discriminate].
  destruct (checkpoint n prev (a_n - q)) as [p|]; cbn [bind]; [|discriminate].
  destruct (absv (b_n - a_n) <? eps_x); [discriminate|].
  destruct (absv f_m_n <? eps_y); [discriminate|].
  destruct (f_a_n * f_m_n <? zero) eqn:Hsa.
  { intros [= <- <- _]. exists f_a_n, f_m_n. repeat split; try assumption.
    exact (proj1 (apart _ _ (below_zero _ Hsa))). }
  destruct (f_b_n * f_m_n <? zero) eqn:Hsb; [|discriminate].
  intros [= <- <- _]. exists f_m_n, f_b_n. repeat split; try assumption.
  exact (proj2 (apart _ _ (below_zero _ Hsb))).
Qed.

Lemma state_after_ends_apart (ns : list nat) (a_n b_n : F) (prev : option F)
    (a' b' : F) (prev' : option F) :
  ends_apart f a_n b_n ->
  state_after f eps_y eps_x ns a_n b_n prev = Some (a', b', prev') ->
  ends_apart f a' b'.
Proof.
  revert a_n b_n prev.
  induction ns as [|n ns IH]; intros a_n b_n prev Hends; cbn.
  - now intros [= <- <- _].
  - destruct (iteration f eps_y eps_x n a_n b_n prev) as [[r|a1 b1 prev1]|]
      eqn:Hit; try discriminate.
    apply IH. eapply iteration_keeps_ends_apart; exact Hit.
Qed.

Lemma reached_ends_apart (a b : F) (k : nat) (a_k b_k : F) :
  reached f eps_y eps_x a b k a_k b_k -> ends_apart f a_k b_k.
Proof.
  intros (f_a & f_b & prev & Ha & Hb & Hsign & Hst).
  apply (state_after_ends_apart _ _ _ _ _ _ _ (ex_intro _ f_a (ex_intro _ f_b
           (conj Ha (conj Hb (proj1 (apart _ _ Hsign)))))) Hst).
Qed.

(** With ends apart, an iteration raises at its stall check or at the
    evaluation of [f] at its estimate. *)
Lemma iteration_raises_at_estimate (n : nat) (a_n b_n : F) (prev : option F)
    (e : exn) :
  ends_apart f a_n b_n ->
  iteration f eps_y eps_x n a_n b_n prev = Raise e ->
  e = ConvergenceFailed \/
  exists m_n, estimate f a_n b_n = Return m_n /\ f m_n = Raise e.
Proof.
  intros (f_a_n & f_b_n & Ha & Hb & Hd). unfold iteration, estimate.
  rewrite Ha, Hb. cbn [bind]. unfold div. rewrite Hd. cbn [bind].
  set (m_n := a_n - quot (f_a_n * (b_n - a_n)) (f_b_n - f_a_n)).
  destruct (f m_n) as [f_m_n|e'] eqn:Hm; cbn [bind];
    [|intros [= ->]; right; now exists m_n].
  unfold checkpoint.
  destruct (n mod 100 =? 0)%nat; [destruct prev as [p|]|]; cbn [bind];
    try destruct (p ==? _); cbn [bind];
    try (intros [= <-]; now left);
    intros H; exfalso;
    repeat match type of H with
           | (if ?c then _ else _) = _ => destruct c
           end; discriminate.
Qed.

Lemma estimate_of_ends_apart (a_n b_n : F) :
  ends_apart f a_n b_n ->
  exists f_a_n f_b_n,
    f a_n = Return f_a_n /\ f b_n = Return f_b_n /\
    div (f_a_n * (b_n - a_n)) (f_b_n - f_a_n) =
      Return (quot (f_a_n * (b_n - a_n)) (f_b_n - f_a_n)).
Proof.
  intros (f_a_n & f_b_n & Ha & Hb & Hd). exists f_a_n, f_b_n.
  repeat split; try assumption. unfold div. now rewrite Hd.
Qed.

Lemma secant_raises_at (a b : F) (N : nat) (e : exn) :
  secant f a b N eps_y eps_x = Raise e ->
  e = ConvergenceFailed \/ f a = Raise e \/ f b = Raise e \/
  exists k a_k b_k m_k,
    (k < N)%nat /\ reached f eps_y eps_x a b k a_k b_k /\
    estimate f a_k b_k = Return m_k /\ f m_k = Raise e.
Proof.
  unfold secant.
  destruct (f a) as [f_a|e'] eqn:Ha; cbn [bind];
    [|intros [= ->]; right; now left].
  destruct (f b) as [f_b|e'] eqn:Hb; cbn [bind];
    [|intros [= ->]; right; right; now left].
  destruct (f_a * f_b >=? zero) eqn:Hsign; [discriminate|].
  intros H. apply secant_loop_raises in H
    as (k & a_k & b_k & prev_k & Hk & Hst & Hit).
  assert (reached f eps_y eps_x a b k a_k b_k) as Hr
      by (now exists f_a, f_b, prev_k).
  pose proof (reached_ends_apart _ _ _ _ _ Hr) as Hends.
  apply (iteration_raises_at_estimate _ _ _ _ _ Hends)
    in Hit as [->|(m_k & He & Hm)]; [now left|].
  right. right. right. now exists k, a_k, b_k, m_k.
Qed.

End SafeDivision.

Module ExactSafe.
Import ExactFacts.
Local Open Scope R_scope.

Lemma real_below_zero (z : R) : real_ltb z 0 = true -> real_geb z 0 = false.
Proof. intros H%ltb_true. apply geb_false. lra. Qed.

Lemma real_apart (x y : R) :
  real_geb (x * y) 0 = false ->
  real_eqb (y - x) 0 = false /\ real_eqb (x - y) 0 = false.
Proof. intros H%geb_false. split; apply eqb_false; nra. Qed.

End ExactSafe.

Module FloatSafe.
Import FloatFacts.
Local Open Scope Z_scope.

Lemma pow2_digits (p : positive) : 2 ^ (Zpos (digits2_pos p) - 1) <= Zpos p.
Proof.
  induction p as [p IH|p IH|]; cbn [digits2_pos].
  - rewrite Pos2Z.inj_succ.
    replace (Z.succ (Zpos (digits2_pos p)) - 1)
      with (Z.succ (Zpos (digits2_pos p) - 1)) by lia.
    rewrite Z.pow_succ_r by lia. lia.
  - rewrite Pos2Z.inj_succ.
    replace (Z.succ (Zpos (digits2_pos p)) - 1)
      with (Z.succ (Zpos (digits2_pos p) - 1)) by lia.
    rewrite Z.pow_succ_r by lia. lia.
  - cbn. lia.
Qed.

Lemma shr_1_keeps (k : Z) (mrs : shr_record) :
  0 <= k -> 2 ^ (k + 1) <= shr_m mrs -> 2 ^ k <= shr_m (shr_1 mrs).
Proof.
  intros Hk. rewrite Z.pow_add_r, Z.pow_1_r by lia.
  assert (0 < 2 ^ k) by (apply Z.pow_pos_nonneg; lia).
  destruct mrs as [m r s]. destruct m as [|[p|p|]|p]; cbn; lia.
Qed.

Lemma iter_shr_1_keeps (p : positive) (k : Z) (mrs : shr_record) :
  0 <= k -> 2 ^ (k + Zpos p) <= shr_m mrs ->
  2 ^ k <= shr_m (SpecFloat.iter_pos shr_1 p mrs).
Proof.
  revert k mrs. induction p as [p IH|p IH|]; intros k mrs Hk H; cbn.
  - apply IH; [exact Hk|]. apply IH; [lia|]. apply shr_1_keeps; [lia|].
    replace (k + Zpos p + Zpos p + 1) with (k + Zpos p~1) by lia. exact H.
  - apply IH; [exact Hk|]. apply IH; [lia|].
    replace (k + Zpos p + Zpos p) with (k + Zpos p~0) by lia. exact H.
  - now apply shr_1_keeps.
Qed.

Lemma shr_record_of_loc_m (m : Z) (l : location) :
  shr_m (shr_record_of_loc m l) = m.
Proof. now destruct l as [|[]]. Qed.

(** Above the least exponent a shift to the format leaves a mantissa
    that is not zero. *)
Lemma shr_fexp_pos (m e : Z) (l : location) :
  0 < m -> SpecFloat.emin prec emax <= e ->
  0 < shr_m (fst (shr_fexp prec emax m e l)) /\
  SpecFloat.emin prec emax <= snd (shr_fexp prec emax m e l).
Proof.
  intros Hm He. unfold shr_fexp, shr, fexp.
  destruct m as [|p|p]; try lia. cbn [Zdigits2].
  pose proof (pow2_digits p) as Hd.
  destruct (Z.max (Zpos (digits2_pos p) + e - prec)
                  (SpecFloat.emin prec emax) - e)
    as [|n|n] eqn:Hn; cbn [fst snd]; rewrite ?shr_record_of_loc_m;
    try (split; lia).
  split; [|lia].
  assert (2 ^ 0 <= shr_m (SpecFloat.iter_pos shr_1 n
                            (shr_record_of_loc (Zpos p) l))) as H;
    [|cbn in H; lia].
  apply iter_shr_1_keeps; [lia|]. rewrite shr_record_of_loc_m.
  eapply Z.le_trans; [|exact Hd].
  apply Z.pow_le_mono_r; [lia|]. unfold prec in *. lia.
Qed.


Lemma round_nearest_even_ge (m : Z) (l : location) :
  m <= round_nearest_even m l.
Proof. destruct l as [|[]]; cbn; try destruct (Z.even m); lia. Qed.

Lemma binary_round_aux_not_zero (sx : bool) (m e : Z) (l : location) :
  0 < m -> SpecFloat.emin prec emax <= e ->
  not_zero (binary_round_aux prec emax sx m e l).
Proof.
  intros Hm He. unfold binary_round_aux.
  destruct (shr_fexp_pos m e l Hm He) as [H1 H1e].
  destruct (shr_fexp prec emax m e l) as [mrs' e']. cbn [fst snd] in H1, H1e.
  pose proof (round_nearest_even_ge (shr_m mrs') (loc_of_shr_record mrs'))
    as Hr.
  destruct (shr_fexp_pos
              (round_nearest_even (shr_m mrs') (loc_of_shr_record mrs'))
              e' loc_Exact ltac:(lia) H1e) as [H2 _].
  destruct (shr_fexp prec emax _ e' loc_Exact) as [mrs'' e''].
  cbn [fst] in H2.
  destruct (shr_m mrs'') as [|p|p]; try lia.
  now destruct (e'' <=? emax - prec).
Qed.

Lemma binary_round_not_zero (sx : bool) (m : positive) (e : Z) :
  SpecFloat.emin prec emax <= e -> not_zero (binary_round prec emax sx m e).
Proof.
  intros He. unfold binary_round, shl_align.
  destruct (fexp prec emax (Zpos (digits2_pos m) + e) - e) as [|d|d] eqn:Hd;
    apply binary_round_aux_not_zero; try lia.
  unfold fexp in *. lia.
Qed.

Lemma binary_normalize_not_zero (m e : Z) (szero : bool) :
  m <> 0 -> SpecFloat.emin prec emax <= e ->
  not_zero (binary_normalize prec emax m e szero).
Proof.
  intros Hm He. destruct m as [|p|p]; [lia| |];
    now apply binary_round_not_zero.
Qed.

Lemma valid_emin (s : bool) (m : positive) (e : Z) :
  valid_binary (S754_finite s m e) = true -> SpecFloat.emin prec emax <= e.
Proof.
  unfold valid_binary, bounded, canonical_mantissa.
  intros [H _]%andb_prop. apply Z.eqb_eq in H.
  unfold fexp in H. lia.
Qed.

Lemma not_zero_eqb (s : spec_float) :
  not_zero s -> SFeqb s (S754_zero false) = false.
Proof. destruct s as [sx|[]| |[] m e]; cbn; easy. Qed.

Lemma nonneg_not_below (s : spec_float) :
  SFleb (S754_zero false) s = true -> SFltb s (S754_zero false) = false.
Proof. destruct s as [sx|[]| |[] m e]; cbn; easy. Qed.

(** Two floats whose product is not [>= 0] have a difference that is
    not a zero. *)
Lemma SF_apart (x y : spec_float) :
  valid_binary x = true -> valid_binary y = true ->
  SFleb (S754_zero false) (SF64mul x y) = false ->
  not_zero (SF64sub y x).
Proof.
  intros Hx Hy.
  destruct x as [sx|sx| |sx mx ex], y as [sy|sy| |sy my ey];
    try (destruct sx, sy; cbn; easy); try (destruct sx; cbn; easy);
    try (destruct sy; cbn; easy); try (cbn; easy).
  unfold SF64mul, SFmul, SF64sub, SFsub.
  apply valid_emin in Hx, Hy.
  destruct sx, sy; cbn [xorb cond_Zopp].
  - rewrite binary_round_aux_nonneg by lia. discriminate.
  - intros _. apply binary_normalize_not_zero; lia.
  - intros _. apply binary_normalize_not_zero; lia.
  - rewrite binary_round_aux_nonneg by lia. discriminate.
Qed.

Lemma SF64mul_comm_sign (x y : spec_float) :
  SFleb (S754_zero false) (SF64mul x y) =
  SFleb (S754_zero false) (SF64mul y x).
Proof.
  destruct x as [sx|sx| |sx mx ex], y as [sy|sy| |sy my ey];
    try (destruct sx, sy; reflexivity); try reflexivity.
  unfold SF64mul, SFmul.
  now rewrite xorb_comm, Pos.mul_comm, Z.add_comm.
Qed.

Lemma float_apart (x y : float) :
  (0 <=? x * y)%float = false ->
  (y - x =? 0)%float = false /\ (x - y =? 0)%float = false.
Proof.
  rewrite FloatAxioms.leb_spec, !FloatAxioms.eqb_spec, FloatAxioms.mul_spec,
    !FloatAxioms.sub_spec.
  change (Prim2SF 0) with (S754_zero false).
  intros H. split; apply not_zero_eqb, SF_apart;
    try apply Prim2SF_valid; try exact H.
  now rewrite SF64mul_comm_sign.
Qed.

Lemma float_below_zero (z : float) :
  (z <? 0)%float = true -> (0 <=? z)%float = false.
Proof.
  rewrite FloatAxioms.ltb_spec, FloatAxioms.leb_spec.
  change (Prim2SF 0) with (S754_zero false).
  destruct (Prim2SF z) as [sx|[]| |[] m e]; cbn; easy.
Qed.

End FloatSafe.

(** ** Dates *)


Section DateFacts.

Context {F : Type} {AF : Arith F}.

Local Open Scope py_scope.
Local Open Scope arith_scope.

Lemma insert_by_key_shift (k : Z) (x : entry F) (l : list (entry F)) :
  insert_by_key ((fst x + k)%Z, snd x) (shift k l) =
    shift k (insert_by_key x l).
Proof.
  unfold shift. induction l as [|y l IH]; [reflexivity|].
  cbn [map insert_by_key fst].
  replace (fst x + k <=? fst y + k)%Z with (fst x <=? fst y)%Z
    by (destruct (Z.leb_spec (fst x) (fst y)),
                 (Z.leb_spec (fst x + k) (fst y + k)); lia).
  destruct (fst x <=? fst y)%Z; [reflexivity|].
  cbn [map]. f_equal. exact IH.
Qed.

Lemma sorted_shift (k : Z) (l : list (entry F)) :
  sorted (shift k l) = shift k (sorted l).
Proof.
  induction l as [|x l IH]; [reflexivity|].
  change (sorted (shift k (x :: l)))
    with (insert_by_key ((fst x + k)%Z, snd x) (sorted (shift k l))).
  rewrite IH. apply insert_by_key_shift.
Qed.

Lemma xnpv_loop_shift (k : Z) (rate_plus_1 : F) (t0 : Z)
    (already_day_diffs : bool) (items : list (entry F))
    (last_power last_raised x : F) :
  xnpv_loop rate_plus_1 (t0 + k) already_day_diffs (shift k items)
    last_power last_raised x =
  xnpv_loop rate_plus_1 t0 already_day_diffs items last_power last_raised x.
Proof.
  revert last_power last_raised x.
  induction items as [|[d a] rest IH]; intros; [reflexivity|].
  cbn [shift map xnpv_loop fst snd]. unfold days.
  replace (d + k - (t0 + k))%Z with (d - t0)%Z by lia.
  destruct (if already_day_diffs then _ else _) as [new_power|];
    cbn [bind]; [|reflexivity].
  destruct (power rate_plus_1 (new_power - last_power)) as [raised|];
    cbn [bind]; [|reflexivity].
  destruct (div a (raised * last_raised)) as [term|]; cbn [bind];
    [|reflexivity].
  apply IH.
Qed.

Lemma xnpv_shift (k : Z) (rate : F) (cash_flow : list (entry F))
    (sorted_ already_day_diffs : bool) :
  xnpv rate (shift k cash_flow) sorted_ already_day_diffs =
    xnpv rate cash_flow sorted_ already_day_diffs.
Proof.
  unfold xnpv.
  replace (if sorted_ then shift k cash_flow else sorted (shift k cash_flow))
    with (shift k (if sorted_ then cash_flow else sorted cash_flow))
    by (destruct sorted_; [reflexivity|now rewrite sorted_shift]).
  destruct (if sorted_ then cash_flow else sorted cash_flow)
    as [|[t0 a] rest]; [reflexivity|].
  change (shift k ((t0, a) :: rest)) with (((t0 + k)%Z, a) :: shift k rest).
  cbn iota beta.
  change (((t0 + k)%Z, a) :: shift k rest) with (shift k ((t0, a) :: rest)).
  apply xnpv_loop_shift.
Qed.

Lemma normalized_shift (k : Z) (s : list (entry F)) :
  normalized (shift k s) = normalized s.
Proof.
  unfold normalized. rewrite !map_to_float, sorted_shift.
  destruct (sorted s) as [|[t0 a] rest]; [reflexivity|].
  cbn [shift map fst snd]. f_equal. unfold days. f_equal.
  - f_equal. lia.
  - rewrite map_map. apply map_ext. intros [d b]. cbn. f_equal. lia.
Qed.

Lemma xirr_shift {G : Type} (k : Z) (s : list (entry F)) (g : G)
    (silent : bool) :
  xirr (shift k s) g silent = xirr s g silent.
Proof. unfold xirr. now rewrite normalized_shift. Qed.

(** A list in the order of its dates is left as it is. *)
Lemma sorted_id (l : list (entry F)) :
  StronglySorted key_le l -> sorted l = l.
Proof.
  induction 1 as [|x l Hl IH Hx]; [reflexivity|].
  change (sorted (x :: l)) with (insert_by_key x (sorted l)). rewrite IH.
  destruct l as [|y l']; [reflexivity|]. cbn.
  apply Forall_inv in Hx. unfold key_le in Hx.
  now apply Z.leb_le in Hx as ->.
Qed.

Lemma xnpv_sorted_flag (rate : F) (cash_flow : list (entry F))
    (already_day_diffs : bool) :
  StronglySorted key_le cash_flow ->
  xnpv rate cash_flow false already_day_diffs =
    xnpv rate cash_flow true already_day_diffs.
Proof. intros H. unfold xnpv. now rewrite (sorted_id _ H). Qed.

(** The loop on day offsets from the first date is the loop on the dates
    themselves. *)
Lemma xnpv_loop_offsets (rate_plus_1 : F) (t0 : Z) (items : list (entry F))
    (last_power last_raised x : F) :
  xnpv_loop rate_plus_1 0 true
    (map (fun e => (days (fst e - t0), snd e)) items)
    last_power last_raised x =
  xnpv_loop rate_plus_1 t0 false items last_power last_raised x.
Proof.
  revert last_power last_raised x.
  induction items as [|[d a] rest IH]; intros; [reflexivity|].
  cbn [map xnpv_loop fst snd]. rewrite Z.sub_0_r.
  destruct (div (of_int (days (d - t0))) year_days) as [new_power|];
    cbn [bind]; [|reflexivity].
  destruct (power rate_plus_1 (new_power - last_power)) as [raised|];
    cbn [bind]; [|reflexivity].
  destruct (div a (raised * last_raised)) as [term|]; cbn [bind];
    [|reflexivity].
  apply IH.
Qed.

Lemma xnpv_normalized (rate : F) (s ns : list (entry F)) :
  normalized s = Return ns ->
  xnpv rate ns true true = xnpv rate s false false.
Proof.
  unfold normalized, xnpv. rewrite map_to_float.
  destruct (sorted s) as [|[t0 a] rest]; [discriminate|].
  intros [= <-]. rewrite <- (xnpv_loop_offsets _ t0 ((t0, a) :: rest)).
  cbn [map fst snd]. rewrite Z.sub_diag. reflexivity.
Qed.

Lemma xirr_solves_xnpv {G : Type} (s : list (entry F)) (g : G)
    (silent : bool) :
  s <> [] ->
  xirr s g silent =
    handled silent
      (secant (fun r => xnpv r s false false)
         zero ten 2000 eps_default eps_default).
Proof.
  intros Hs. unfold xirr.
  destruct (normalized s) as [ns|e] eqn:Hn.
  - cbn [bind]. unfold solve, handled.
    rewrite (secant_ext (fun r => xnpv r ns true true)
                   (fun r => xnpv r s false false)
                   (fun r => xnpv_normalized r s ns Hn)).
    now destruct (secant _ _ _ _ _ _) as [r|[]].
  - exfalso. revert Hn. unfold normalized. rewrite map_to_float.
    pose proof (sorted_nonempty s Hs).
    destruct (sorted s) as [|[t0 a] rest]; [easy|discriminate].
Qed.

(** *** The normalized series *)

Lemma normalized_nonempty (s : list (entry F)) :
  s <> [] -> exists t0 a rest, normalized s = Return ((t0, a) :: rest).
Proof.
  intros Hs. unfold normalized. rewrite map_to_float.
  pose proof (sorted_nonempty s Hs).
  destruct (sorted s) as [|[t0 a] rest]; [easy|].
  cbn [map fst snd]. eauto.
Qed.

Lemma key_le_offsets (t0 : Z) (l : list (entry F)) :
  StronglySorted key_le l ->
  StronglySorted key_le (map (fun e => (days (fst e - t0), snd e)) l).
Proof.
  induction 1 as [|x l Hl IH Hx]; cbn [map]; constructor; [exact IH|].
  apply Forall_map. eapply Forall_impl; [|exact Hx].
  unfold key_le, days. cbn. intros y Hy. lia.
Qed.

Lemma normalized_spec (s ns : list (entry F)) :
  normalized s = Return ns ->
  StronglySorted key_le ns /\
  (exists a rest, ns = (0%Z, a) :: rest) /\
  Forall (fun e => (0 <= fst e)%Z) ns /\
  Permutation (map snd ns) (map snd s) /\
  normalized ns = Return ns.
Proof.
  unfold normalized at 1. rewrite map_to_float.
  pose proof (sorted_sorted s) as Hs. pose proof (sorted_perm s) as Hp.
  destruct (sorted s) as [|[t0 a] rest] eqn:E; [discriminate|].
  intros H.
  assert (ns = map (fun e => (days (fst e - t0), snd e)) ((t0, a) :: rest))
    as -> by (now injection H as <-).
  clear H.
  assert (StronglySorted key_le
            (map (fun e => (days (fst e - t0), snd e)) ((t0, a) :: rest)))
    as Hns by now apply key_le_offsets.
  split; [exact Hns|]. split; [|split; [|split]].
  - cbn [map fst snd]. unfold days at 1. rewrite Z.sub_diag. eauto.
  - rewrite Forall_map. apply StronglySorted_inv in Hs as [_ Hs].
    constructor; [unfold days; cbn; lia|].
    eapply Forall_impl; [|exact Hs]. unfold key_le, days. cbn. intros; lia.
  - rewrite map_map. cbn [snd]. rewrite <- Hp. reflexivity.
  - unfold normalized. rewrite map_to_float, (sorted_id _ Hns).
    cbn [map fst snd]. unfold days. rewrite Z.sub_diag.
    f_equal. f_equal; [now rewrite Z.sub_diag|].
    rewrite map_map. apply map_ext. intros [d b]. cbn. f_equal. lia.
Qed.

End DateFacts.

(** ** The order of the input of the evaluator *)

Section OrderOfInput.

Context {F : Type} {AF : Arith F}.

Lemma xnpv_permutation_distinct (rate : F) (s s' : list (entry F))
    (already_day_diffs : bool) :
  NoDup (map fst s) -> Permutation s s' ->
  xnpv rate s' false already_day_diffs = xnpv rate s false already_day_diffs.
Proof.
  intros Hnd Hp. unfold xnpv.
  now rewrite (sorted_of_permutation s s' Hnd Hp).
Qed.

End OrderOfInput.

Lemma xnpv_permutation_exact (rate : R) (s s' : list (entry R))
    (already_day_diffs : bool) :
  Permutation s s' ->
  xnpv rate s' false already_day_diffs = xnpv rate s false already_day_diffs.
Proof.
  intros Hp. pose proof (sorted_tie_equiv s s' Hp) as Ht.
  pose proof (tie_equiv_first _ _ Ht) as Hfirst.
  unfold xnpv.
  destruct (sorted s) as [|[t0 a] rest], (sorted s') as [|[t0' a'] rest'];
    try easy.
  cbn in Hfirst. subst t0'. symmetry.
  now apply ExactTies.xnpv_loop_tie_equiv.
Qed.

(** ** The evaluator in exact arithmetic *)


Module ExactValue.

Import ExactFacts.
Local Open Scope R_scope.

Lemma real_pow_pos (x y : R) : 0 < x -> real_pow x y = Return (Rpower x y).
Proof.
  intros Hx. unfold real_pow.
  destruct (Req_dec_T y 0) as [->|_]; [now rewrite Rpower_O|].
  now destruct (Rlt_dec 0 x).
Qed.

Lemma Rpower_nonzero (x y : R) : Rpower x y <> 0.
Proof. unfold Rpower. pose proof (exp_pos (y * ln x)). lra. Qed.

Lemma year_fraction (t0 : Z) (already_day_diffs : bool) (item : entry R) :
  (if already_day_diffs
   then div (of_int (fst item - t0)) year_days
   else div (of_int (days (fst item - t0))) year_days) =
  Return (IZR (fst item - t0) / 365).
Proof.
  unfold div, days. real_ops. rewrite year_days_nonzero.
  now destruct already_day_diffs.
Qed.

(** The running power of the loop is the power of the docstring. *)
Lemma xnpv_loop_closed (x1 : R) (t0 : Z) (already_day_diffs : bool)
    (items : list (entry R)) (last_power x : R) :
  0 < x1 ->
  xnpv_loop x1 t0 already_day_diffs items last_power (Rpower x1 last_power) x =
  Return (fold_left
            (fun x item => x + snd item / Rpower x1 (IZR (fst item - t0) / 365))
            items x).
Proof.
  intros Hx1. revert last_power x.
  induction items as [|item rest IH]; intros last_power x; [reflexivity|].
  cbn [xnpv_loop fold_left]. rewrite year_fraction. cbn [bind]. real_ops.
  rewrite (real_pow_pos _ _ Hx1). cbn [bind].
  rewrite <- Rpower_plus.
  replace (IZR (fst item - t0) / 365 - last_power + last_power)
    with (IZR (fst item - t0) / 365) by ring.
  unfold div. real_ops.
  rewrite (proj2 (eqb_false _ 0) (Rpower_nonzero _ _)). cbn [bind].
  apply IH.
Qed.

Lemma fold_present_value_perm (x1 : R) (t0 : Z) (l l' : list (entry R)) :
  Permutation l l' ->
  forall x,
    fold_left
      (fun x item => x + snd item / Rpower x1 (IZR (fst item - t0) / 365))
      l x =
    fold_left
      (fun x item => x + snd item / Rpower x1 (IZR (fst item - t0) / 365))
      l' x.
Proof.
  induction 1 as [|e l l' _ IH|e e' l|l l' l'' _ IH1 _ IH2]; intros x; cbn.
  - reflexivity.
  - apply IH.
  - f_equal. lra.
  - now rewrite IH1.
Qed.

Lemma xnpv_closed (rate : R) (s : list (entry R))
    (sorted_ already_day_diffs : bool) (t0 : Z) (a : R)
    (rest : list (entry R)) :
  -1 < rate ->
  (if sorted_ then s else sorted s) = (t0, a) :: rest ->
  xnpv rate s sorted_ already_day_diffs = Return (present_value rate t0 s).
Proof.
  intros Hrate Hs. unfold xnpv, present_value. rewrite Hs. real_ops.
  rewrite <- (Rpower_O (rate + 1)) at 2 by lra.
  rewrite xnpv_loop_closed by lra. f_equal. rewrite <- Hs.
  destruct sorted_; [reflexivity|].
  apply fold_present_value_perm, sorted_perm.
Qed.

(** *** The rate -1 *)

Lemma real_pow_zero_base (y : R) :
  y <> 0 -> real_pow 0 y = Return 0 \/ real_pow 0 y = Raise ZeroDivisionError.
Proof.
  intros Hy. unfold real_pow.
  destruct (Req_dec_T y 0); [easy|].
  destruct (Rlt_dec 0 0); [lra|].
  destruct (Req_dec_T 0 0); [|lra].
  destruct (Rlt_dec 0 y); auto.
Qed.

Lemma xnpv_loop_zero_base (t0 : Z) (already_day_diffs : bool)
    (items : list (entry R)) (x : R) :
  Exists (fun item => fst item <> t0) items ->
  xnpv_loop 0 t0 already_day_diffs items 0 1 x = Raise ZeroDivisionError.
Proof.
  intros Hex. revert x.
  induction items as [|item rest IH]; intros x; [now inversion Hex|].
  cbn [xnpv_loop]. rewrite year_fraction. cbn [bind]. real_ops.
  destruct (Z.eq_dec (fst item) t0) as [E|E].
  - rewrite E, Z.sub_diag.
    rewrite (pow_exponent_zero 0 (0 / 365 - 0)) by lra. cbn [bind].
    unfold div. real_ops.
    rewrite (proj2 (eqb_false (1 * 1) 0)) by lra. cbn [bind].
    replace (0 / 365) with 0 by lra. replace (1 * 1) with 1 by lra.
    apply IH. inversion Hex; subst; [easy|assumption].
  - assert (IZR (fst item - t0) / 365 - 0 <> 0) as Hp.
    { assert (IZR (fst item - t0) <> 0) as Hz
        by (intros Hz; apply eq_IZR_R0 in Hz; lia).
      intros Hq. apply Hz. lra. }
    destruct (real_pow_zero_base _ Hp) as [-> | ->]; cbn [bind];
      [|reflexivity].
    unfold div. real_ops.
    now rewrite (proj2 (eqb_true (0 * 1) 0)) by lra.
Qed.

Lemma xnpv_rate_minus_one (s : list (entry R))
    (sorted_ already_day_diffs : bool) (t0 : Z) (a : R)
    (rest : list (entry R)) :
  (if sorted_ then s else sorted s) = (t0, a) :: rest ->
  Exists (fun item => fst item <> t0) s ->
  xnpv (-1) s sorted_ already_day_diffs = Raise ZeroDivisionError.
Proof.
  intros Hs Hex. unfold xnpv. rewrite Hs. real_ops.
  replace (-1 + 1) with 0 by lra.
  apply xnpv_loop_zero_base. rewrite <- Hs.
  destruct sorted_; [exact Hex|].
  apply Exists_exists in Hex as (item & Hin & Hne).
  apply Exists_exists. exists item. split; [|exact Hne].
  eapply Permutation_in; [symmetry; apply sorted_perm|exact Hin].
Qed.

(** *** Amounts of one sign *)

Lemma fold_present_value_nonneg (x1 : R) (t0 : Z) (l : list (entry R)) (x : R) :
  Forall (fun item => 0 <= snd item) l -> 0 <= x ->
  0 <= fold_left
         (fun x item => x + snd item / Rpower x1 (IZR (fst item - t0) / 365))
         l x.
Proof.
  intros Hl. revert x. induction Hl as [|item l Hi _ IH]; intros x Hx;
    [exact Hx|].
  cbn [fold_left]. apply IH.
  assert (0 < Rpower x1 (IZR (fst item - t0) / 365))
    by (unfold Rpower; apply exp_pos).
  assert (0 <= snd item / Rpower x1 (IZR (fst item - t0) / 365))
    by (apply Rmult_le_pos; [exact Hi|left; now apply Rinv_0_lt_compat]).
  lra.
Qed.

Lemma fold_present_value_nonpos (x1 : R) (t0 : Z) (l : list (entry R)) (x : R) :
  Forall (fun item => snd item <= 0) l -> x <= 0 ->
  fold_left
    (fun x item => x + snd item / Rpower x1 (IZR (fst item - t0) / 365))
    l x <= 0.
Proof.
  intros Hl. revert x. induction Hl as [|item l Hi _ IH]; intros x Hx;
    [exact Hx|].
  cbn [fold_left]. apply IH.
  assert (0 < Rpower x1 (IZR (fst item - t0) / 365))
    by (unfold Rpower; apply exp_pos).
  assert (0 <= (- snd item) / Rpower x1 (IZR (fst item - t0) / 365))
    by (apply Rmult_le_pos; [lra|left; now apply Rinv_0_lt_compat]).
  unfold Rdiv in *. lra.
Qed.

Lemma normalized_amounts (P : R -> Prop) (s ns : list (entry R)) :
  normalized s = Return ns ->
  Forall (fun item => P (snd item)) s -> Forall (fun item => P (snd item)) ns.
Proof.
  unfold normalized. rewrite map_to_float.
  pose proof (sorted_perm s) as Hp.
  destruct (sorted s) as [|[t0 a] rest]; [discriminate|].
  intros [= <-] Hs. rewrite <- Hp in Hs.
  change (Forall (fun item => P (snd item))
            (map (fun e => (days (fst e - t0), snd e)) ((t0, a) :: rest))).
  rewrite Forall_map. exact Hs.
Qed.

Lemma xirr_one_sign {G : Type} (s : list (entry R)) (g : G) (silent : bool) :
  s <> [] ->
  Forall (fun item => 0 <= snd item) s \/
  Forall (fun item => snd item <= 0) s ->
  xirr s g silent = Return None.
Proof.
  intros Hs Hsign.
  destruct (normalized_nonempty s Hs) as (t0 & a & rest & Hn).
  apply (xirr_initial_check s _ g silent
           (present_value 0 t0 ((t0, a) :: rest))
           (present_value 10 t0 ((t0, a) :: rest)) Hn).
  - apply (xnpv_closed _ _ true true t0 a rest); [real_ops; lra|reflexivity].
  - apply (xnpv_closed _ _ true true t0 a rest); [real_ops; lra|reflexivity].
  - real_ops. apply geb_true. unfold present_value.
    destruct Hsign as [H|H];
      [apply (normalized_amounts (fun v => 0 <= v) _ _ Hn) in H
      |apply (normalized_amounts (fun v => v <= 0) _ _ Hn) in H].
    + apply Rmult_le_pos; apply fold_present_value_nonneg; try assumption; lra.
    + pose proof (fold_present_value_nonpos (0 + 1) t0 _ 0 H ltac:(lra)).
      pose proof (fold_present_value_nonpos (10 + 1) t0 _ 0 H ltac:(lra)).
      nra.
Qed.

End ExactValue.

(** ** The solver in exact arithmetic *)

Module ExactSolver.

Import ExactFacts.
Local Open Scope R_scope.

(** *** The objective with the opposite sign *)

Section Negation.

Variables (f : R -> outcome R) (eps_y eps_x : R).

Lemma iteration_opposite (n : nat) (a_n b_n : R) (prev : option R) :
  iteration (fun x => scaled (-1) (f x)) eps_y eps_x n a_n b_n prev =
    iteration f eps_y eps_x n a_n b_n prev.
Proof.
  unfold iteration.
  destruct (f a_n) as [f_a_n|]; cbn; [|reflexivity].
  destruct (f b_n) as [f_b_n|]; cbn; [|reflexivity].
  unfold div. cbn.
  destruct (real_eqb (f_b_n - f_a_n) 0) eqn:Hd.
  - apply eqb_true in Hd.
    assert (real_eqb (-1 * f_b_n - -1 * f_a_n) 0 = true) as ->
        by (apply eqb_true; lra).
    reflexivity.
  - apply eqb_false in Hd.
    assert (real_eqb (-1 * f_b_n - -1 * f_a_n) 0 = false) as ->
        by (apply eqb_false; lra).
    cbn.
    replace (-1 * f_a_n * (b_n - a_n) / (-1 * f_b_n - -1 * f_a_n))
      with (f_a_n * (b_n - a_n) / (f_b_n - f_a_n))
      by (field; split; lra).
    destruct (f (a_n - f_a_n * (b_n - a_n) / (f_b_n - f_a_n)))
      as [f_m_n|]; cbn; [|reflexivity].
    destruct (checkpoint n prev _) as [prev'|]; cbn; [|reflexivity].
    replace (-1 * f_m_n) with (- f_m_n) by ring. rewrite Rabs_Ropp.
    replace (-1 * f_a_n * - f_m_n) with (f_a_n * f_m_n) by ring.
    replace (-1 * f_b_n * - f_m_n) with (f_b_n * f_m_n) by ring.
    reflexivity.
Qed.

Lemma secant_loop_opposite (ns : list nat) (a_n b_n : R) (prev : option R) :
  secant_loop (fun x => scaled (-1) (f x)) eps_y eps_x ns a_n b_n prev =
    secant_loop f eps_y eps_x ns a_n b_n prev.
Proof.
  revert a_n b_n prev. induction ns as [|n ns IH]; intros; cbn;
    [reflexivity|].
  rewrite iteration_opposite.
  destruct (iteration f eps_y eps_x n a_n b_n prev) as [[r|a' b' prev']|];
    cbn; auto.
Qed.

Lemma secant_opposite (a b : R) (N : nat) :
  secant (fun x => scaled (-1) (f x)) a b N eps_y eps_x =
    secant f a b N eps_y eps_x.
Proof.
  unfold secant.
  destruct (f a) as [f_a|]; cbn; [|reflexivity].
  destruct (f b) as [f_b|]; cbn; [|reflexivity].
  replace (-1 * f_a * (-1 * f_b)) with (f_a * f_b) by ring.
  destruct (real_geb (f_a * f_b) 0); [reflexivity|].
  apply secant_loop_opposite.
Qed.

End Negation.

Lemma xirr_opposite {G : Type} (s : list (entry R)) (g : G) (silent : bool) :
  xirr (scale (-1) s) g silent = xirr s g silent.
Proof.
  destruct s as [|x s]; [reflexivity|].
  destruct (normalized_nonempty (x :: s) ltac:(discriminate))
    as (t0 & a & rest & Hn).
  unfold xirr. rewrite (normalized_scale (-1) _ _ Hn), Hn. cbn [bind].
  unfold solve.
  rewrite (secant_ext (fun r => xnpv r (scale (-1) ((t0, a) :: rest)) true true)
             (fun r => scaled (-1) (xnpv r ((t0, a) :: rest) true true))
             (fun r => Scaling.xnpv_scale (-1) r ((t0, a) :: rest))).
  now rewrite secant_opposite.
Qed.

(** *** The solver reads the objective inside the bracket only *)

Section Local.

Variables (f g : R -> outcome R) (eps_y eps_x a b : R).
Hypothesis agree : forall x, a <= x <= b -> f x = g x.

Lemma iteration_local (n : nat) (a_n b_n : R) (prev : option R) :
  a <= a_n -> b_n <= b -> bracketing f a_n b_n ->
  iteration g eps_y eps_x n a_n b_n prev =
    iteration f eps_y eps_x n a_n b_n prev.
Proof.
  intros Ha Hb Hbr.
  destruct (Bracket.bracketing_estimate f a_n b_n Hbr)
    as (f_a_n & f_b_n & m_n & Hfa & Hfb & Hd & Hm & _ & Hin).
  pose proof Hbr as [Hab _].
  unfold iteration. rewrite <- !agree by lra. rewrite Hfa, Hfb. cbn [bind].
  unfold div. real_ops. apply eqb_false in Hd as ->. cbn [bind].
  rewrite <- Hm. now rewrite <- agree by lra.
Qed.

Lemma secant_loop_local (ns : list nat) (a_n b_n : R) (prev : option R) :
  a <= a_n -> b_n <= b -> bracketing f a_n b_n ->
  secant_loop g eps_y eps_x ns a_n b_n prev =
    secant_loop f eps_y eps_x ns a_n b_n prev.
Proof.
  revert a_n b_n prev.
  induction ns as [|n ns IH]; intros a_n b_n prev Ha Hb Hbr; [reflexivity|].
  cbn [secant_loop]. rewrite iteration_local by assumption.
  destruct (iteration f eps_y eps_x n a_n b_n prev) as [[r|a' b' prev']|]
    eqn:Hit; cbn [bind]; try reflexivity.
  apply (Bracket.iteration_bracketing _ _ _ _ _ _ _ _ Hbr) in Hit
    as (Ha' & Hb' & Hbr').
  apply IH; try assumption; lra.
Qed.

Lemma secant_local (N : nat) :
  a < b ->
  secant g a b N eps_y eps_x = secant f a b N eps_y eps_x.
Proof.
  intros Hab. unfold secant. rewrite <- !agree by lra.
  destruct (f a) as [f_a|] eqn:Ha; cbn [bind]; [|reflexivity].
  destruct (f b) as [f_b|] eqn:Hb; cbn [bind]; [|reflexivity].
  real_ops. destruct (real_geb (f_a * f_b) 0) eqn:Hsign; [reflexivity|].
  apply geb_false in Hsign.
  apply secant_loop_local; try lra.
  split; [exact Hab|]. now exists f_a, f_b.
Qed.

End Local.

(** *** A line *)

Lemma secant_of_line (k c a b eps_y eps_x : R) (N : nat) :
  (k * a + c) * (k * b + c) < 0 -> 0 < eps_y -> (1 <= N)%nat ->
  exists r,
    secant (fun x => Return (k * x + c)) a b N eps_y eps_x = Return (Some r) /\
    k * r + c = 0.
Proof.
  intros Hsign Hy HN.
  assert (k * b + c - (k * a + c) <> 0) as Hd
      by (intros E; assert (k * b + c = k * a + c) as E' by lra;
          rewrite E' in Hsign;
          pose proof (Rle_0_sqr (k * a + c)) as Hsq; unfold Rsqr in Hsq; lra).
  exists (a - (k * a + c) * (b - a) / (k * b + c - (k * a + c))).
  split; [|field; exact Hd].
  unfold secant. cbn [bind]. real_ops.
  rewrite (proj2 (geb_false _ _)) by exact Hsign.
  destruct N as [|N]; [lia|]. cbn [seq secant_loop].
  unfold iteration. cbn [bind]. unfold div. real_ops.
  rewrite (proj2 (eqb_false _ _) Hd). cbn [bind].
  change (checkpoint 1 None ?m) with (@Return (option R) None).
  cbn [bind].
  destruct (real_ltb (Rabs (b - a)) eps_x); [reflexivity|].
  replace (k * (a - (k * a + c) * (b - a) / (k * b + c - (k * a + c))) + c)
    with 0 by (field; exact Hd).
  rewrite Rabs_R0. now rewrite (proj2 (ltb_true 0 eps_y)).
Qed.

End ExactSolver.


Module ExactSwap.

Import ExactFacts.
Local Open Scope R_scope.

Section Swap.

Variables (f : R -> outcome R) (eps_y eps_x : R).

Lemma iteration_exchanged (n : nat) (a_n b_n : R) (prev : option R) :
  sign_change f a_n b_n ->
  iteration f eps_y eps_x n b_n a_n prev =
    match iteration f eps_y eps_x n a_n b_n prev with
    | Return st => Return (exchanged st)
    | Raise e => Raise e
    end.
Proof.
  intros (f_a_n & f_b_n & Ha & Hb & Hsign).
  assert (f_b_n - f_a_n <> 0) as Hd
      by (intros E; assert (f_b_n = f_a_n) as E' by lra; rewrite E' in Hsign;
          pose proof (Rle_0_sqr f_a_n) as Hsq; unfold Rsqr in Hsq; lra).
  unfold iteration. rewrite Ha, Hb. cbn [bind]. unfold div. real_ops.
  rewrite (proj2 (eqb_false (f_b_n - f_a_n) 0)) by exact Hd.
  rewrite (proj2 (eqb_false (f_a_n - f_b_n) 0)) by lra.
  cbn [bind].
  replace (b_n - f_b_n * (a_n - b_n) / (f_a_n - f_b_n))
    with (a_n - f_a_n * (b_n - a_n) / (f_b_n - f_a_n))
    by (field; split; lra).
  destruct (f (a_n - f_a_n * (b_n - a_n) / (f_b_n - f_a_n)))
    as [f_m_n|]; cbn [bind]; [|reflexivity].
  destruct (checkpoint n prev _) as [prev'|]; cbn [bind]; [|reflexivity].
  rewrite (Rabs_minus_sym a_n b_n).
  destruct (real_ltb (Rabs (b_n - a_n)) eps_x); [reflexivity|].
  destruct (real_ltb (Rabs f_m_n) eps_y); [reflexivity|].
  destruct (real_ltb (f_a_n * f_m_n) 0) eqn:Hsa,
           (real_ltb (f_b_n * f_m_n) 0) eqn:Hsb; try reflexivity.
  exfalso. apply ltb_true in Hsa, Hsb.
  assert (0 < (f_a_n * f_m_n) * (f_b_n * f_m_n)) as Hpos by nra.
  replace (f_a_n * f_m_n * (f_b_n * f_m_n))
    with ((f_a_n * f_b_n) * (f_m_n * f_m_n)) in Hpos by ring.
  pose proof (Rle_0_sqr f_m_n) as Hsq. unfold Rsqr in Hsq. nra.
Qed.

Lemma iteration_sign_change (n : nat) (a_n b_n : R) (prev : option R)
    (a' b' : R) (prev' : option R) :
  iteration f eps_y eps_x n a_n b_n prev = Return (Continue a' b' prev') ->
  sign_change f a' b'.
Proof.
  unfold iteration.
  destruct (f a_n) as [f_a_n|] eqn:Ha; cbn [bind]; [|discriminate].
  destruct (f b_n) as [f_b_n|] eqn:Hb; cbn [bind]; [|discriminate].
  destruct (div _ _) as [q|]; cbn [bind]; [|discriminate].
  destruct (f (sub a_n q)) as [f_m_n|] eqn:Hm; cbn [bind]; [|discriminate].
  destruct (checkpoint n prev (sub a_n q)) as [p|]; cbn [bind];
    [|discriminate].
  destruct (ltb (absv (sub b_n a_n)) eps_x); [discriminate|].
  destruct (ltb (absv f_m_n) eps_y); [discriminate|].
  destruct (ltb (mul f_a_n f_m_n) zero) eqn:Hsa.
  { intros [= <- <- _]. apply ltb_true in Hsa. now exists f_a_n, f_m_n. }
  destruct (ltb (mul f_b_n f_m_n) zero) eqn:Hsb; [|discriminate].
  intros [= <- <- _]. apply ltb_true in Hsb. exists f_m_n, f_b_n.
  repeat split; try assumption. revert Hsb. real_ops. lra.
Qed.

Lemma secant_loop_exchanged (ns : list nat) (a_n b_n : R) (prev : option R) :
  sign_change f a_n b_n ->
  secant_loop f eps_y eps_x ns b_n a_n prev =
    secant_loop f eps_y eps_x ns a_n b_n prev.
Proof.
  revert a_n b_n prev.
  induction ns as [|n ns IH]; intros a_n b_n prev Hs; [reflexivity|].
  cbn [secant_loop]. rewrite (iteration_exchanged n a_n b_n prev Hs).
  destruct (iteration f eps_y eps_x n a_n b_n prev) as [[r|a' b' prev']|]
    eqn:Hit; cbn [bind exchanged]; try reflexivity.
  apply IH. eapply iteration_sign_change; exact Hit.
Qed.

Lemma secant_exchanged (a b : R) (N : nat) (f_a f_b : R) :
  f a = Return f_a -> f b = Return f_b ->
  secant f b a N eps_y eps_x = secant f a b N eps_y eps_x.
Proof.
  intros Ha Hb. unfold secant. rewrite Ha, Hb. cbn [bind]. real_ops.
  rewrite (Rmult_comm f_b f_a).
  destruct (real_geb (f_a * f_b) 0) eqn:Hsign; [reflexivity|].
  apply geb_false in Hsign.
  apply secant_loop_exchanged. now exists f_a, f_b.
Qed.

End Swap.

End ExactSwap.

(** ** The dict of xirr_scipy *)


Section DictFacts.

Context {V : Type}.

Lemma dict_set_app_in (k : Z) (w : V) (X1 X2 : list (Z * V)) :
  In k (map fst X1) -> dict_set k w (X1 ++ X2) = dict_set k w X1 ++ X2.
Proof.
  induction X1 as [|[k' v'] X1 IH]; cbn; [easy|].
  intros [->|H].
  - now rewrite Z.eqb_refl.
  - destruct (k =? k')%Z; [reflexivity|]. cbn. now rewrite IH.
Qed.

Lemma dict_set_app_notin (k : Z) (w : V) (X1 X2 : list (Z * V)) :
  ~ In k (map fst X1) -> dict_set k w (X1 ++ X2) = X1 ++ dict_set k w X2.
Proof.
  induction X1 as [|[k' v'] X1 IH]; cbn; [easy|].
  intros H. destruct (Z.eqb_spec k k') as [->|_]; [now contradiction H; left|].
  rewrite IH; [reflexivity|]. intros H'. apply H. now right.
Qed.

Lemma dict_set_keys (k : Z) (w : V) (X : list (Z * V)) :
  In k (map fst X) -> map fst (dict_set k w X) = map fst X.
Proof.
  induction X as [|[k' v'] X IH]; cbn; [easy|].
  intros [->|H].
  - now rewrite Z.eqb_refl.
  - destruct (k =? k')%Z; [reflexivity|]. cbn. now rewrite IH.
Qed.

Lemma dict_set_split (d : Z) (S : list (Z * V)) :
  exists X1 X2,
    ~ In d (map fst X1) /\ forall v, dict_set d v S = X1 ++ (d, v) :: X2.
Proof.
  induction S as [|[k' v'] S (X1 & X2 & Hd & IH)].
  - exists [], []. split; [easy|reflexivity].
  - destruct (Z.eqb_spec d k') as [->|Hne].
    + exists [], S. split; [easy|]. intros v. cbn. now rewrite Z.eqb_refl.
    + exists ((k', v') :: X1), X2. split.
      * cbn. intros [E|H]; [now apply Hne|now apply Hd].
      * intros v. cbn. apply Z.eqb_neq in Hne as ->. now rewrite IH.
Qed.


Lemma differ_at_set (d k : Z) (w : V) (X Y : list (Z * V)) :
  differ_at d X Y -> differ_at d (dict_set k w X) (dict_set k w Y).
Proof.
  intros (X1 & X2 & a & b & Hd & -> & ->).
  destruct (in_dec Z.eq_dec k (map fst X1)) as [Hin|Hnin].
  - rewrite !dict_set_app_in by exact Hin.
    exists (dict_set k w X1), X2, a, b. split; [|split; reflexivity].
    now rewrite dict_set_keys.
  - rewrite !dict_set_app_notin by exact Hnin. cbn.
    destruct (Z.eqb_spec k d) as [->|Hne].
    + now exists X1, X2, w, w.
    + now exists X1, (dict_set k w X2), a, b.
Qed.

Lemma differ_at_fold (d : Z) (p : list (Z * V)) (X Y : list (Z * V)) :
  differ_at d X Y ->
  differ_at d (fold_left (fun d item => dict_set (fst item) (snd item) d) p X)
              (fold_left (fun d item => dict_set (fst item) (snd item) d) p Y).
Proof.
  revert X Y. induction p as [|item p IH]; intros X Y H; [exact H|].
  cbn. now apply IH, differ_at_set.
Qed.

Lemma differ_at_overwritten (d : Z) (w : V) (X Y : list (Z * V)) :
  differ_at d X Y -> dict_set d w X = dict_set d w Y.
Proof.
  intros (X1 & X2 & a & b & Hd & -> & ->).
  rewrite !dict_set_app_notin by exact Hd. cbn. now rewrite Z.eqb_refl.
Qed.

Lemma dict_overwritten (d : Z) (a b a' : V) (p1 p2 p3 : list (Z * V)) :
  dict (p1 ++ (d, a) :: p2 ++ (d, a') :: p3) =
    dict (p1 ++ (d, b) :: p2 ++ (d, a') :: p3).
Proof.
  unfold dict. rewrite !fold_left_app. cbn [fold_left fst snd].
  rewrite !fold_left_app. cbn [fold_left fst snd]. f_equal.
  apply differ_at_overwritten, differ_at_fold.
  destruct (dict_set_split d (fold_left
              (fun d item => dict_set (fst item) (snd item) d) p1 []))
    as (X1 & X2 & Hd & H).
  exists X1, X2, a, b. now rewrite !H.
Qed.

Lemma dict_fold_fresh (p acc : list (Z * V)) :
  NoDup (map fst (acc ++ p)) ->
  fold_left (fun d item => dict_set (fst item) (snd item) d) p acc = acc ++ p.
Proof.
  revert acc. induction p as [|[k v] p IH]; intros acc H; cbn.
  - now rewrite app_nil_r.
  - replace (acc ++ (k, v) :: p) with ((acc ++ [(k, v)]) ++ p) in *
      by (now rewrite <- app_assoc).
    rewrite <- IH by exact H. f_equal.
    rewrite <- (app_nil_r acc) at 1.
    rewrite dict_set_app_notin; [reflexivity|].
    rewrite map_app, map_app in H. apply NoDup_app_remove_r in H.
    cbn in H. apply NoDup_remove_2 in H. now rewrite app_nil_r in H.
Qed.

Lemma dict_distinct (p : list (Z * V)) :
  NoDup (map fst p) -> dict p = p.
Proof. intros H. unfold dict. now rewrite dict_fold_fresh. Qed.

End DictFacts.

(** ** Tolerances that nothing meets *)

Section NoTolerance.

Context {F : Type} {AF : Arith F}.
Variables (f : F -> outcome F) (eps_y eps_x : F).

Local Open Scope py_scope.
Local Open Scope arith_scope.

Hypothesis never_x : forall x, (absv x <? eps_x) = false.
Hypothesis never_y : forall x, (absv x <? eps_y) = false.

Lemma secant_returns_no_rate (a b : F) (N : nat) (m : F) :
  secant f a b N eps_y eps_x <> Return (Some m).
Proof.
  intros H. apply secant_Some in H
    as (n & a_n & b_n & prev & f_m & _ & _ & _ & _ & [H|H]).
  - now rewrite never_x in H.
  - now rewrite never_y in H.
Qed.

End NoTolerance.

(** ** What the evaluator raises *)

Section EvaluatorRaises.

Context {F : Type} {AF : Arith F}.

Local Open Scope py_scope.
Local Open Scope arith_scope.

Lemma xnpv_loop_raises (rate_plus_1 : F) (t0 : Z) (already_day_diffs : bool)
    (items : list (entry F)) (last_power last_raised x : F) (e : exn) :
  xnpv_loop rate_plus_1 t0 already_day_diffs items last_power last_raised x
    = Raise e ->
  e = ZeroDivisionError \/ exists y, power rate_plus_1 y = Raise e.
Proof.
  revert last_power last_raised x.
  induction items as [|item rest IH]; intros last_power last_raised x;
    [discriminate|].
  cbn [xnpv_loop].
  destruct (if already_day_diffs then _ else _) as [new_power|e'] eqn:Hp;
    cbn [bind].
  - destruct (power rate_plus_1 (new_power - last_power)) as [raised|e'']
      eqn:Hpow; cbn [bind].
    + destruct (div (snd item) (raised * last_raised)) as [term|e3] eqn:Hd;
        cbn [bind]; [apply IH|].
      intros [= <-]. left. now apply div_raises in Hd.
    + intros [= <-]. right. now exists (new_power - last_power).
  - intros [= <-]. left. destruct already_day_diffs;
      now apply div_raises in Hp.
Qed.

Lemma xnpv_raises (rate : F) (cash_flow : list (entry F))
    (sorted_ already_day_diffs : bool) (e : exn) :
  xnpv rate cash_flow sorted_ already_day_diffs = Raise e ->
  (e = IndexError /\ cash_flow = []) \/ e = ZeroDivisionError \/
  exists y, power (rate + one) y = Raise e.
Proof.
  unfold xnpv.
  destruct (if sorted_ then cash_flow else sorted cash_flow)
    as [|[t0 a] rest] eqn:Hs.
  - intros [= <-]. left. split; [reflexivity|].
    destruct sorted_; [exact Hs|].
    destruct cash_flow as [|x l]; [reflexivity|].
    now apply sorted_nonempty in Hs.
  - intros H. right. now apply xnpv_loop_raises in H.
Qed.

End EvaluatorRaises.

(** ** A series on one day *)

Section SameDay.

Context {F : Type} {AF : Arith F}.

Local Open Scope py_scope.
Local Open Scope arith_scope.

Hypothesis year_nonzero : (year_days ==? zero) = false.
Hypothesis no_fraction : quot (of_int 0) year_days = zero.
Hypothesis no_exponent : zero - zero = zero.
Hypothesis power_zero : forall x, power x zero = Return one.
Hypothesis one_one : one * one = one.
Hypothesis one_not_zero : (one ==? zero) = false.
Hypothesis quot_one : forall a, quot a one = a.

Lemma xnpv_loop_same_day (rate_plus_1 : F) (t0 : Z) (already_day_diffs : bool)
    (items : list (entry F)) (x : F) :
  Forall (fun item => fst item = t0) items ->
  xnpv_loop rate_plus_1 t0 already_day_diffs items zero one x =
    Return (fold_left (fun x item => x + snd item) items x).
Proof.
  intros Hitems. revert x.
  induction Hitems as [|item rest Hitem _ IH]; intros x; [reflexivity|].
  cbn [xnpv_loop fold_left]. unfold div, days.
  rewrite year_nonzero, Hitem, Z.sub_diag, no_fraction.
  destruct already_day_diffs; cbn [bind];
    rewrite no_exponent, power_zero; cbn [bind];
    rewrite one_one, one_not_zero; cbn [bind];
    rewrite quot_one; apply IH.
Qed.

Lemma same_day_sorted (t0 : Z) (s : list (entry F)) :
  Forall (fun item => fst item = t0) s -> StronglySorted key_le s.
Proof.
  induction 1 as [|item rest Hitem Hrest IH]; constructor; [exact IH|].
  eapply Forall_impl; [|exact Hrest]. unfold key_le. intros y Hy. lia.
Qed.

Lemma xnpv_same_day (rate : F) (t0 : Z) (s : list (entry F))
    (sorted_ already_day_diffs : bool) :
  s <> [] -> Forall (fun item => fst item = t0) s ->
  xnpv rate s sorted_ already_day_diffs = Return (sum_amounts s).
Proof.
  intros Hne Hs. unfold xnpv.
  replace (if sorted_ then s else sorted s) with s
    by (destruct sorted_;
        [reflexivity|symmetry; eapply sorted_id, same_day_sorted, Hs]).
  destruct s as [|[d a] rest]; [now contradiction Hne|].
  pose proof (Forall_inv Hs) as Hd. cbn in Hd. subst d.
  now apply xnpv_loop_same_day.
Qed.

Lemma normalized_same_day (t0 : Z) (s : list (entry F)) :
  s <> [] -> Forall (fun item => fst item = t0) s ->
  normalized s = Return (map (fun item => (0%Z, snd item)) s).
Proof.
  intros Hne Hs. unfold normalized.
  rewrite map_to_float, (sorted_id _ (same_day_sorted t0 s Hs)).
  destruct s as [|[d a] rest]; [now contradiction Hne|].
  f_equal. apply map_ext_Forall. eapply Forall_impl; [|exact Hs].
  intros [d' a'] Hd'. pose proof (Forall_inv Hs) as Hd.
  cbn in *. subst. unfold days. now rewrite Z.sub_diag.
Qed.

Lemma sum_amounts_offsets (s : list (entry F)) :
  sum_amounts (map (fun item => (0%Z, snd item)) s) = sum_amounts s.
Proof.
  unfold sum_amounts. generalize (@zero F AF).
  induction s as [|item s IH]; intros x; [reflexivity|]. cbn. apply IH.
Qed.

(** The objective of [xirr] on such a series is constant. *)
Lemma solve_same_day (t0 : Z) (s : list (entry F)) :
  s <> [] -> Forall (fun item => fst item = t0) s ->
  solve (map (fun item => (0%Z, snd item)) s) =
    secant (fun _ => Return (sum_amounts s))
      zero ten 2000 eps_default eps_default.
Proof.
  intros Hne Hs. unfold solve. apply secant_ext. intros rate.
  rewrite (xnpv_same_day rate 0%Z).
  - now rewrite sum_amounts_offsets.
  - now destruct s.
  - rewrite Forall_map. eapply Forall_impl; [|exact Hs]. now intros.
Qed.

End SameDay.

Module FloatRuns.

Import FloatFacts.

(** [abs(x) < eps] fails for every [x] when [eps] is not above zero. *)
Lemma abs_not_below (x eps : float) :
  (0 <? eps)%float = false -> (abs x <? eps)%float = false.
Proof.
  rewrite !FloatAxioms.ltb_spec, FloatAxioms.abs_spec.
  change (Prim2SF 0) with (S754_zero false).
  destruct (Prim2SF x) as [sx|sx| |sx mx ex],
           (Prim2SF eps) as [sy|[]| |[] my ey]; cbn; easy.
Qed.

(** The solver on a constant objective over [[0, 10]]. *)
Lemma secant_constant (c : float) (N : nat) :
  secant (fun _ => Return c) 0%float 10%float N
    eps_default eps_default = Return None.
Proof.
  destruct (is_nan c) eqn:Hnan.
  - unfold secant. cbn [bind]. cbn [geb zero mul float_arith].
    rewrite nan_product_not_ge by now left.
    destruct N as [|N]; [reflexivity|]. cbn [seq].
    rewrite (secant_loop_Stop _ _ _ _ _ _ _ _ None); [reflexivity|].
    apply (iteration_last_branch _ _ _ _ _ _ None None c c
             (quot (mul c (sub 10%float 0%float)) (sub c c)) c);
      try reflexivity.
    + unfold div. cbn [eqb zero sub float_arith].
      now rewrite nan_difference_nonzero.
    + now apply NaN.nan_abs_not_below.
    + apply NaN.nan_product_not_negative. now left.
    + apply NaN.nan_product_not_negative. now left.
  - apply (secant_initial_check _ _ _ _ _ _ c c); try reflexivity.
    cbn [geb zero mul float_arith]. now apply float_square_nonneg.
Qed.

(** The laws that the evaluation of a series on one day uses, on
    floats. *)
Lemma float_same_day_laws :
  @eqb float float_arith year_days zero = false /\
  @quot float float_arith (of_int 0) year_days = zero /\
  @sub float float_arith zero zero = zero /\
  (forall x : float, power x zero = Return one) /\
  @mul float float_arith one one = one /\
  @eqb float float_arith one zero = false /\
  (forall a : float, quot a one = a).
Proof.
  refine (conj _ (conj _ (conj _ (conj _ (conj _ (conj _ float_div_one))))));
    try intros x; vm_compute; reflexivity.
Qed.

Lemma float_xnpv_same_day (rate : float) (t0 : Z) (s : list (entry float))
    (sorted_ already_day_diffs : bool) :
  s <> [] -> Forall (fun item => fst item = t0) s ->
  xnpv rate s sorted_ already_day_diffs = Return (sum_amounts s).
Proof.
  intros Hne Hs.
  destruct float_same_day_laws as (H1 & H2 & H3 & H4 & H5 & H6 & H7).
  exact (xnpv_same_day H1 H2 H3 H4 H5 H6 H7 rate t0 s
           sorted_ already_day_diffs Hne Hs).
Qed.

Lemma float_solve_same_day (t0 : Z) (s : list (entry float)) :
  s <> [] -> Forall (fun item => fst item = t0) s ->
  solve (map (fun item => (0%Z, snd item)) s) = Return None.
Proof.
  intros Hne Hs.
  destruct float_same_day_laws as (H1 & H2 & H3 & H4 & H5 & H6 & H7).
  rewrite (solve_same_day H1 H2 H3 H4 H5 H6 H7 t0 s Hne Hs).
  apply secant_constant.
Qed.

End FloatRuns.

(** ** What the solver and xirr raise, in any arithmetic *)

Section Raises.

Context {F : Type} {AF : Arith F}.

Local Open Scope py_scope.
Local Open Scope arith_scope.

Lemma iteration_raises_any (f : F -> outcome F) (eps_y eps_x : F) (n : nat)
    (a_n b_n : F) (prev : option F) (e : exn) :
  iteration f eps_y eps_x n a_n b_n prev = Raise e ->
  e = ConvergenceFailed \/ e = ZeroDivisionError \/ exists x, f x = Raise e.
Proof.
  unfold iteration.
  destruct (f a_n) as [f_a_n|e'] eqn:Ha; cbn [bind];
    [|intros [= ->]; right; right; now exists a_n].
  destruct (f b_n) as [f_b_n|e'] eqn:Hb; cbn [bind];
    [|intros [= ->]; right; right; now exists b_n].
  destruct (div _ _) as [q|e'] eqn:Hq; cbn [bind];
    [|intros [= ->]; right; left; now apply div_raises in Hq].
  destruct (f (a_n - q)) as [f_m_n|e'] eqn:Hm; cbn [bind];
    [|intros [= ->]; right; right; now exists (a_n - q)].
  unfold checkpoint.
  destruct (n mod 100 =? 0)%nat; [destruct prev as [p|]|]; cbn [bind];
    try destruct (p ==? _); cbn [bind];
    try (intros [= <-]; now left);
    intros H; exfalso;
    repeat match type of H with
           | (if ?c then _ else _) = _ => destruct c
           end; discriminate.
Qed.

Lemma secant_raises_any (f : F -> outcome F) (a b : F) (N : nat)
    (eps_y eps_x : F) (e : exn) :
  secant f a b N eps_y eps_x = Raise e ->
  e = ConvergenceFailed \/ e = ZeroDivisionError \/ exists x, f x = Raise e.
Proof.
  unfold secant.
  destruct (f a) as [f_a|e'] eqn:Ha; cbn [bind];
    [|intros [= ->]; right; right; now exists a].
  destruct (f b) as [f_b|e'] eqn:Hb; cbn [bind];
    [|intros [= ->]; right; right; now exists b].
  destruct (f_a * f_b >=? zero); [discriminate|].
  intros H. apply secant_loop_raises in H
    as (k & a_k & b_k & prev_k & _ & _ & Hit).
  now apply iteration_raises_any in Hit.
Qed.

Lemma xirr_raises_any {G : Type} (s : list (entry F)) (g : G) (silent : bool)
    (e : exn) :
  xirr s g silent = Raise e ->
  (e = IndexError /\ s = []) \/
  (e = ConvergenceFailed /\ silent = false) \/
  e = ZeroDivisionError \/
  exists x y, power x y = Raise e.
Proof.
  destruct s as [|x s]; [intros [= <-]; now left|].
  destruct (normalized_nonempty (x :: s) ltac:(discriminate))
    as (t0 & a0 & rest & Hn).
  rewrite (xirr_of_solve _ _ g silent Hn). unfold solve.
  destruct (secant _ _ _ _ _ _) as [r|e'] eqn:Hs; [discriminate|].
  intros H.
  assert (e = ConvergenceFailed /\ silent = false \/ e = e' /\
          e' <> ConvergenceFailed) as [He|[-> Hne]]
      by (destruct e', silent; try discriminate; injection H as <-;
          try (left; now split); right; split; try reflexivity;
          discriminate).
  { right. now left. }
  apply secant_raises_any in Hs as [->|[->|[rate Hs]]].
  - now contradiction Hne.
  - right. right. now left.
  - apply xnpv_raises in Hs as [[_ Hs]|[->|[y Hs]]].
    + discriminate.
    + right. right. now left.
    + right. right. right. now exists (rate + one), y.
Qed.

End Raises.

(** ** Amounts of one sign *)

Section OneSign.

Context {F : Type} {AF : Arith F}.
Variables (negative : bool) (ns : list (entry F)).
Hypothesis laws : one_sign_laws negative ns.

Local Open Scope py_scope.
Local Open Scope arith_scope.

Lemma xnpv_loop_of_sign (items : list (entry F)) (d' : Z)
    (last_raised x v : F) :
  (0 <= d')%Z ->
  Forall (fun item => (d' <= fst item)%Z) items ->
  StronglySorted key_le items ->
  Forall (fun item =>
            forall d, above_zero d -> of_sign negative (quot (snd item) d))
         items ->
  above_zero last_raised -> of_sign negative x ->
  xnpv_loop (ten + one) 0 true items (year_fraction d') last_raised x
    = Return v ->
  of_sign negative v.
Proof.
  revert d' last_raised x.
  induction items as [|[d a] rest IH]; intros d' last_raised x Hd' Hge Hsorted
    Hq Hlr Hx.
  - now intros [= <-].
  - cbn [xnpv_loop fst snd]. unfold div. rewrite (os_year _ _ laws).
    cbn [bind]. rewrite Z.sub_0_r.
    change (quot (of_int d) year_days) with (year_fraction d).
    pose proof (Forall_inv Hge) as Hd. cbn in Hd.
    destruct (power (ten + one) (year_fraction d - year_fraction d'))
      as [raised|] eqn:Hpow; cbn [bind]; [|discriminate].
    apply (os_power _ _ laws) in Hpow; [|lia].
    destruct (raised * last_raised ==? zero) eqn:Hz; cbn [bind];
      [discriminate|].
    apply StronglySorted_inv in Hsorted as [Hsorted Hhd].
    apply IH; try assumption.
    + lia.
    + exact (Forall_inv_tail Hq).
    + now apply (os_mul _ _ laws).
    + apply (os_add _ _ laws); [exact Hx|].
      apply (Forall_inv Hq). now apply (os_mul _ _ laws).
Qed.

Lemma xnpv_ten_of_sign (a : F) (rest : list (entry F)) (v : F) :
  ns = (0%Z, a) :: rest ->
  StronglySorted key_le ns ->
  xnpv ten ns true true = Return v -> of_sign negative v.
Proof.
  intros E Hsorted. unfold xnpv. rewrite E. cbn iota beta. rewrite <- E.
  intros H.
  apply (xnpv_loop_of_sign ns 0%Z one zero v); try assumption; try lia.
  - rewrite E. constructor; [cbn; lia|].
    rewrite E in Hsorted. apply StronglySorted_inv in Hsorted as [_ Hhd].
    exact Hhd.
  - exact (os_quot _ _ laws).
  - exact (os_one _ _ laws).
  - exact (os_zero _ _ laws).
  - now rewrite (os_fraction _ _ laws).
Qed.

Lemma xirr_of_one_sign {G : Type} (s : list (entry F)) (g : G)
    (silent : bool) :
  normalized s = Return ns -> zero_rate_laws ns ->
  xirr s g silent = Return None \/
  exists e, xirr s g silent = Raise e /\
            (e = ZeroDivisionError \/ exists x y, power x y = Raise e).
Proof.
  intros Hn Hzero.
  destruct (normalized_spec s ns Hn) as (Hsorted & (a & rest & E) & _).
  assert (ns <> []) as Hne by (rewrite E; discriminate).
  pose proof (xnpv_rate_zero ns true true Hne Hzero) as H0. cbn iota in H0.
  destruct (xnpv ten ns true true) as [v|e] eqn:H10.
  - left. apply (xirr_initial_check s ns g silent _ _ Hn H0 H10).
    apply (os_product _ _ laws). now apply (xnpv_ten_of_sign a rest).
  - rewrite (xirr_of_solve s ns g silent Hn). unfold solve, secant.
    rewrite H0, H10. cbn [bind].
    apply xnpv_raises in H10 as [[_ H]|H]; [now contradiction Hne|].
    destruct e, silent; try (now left); right; eexists;
      (split; [reflexivity|]);
      (destruct H as [H|[y H]]; [now left|right; eauto]).
Qed.

End OneSign.

(** The sum of the amounts has the sign of the amounts. *)
Lemma fold_amounts_of_sign {F : Type} {AF : Arith F} (negative : bool)
    (l : list (entry F)) (x : F) :
  (forall x t, of_sign negative x -> of_sign negative t ->
               of_sign negative (add x t)) ->
  Forall (fun item => of_sign negative (snd item)) l ->
  of_sign negative x ->
  of_sign negative (fold_left (fun x item => add x (snd item)) l x).
Proof.
  intros Hadd Hl. revert x. induction Hl as [|item l Hi _ IH]; intros x Hx;
    [exact Hx|].
  cbn. apply IH. now apply Hadd.
Qed.

Lemma fold_amounts_offsets {F : Type} {AF : Arith F} (t0 : Z)
    (l : list (entry F)) (x : F) :
  fold_left (fun x item => add x (snd item))
    (map (fun e => (days (fst e - t0), snd e)) l) x =
  fold_left (fun x item => add x (snd item)) l x.
Proof.
  revert x. induction l as [|item l IH]; intros x; [reflexivity|].
  cbn. apply IH.
Qed.

Lemma sum_amounts_normalized {F : Type} {AF : Arith F}
    (s ns : list (entry F)) :
  normalized s = Return ns -> sum_amounts ns = sum_amounts (sorted s).
Proof.
  unfold normalized. rewrite map_to_float.
  destruct (sorted s) as [|[t0 a] rest]; [discriminate|].
  intros H.
  assert (ns = map (fun e => (days (fst e - t0), snd e)) ((t0, a) :: rest))
    as -> by (now injection H as <-).
  apply fold_amounts_offsets.
Qed.

Lemma normalized_amounts_any {F : Type} {AF : Arith F} (P : F -> Prop)
    (s ns : list (entry F)) :
  normalized s = Return ns ->
  Forall (fun item => P (snd item)) s -> Forall (fun item => P (snd item)) ns.
Proof.
  unfold normalized. rewrite map_to_float.
  pose proof (sorted_perm s) as Hp.
  destruct (sorted s) as [|[t0 a] rest]; [discriminate|].
  intros H Hs.
  assert (ns = map (fun e => (days (fst e - t0), snd e)) ((t0, a) :: rest))
    as -> by (now injection H as <-).
  rewrite <- Hp in Hs. rewrite Forall_map. exact Hs.
Qed.

Module FloatSigns.

Import FloatFacts.
Local Open Scope Z_scope.

Lemma binary_round_aux_of_sign (sx : bool) (m e : Z) (l : location) :
  0 <= m -> sf_of_sign sx (binary_round_aux prec emax sx m e l).
Proof.
  intros Hm. unfold binary_round_aux.
  pose proof (shr_fexp_nonneg m e l Hm) as H1.
  destruct (shr_fexp prec emax m e l) as [mrs' e']. cbn [fst] in H1.
  pose proof (shr_fexp_nonneg _ e' loc_Exact
                (round_nearest_even_nonneg _ (loc_of_shr_record mrs') H1))
    as H2.
  destruct (shr_fexp prec emax _ e' loc_Exact) as [mrs'' e''].
  cbn [fst] in H2.
  destruct (shr_m mrs'') as [|p|p]; [exact I| |lia].
  now destruct (e'' <=? emax - prec).
Qed.

Lemma binary_round_of_sign (sx : bool) (m : positive) (e : Z) :
  sf_of_sign sx (binary_round prec emax sx m e).
Proof.
  unfold binary_round.
  destruct (shl_align m e _) as [mz ez].
  apply binary_round_aux_of_sign. lia.
Qed.

Lemma SFadd_of_sign (n : bool) (x y : spec_float) :
  sf_of_sign n x -> sf_of_sign n y -> sf_of_sign n (SF64add x y).
Proof.
  destruct x as [sx|sx| |sx mx ex], y as [sy|sy| |sy my ey]; cbn;
    try easy; try (intros -> ->; now destruct n);
    try (destruct sx, sy; easy).
  intros -> ->. unfold SF64add, SFadd, binary_normalize.
  destruct n; cbn [cond_Zopp Z.add Z.opp]; apply binary_round_of_sign.
Qed.

Lemma div_eucl_nonneg (a : Z) (b : positive) :
  0 <= a -> 0 <= fst (Z.div_eucl a (Zpos b)).
Proof.
  intros Ha. pose proof (Z.div_pos a (Zpos b) Ha ltac:(lia)) as H.
  unfold Z.div in H. now destruct (Z.div_eucl a (Zpos b)).
Qed.

Lemma SFdiv_of_sign (n : bool) (a d : spec_float) :
  sf_of_sign n a ->
  match a with S754_infinity _ => False | _ => True end ->
  sf_above_zero d -> sf_of_sign n (SF64div a d).
Proof.
  destruct a as [sa|sa| |sa ma ea], d as [sd|[]| |[] md ed]; cbn;
    try easy.
  intros -> _ _. unfold SF64div, SFdiv, SFdiv_core_binary.
  rewrite xorb_false_r.
  match goal with
  | |- context [Z.div_eucl ?m' (Zpos md)] =>
      pose proof (div_eucl_nonneg m' md) as Hq;
      destruct (Z.div_eucl m' (Zpos md)) as [q r]
  end.
  apply binary_round_aux_of_sign. apply Hq.
  destruct (ea - ed - _) as [|p|p]; try lia.
  apply Z.shiftl_nonneg. lia.
Qed.

Lemma SFmul_above_zero (x y : spec_float) :
  sf_above_zero x -> sf_above_zero y ->
  SFeqb (SF64mul x y) (S754_zero false) = false ->
  sf_above_zero (SF64mul x y).
Proof.
  destruct x as [sx|[]| |[] mx ex], y as [sy|[]| |[] my ey]; cbn;
    try easy.
  intros _ _. unfold SF64mul, SFmul. cbn [xorb].
  pose proof (binary_round_aux_of_sign false (Zpos (mx * my)) (ex + ey)
                loc_Exact ltac:(lia)) as H.
  destruct (binary_round_aux prec emax false _ _ _) as [s|s| |s m e];
    cbn in *; subst; easy.
Qed.

Lemma SFmul_proper (n : bool) (x y : spec_float) :
  sf_proper n x -> sf_of_sign n y -> sf_of_sign false (SF64mul x y).
Proof.
  destruct x as [sx|sx| |sx mx ex], y as [sy|sy| |sy my ey]; cbn;
    try easy.
  - intros -> ->. now destruct n.
  - intros -> ->. unfold SF64mul, SFmul. rewrite xorb_nilpotent.
    apply binary_round_aux_of_sign. lia.
Qed.

Local Open Scope float_scope.

Lemma of_sign_spec (pw : float -> float -> outcome float) (n : bool)
    (x : float) :
  @of_sign float (float_with pw) n x <-> sf_of_sign n (Prim2SF x).
Proof.
  unfold of_sign. cbn [geb zero float_with].
  rewrite !FloatAxioms.leb_spec.
  change (Prim2SF 0) with (S754_zero false).
  destruct n, (Prim2SF x) as [s|[]| |[] m e]; cbn; split; easy.
Qed.

Lemma above_zero_spec (pw : float -> float -> outcome float) (x : float) :
  @above_zero float (float_with pw) x <-> sf_above_zero (Prim2SF x).
Proof.
  unfold above_zero. cbn [ltb zero float_with].
  rewrite FloatAxioms.ltb_spec.
  change (Prim2SF 0) with (S754_zero false).
  destruct (Prim2SF x) as [s|[]| |[] m e]; cbn; split; easy.
Qed.

Lemma is_finite_spec (x : float) :
  is_finite x = true ->
  match Prim2SF x with
  | S754_zero _ | S754_finite _ _ _ => True
  | _ => False
  end.
Proof.
  unfold is_finite. rewrite negb_true_iff, orb_false_iff.
  intros [Hnan Hinf]. apply is_nan_false in Hnan.
  unfold is_infinity in Hinf.
  rewrite FloatAxioms.eqb_spec, FloatAxioms.abs_spec in Hinf.
  change (Prim2SF infinity) with (S754_infinity false) in Hinf.
  destruct (Prim2SF x) as [s|s| |s m e]; cbn in *; easy.
Qed.

Section Laws.

Variable pw : float -> float -> outcome float.

Hypothesis power_of_one : forall y, pw 1 y = Return 1.
Hypothesis power_of_eleven : forall d d' r,
  (0 <= d' <= d)%Z ->
  pw 11 (float_of_int d / 365 - float_of_int d' / 365) = Return r ->
  (0 <? r) = true.

Lemma float_with_zero_rate_laws (s : list (entry float)) :
  @zero_rate_laws float (float_with pw) s.
Proof.
  constructor; try (vm_compute; reflexivity).
  - exact power_of_one.
  - apply Forall_forall. intros item _. apply float_div_one.
Qed.

Lemma float_add_of_sign (n : bool) (x t : float) :
  @of_sign float (float_with pw) n x -> @of_sign float (float_with pw) n t ->
  @of_sign float (float_with pw) n (x + t).
Proof.
  rewrite !of_sign_spec, FloatAxioms.add_spec. apply SFadd_of_sign.
Qed.

Lemma float_one_sign_laws (n : bool) (ns : list (entry float)) :
  Forall (fun item =>
            @of_sign float (float_with pw) n (snd item) /\
            is_finite (snd item) = true) ns ->
  is_finite (@sum_amounts float (float_with pw) ns) = true ->
  (@sum_amounts float (float_with pw) ns =? 0) = false ->
  @one_sign_laws float (float_with pw) n ns.
Proof.
  intros Hns Hfin Hnz. constructor.
  - vm_compute. reflexivity.
  - vm_compute. reflexivity.
  - vm_compute. reflexivity.
  - destruct n; vm_compute; reflexivity.
  - apply float_add_of_sign.
  - eapply Forall_impl; [|exact Hns]. intros item [Hs Hf] d Hd.
    apply of_sign_spec. apply of_sign_spec in Hs.
    apply above_zero_spec in Hd. apply is_finite_spec in Hf.
    cbn [quot float_with]. rewrite FloatAxioms.div_spec.
    apply SFdiv_of_sign; try assumption.
    now destruct (Prim2SF (snd item)).
  - intros x y Hx Hy Hz.
    apply above_zero_spec. apply above_zero_spec in Hx, Hy.
    cbn [eqb mul zero float_with] in *.
    rewrite FloatAxioms.eqb_spec in Hz. rewrite FloatAxioms.mul_spec in *.
    now apply SFmul_above_zero.
  - intros d d' r Hd Hr. exact (power_of_eleven d d' r Hd Hr).
  - intros y Hy. apply of_sign_spec in Hy.
    assert (@of_sign float (float_with pw) n
              (@sum_amounts float (float_with pw) ns)) as Hsum.
    { apply fold_amounts_of_sign.
      - apply float_add_of_sign.
      - eapply Forall_impl; [|exact Hns]. now intros item [Hs _].
      - destruct n; vm_compute; reflexivity. }
    apply of_sign_spec in Hsum. apply is_finite_spec in Hfin.
    rewrite FloatAxioms.eqb_spec in Hnz.
    change (Prim2SF 0) with (S754_zero false) in Hnz.
    cbn [geb mul zero float_with].
    change ((0 <=? @sum_amounts float (float_with pw) ns * y) = true)
      with (@of_sign float (float_with pw) false
              (@sum_amounts float (float_with pw) ns * y)).
    apply of_sign_spec. rewrite FloatAxioms.mul_spec.
    apply (SFmul_proper n); [|exact Hy].
    destruct (Prim2SF (@sum_amounts float (float_with pw) ns))
      as [s|s| |s m e]; cbn in *; easy.
Qed.

Lemma float_xirr_of_one_sign {G : Type} (n : bool) (s : list (entry float))
    (g : G) (silent : bool) :
  s <> [] ->
  Forall (fun item =>
            @of_sign float (float_with pw) n (snd item) /\
            is_finite (snd item) = true) s ->
  is_finite (@sum_amounts float (float_with pw) (sorted s)) = true ->
  (@sum_amounts float (float_with pw) (sorted s) =? 0) = false ->
  @xirr float (float_with pw) G s g silent = Return None \/
  exists e, @xirr float (float_with pw) G s g silent = Raise e /\
            (e = ZeroDivisionError \/ exists x y, pw x y = Raise e).
Proof.
  intros Hne Hs Hfin Hnz.
  destruct (normalized_nonempty s Hne) as (t0 & a & rest & Hn).
  apply (@xirr_of_one_sign float (float_with pw) n _) with (2 := Hn).
  - apply float_one_sign_laws.
    + apply (@normalized_amounts_any float (float_with pw)
               (fun v => @of_sign float (float_with pw) n v /\
                         is_finite v = true) s _ Hn Hs).
    + now rewrite (@sum_amounts_normalized float (float_with pw) s _ Hn).
    + now rewrite (@sum_amounts_normalized float (float_with pw) s _ Hn).
  - apply float_with_zero_rate_laws.
Qed.

End Laws.

Lemma float_of_sign (pw : float -> float -> outcome float) (n : bool)
    (a : float) :
  (if n then a <=? 0 else 0 <=? a) = true ->
  @of_sign float (float_with pw) n a.
Proof. now destruct n. Qed.

End FloatSigns.

(** * The further statements *)


(** ** The runs of the solver *)

(** X1.  A rate that [secant] returns is the estimate of one of its [N]
    iterations, and in that iteration one of the two tolerances was met:
    the bracket was narrower than [eps_x], or the objective at the rate
    was below [eps_y] in absolute value.  So it is for the rate that
    [xirr] returns, with the NPV of the normalized series as objective and
    [1e-6] for both tolerances. *)
Theorem secant_result_meets_a_tolerance (F : Type) (AF : Arith F) :
  (forall (f : F -> outcome F) (a b : F) (N : nat) (eps_y eps_x m : F),
      secant f a b N eps_y eps_x = Return (Some m) ->
      exists n a_n b_n prev f_m,
        (1 <= n <= N)%nat /\
        state_after f eps_y eps_x (seq 1 (n - 1)) a b None
          = Some (a_n, b_n, prev) /\
        estimate f a_n b_n = Return m /\ f m = Return f_m /\
        (ltb (absv (sub b_n a_n)) eps_x = true \/
         ltb (absv f_m) eps_y = true))
  /\
  (forall (G : Type) (s : list (entry F)) (g : G) (silent : bool) (r : F),
      xirr s g silent = Return (Some r) ->
      exists ns n a_n b_n prev npv,
        normalized s = Return ns /\ (1 <= n <= 2000)%nat /\
        state_after (fun rate => xnpv rate ns true true)
          eps_default eps_default (seq 1 (n - 1)) zero ten None
          = Some (a_n, b_n, prev) /\
        estimate (fun rate => xnpv rate ns true true) a_n b_n = Return r /\
        xnpv r ns true true = Return npv /\
        (ltb (absv (sub b_n a_n)) eps_default = true \/
         ltb (absv npv) eps_default = true)).
Proof.
  split.
  - intros f a b N eps_y eps_x m. apply secant_Some.
  - intros G s g silent r. unfold xirr.
    destruct (normalized s) as [ns|]; cbn [bind]; [|discriminate].
    destruct (solve ns) as [[r'|]|e] eqn:Hsolve.
    + intros [= ->]. unfold solve in Hsolve. apply secant_Some in Hsolve
        as (n & a_n & b_n & prev & npv & H).
      now exists ns, n, a_n, b_n, prev, npv.
    + discriminate.
    + destruct e, silent; discriminate.
Qed.

(** X2.  For an objective that does not raise [ConvergenceFailed]
    itself, [secant] raises it exactly when the run gets to an iteration
    [100 * j] with [2 <= j] and [100 * j <= N] whose estimate equals the
    estimate of iteration 100.  With fewer than 200 iterations it is
    never raised. *)
Theorem secant_reports_stall_iff (F : Type) (AF : Arith F)
    (f : F -> outcome F) (a b : F) (N : nat) (eps_y eps_x : F) :
  (forall x, f x <> Raise ConvergenceFailed) ->
  (secant f a b N eps_y eps_x = Raise ConvergenceFailed <->
   exists j f_a f_b m_100 m_n f_m_n,
     (2 <= j)%nat /\ (100 * j <= N)%nat /\
     f a = Return f_a /\ f b = Return f_b /\
     geb (mul f_a f_b) zero = false /\
     estimate_at f a b eps_y eps_x 100 = Some m_100 /\
     estimate_at f a b eps_y eps_x (100 * j) = Some m_n /\
     f m_n = Return f_m_n /\ eqb m_100 m_n = true) /\
  (forall N', (N' < 200)%nat ->
              secant f a b N' eps_y eps_x <> Raise ConvergenceFailed).
Proof.
  intros Hf. split; [split|].
  - now apply secant_stalls_inv.
  - intros (j & f_a & f_b & m_100 & m_n & f_m_n & Hj & HN & Ha & Hb & Hs
            & H100 & Hn & Hm & Heq).
    now apply (stall_against_first_checkpoint f eps_y eps_x a b N j
                 f_a f_b m_100 m_n f_m_n).
  - intros N' HN' H. apply (secant_stalls_inv f eps_y eps_x Hf) in H
      as (j & _ & _ & _ & _ & _ & Hj & HN & _). lia.
Qed.

(** X3.  The iterations are a budget: when all [N] iterations go on,
    [secant] returns [None] and the last estimate is lost; and a rate or an
    exception that [secant] gives with [N] iterations it gives with every
    larger number of iterations. *)
Theorem secant_iteration_budget (F : Type) (AF : Arith F)
    (f : F -> outcome F) (a b : F) (N : nat) (eps_y eps_x : F) :
  (forall f_a f_b st,
      f a = Return f_a -> f b = Return f_b ->
      state_after f eps_y eps_x (seq 1 N) a b None = Some st ->
      secant f a b N eps_y eps_x = Return None) /\
  (forall N' r,
      (N <= N')%nat -> secant f a b N eps_y eps_x = r -> r <> Return None ->
      secant f a b N' eps_y eps_x = r).
Proof.
  split.
  - intros f_a f_b st Ha Hb Hst. unfold secant. rewrite Ha, Hb. cbn [bind].
    destruct (geb (mul f_a f_b) zero); [reflexivity|].
    now apply (secant_loop_exhausted f eps_y eps_x _ _ _ _ st).
  - intros N' r. apply secant_longer.
Qed.

(** X4.  The division of [secant] (line 50) never fails, on floats and
    in exact arithmetic.  In every iteration that a run gets to, the
    objective has values at the two ends of the bracket and their
    difference is not zero, so the division returns; and an exception
    that [secant] raises is [ConvergenceFailed], or the objective raised
    it at [a], at [b] or at the estimate of an iteration that the run got
    to. *)
Theorem secant_division_is_safe :
  (forall (f : float -> outcome float) (a b eps_y eps_x : float),
      (forall k a_k b_k,
          reached f eps_y eps_x a b k a_k b_k ->
          exists f_a_k f_b_k,
            f a_k = Return f_a_k /\ f b_k = Return f_b_k /\
            div (mul f_a_k (sub b_k a_k)) (sub f_b_k f_a_k) =
              Return (quot (mul f_a_k (sub b_k a_k)) (sub f_b_k f_a_k))) /\
      (forall N e,
          secant f a b N eps_y eps_x = Raise e ->
          e = ConvergenceFailed \/ f a = Raise e \/ f b = Raise e \/
          exists k a_k b_k m_k,
            (k < N)%nat /\ reached f eps_y eps_x a b k a_k b_k /\
            estimate f a_k b_k = Return m_k /\ f m_k = Raise e))
  /\
  (forall (f : R -> outcome R) (a b eps_y eps_x : R),
      (forall k a_k b_k,
          reached f eps_y eps_x a b k a_k b_k ->
          exists f_a_k f_b_k,
            f a_k = Return f_a_k /\ f b_k = Return f_b_k /\
            div (mul f_a_k (sub b_k a_k)) (sub f_b_k f_a_k) =
              Return (quot (mul f_a_k (sub b_k a_k)) (sub f_b_k f_a_k))) /\
      (forall N e,
          secant f a b N eps_y eps_x = Raise e ->
          e = ConvergenceFailed \/ f a = Raise e \/ f b = Raise e \/
          exists k a_k b_k m_k,
            (k < N)%nat /\ reached f eps_y eps_x a b k a_k b_k /\
            estimate f a_k b_k = Return m_k /\ f m_k = Raise e)).
Proof.
  split.
  - intros f a b eps_y eps_x. split.
    + intros k a_k b_k Hr.
      apply (@estimate_of_ends_apart float float_arith f).
      exact (@reached_ends_apart float float_arith f eps_y eps_x
               FloatSafe.float_below_zero FloatSafe.float_apart
               a b k a_k b_k Hr).
    + intros N e.
      exact (@secant_raises_at float float_arith f eps_y eps_x
               FloatSafe.float_below_zero FloatSafe.float_apart a b N e).
  - intros f a b eps_y eps_x. split.
    + intros k a_k b_k Hr.
      apply (@estimate_of_ends_apart R real_arith f).
      exact (@reached_ends_apart R real_arith f eps_y eps_x
               ExactSafe.real_below_zero ExactSafe.real_apart
               a b k a_k b_k Hr).
    + intros N e.
      exact (@secant_raises_at R real_arith f eps_y eps_x
               ExactSafe.real_below_zero ExactSafe.real_apart a b N e).
Qed.

(** X5.  In exact arithmetic [secant] on [a < b] reads the objective
    inside [[a, b]] only: two objectives that agree there have the same
    outcome. *)
Theorem secant_reads_the_bracket_only (f g : R -> outcome R) (a b : R)
    (N : nat) (eps_y eps_x : R) :
  (a < b)%R ->
  (forall x, (a <= x <= b)%R -> f x = g x) ->
  secant g a b N eps_y eps_x = secant f a b N eps_y eps_x.
Proof. intros Hab Hfg. now apply ExactSolver.secant_local. Qed.

(** X6.  The exceptions of [xirr], in any arithmetic.  On the empty
    series [xirr] raises [IndexError], whatever [silent] is.  An exception
    that [xirr] raises is that [IndexError] of the empty series,
    [ConvergenceFailed] with [silent=False], a [ZeroDivisionError], or an
    exception that [**] raised ([OverflowError] on floats).  So when [**]
    does not raise [IndexError], the empty series is the only one on which
    [xirr] raises it. *)
Theorem xirr_exceptions (F : Type) (AF : Arith F) (G : Type)
    (s : list (entry F)) (g : G) (silent : bool) :
  (s = [] -> xirr s g silent = Raise IndexError) /\
  (forall e,
      xirr s g silent = Raise e ->
      (e = IndexError /\ s = []) \/
      (e = ConvergenceFailed /\ silent = false) \/
      e = ZeroDivisionError \/
      exists x y, power x y = Raise e) /\
  ((forall x y, power x y <> Raise IndexError) ->
   (xirr s g silent = Raise IndexError <-> s = [])).
Proof.
  split; [|split].
  - now intros ->.
  - intros e. apply xirr_raises_any.
  - intros Hpow. split; [|now intros ->].
    intros H. apply xirr_raises_any in H
      as [[_ H]|[[H _]|[H|(x & y & H)]]]; try easy.
    now apply Hpow in H.
Qed.

(** ** The evaluator *)

(** X7.  In exact arithmetic and at a rate above [-1], the running power
    of [xnpv] gives the sum of its docstring: each amount divided by
    [(1 + rate) ** ((t - t0) / 365)], with [t0] the date of the first
    entry of the list that the loop reads. *)
Theorem xnpv_is_the_discounted_sum (rate : R) (s : list (entry R))
    (sorted_ already_day_diffs : bool) (t0 : Z) (a : R)
    (rest : list (entry R)) :
  (-1 < rate)%R ->
  (if sorted_ then s else sorted s) = (t0, a) :: rest ->
  xnpv rate s sorted_ already_day_diffs = Return (present_value rate t0 s).
Proof. apply ExactValue.xnpv_closed. Qed.

(** X8.  In exact arithmetic, [xnpv] at the rate [-1] raises
    [ZeroDivisionError] as soon as one entry has another date than the
    first entry of the list that the loop reads. *)
Theorem xnpv_rate_minus_one_fails (s : list (entry R))
    (sorted_ already_day_diffs : bool) (t0 : Z) (a : R)
    (rest : list (entry R)) :
  (if sorted_ then s else sorted s) = (t0, a) :: rest ->
  Exists (fun item => fst item <> t0) s ->
  xnpv (-1)%R s sorted_ already_day_diffs = Raise ZeroDivisionError.
Proof. apply ExactValue.xnpv_rate_minus_one. Qed.


(** X10.  In exact arithmetic, the series with every amount replaced by
    its opposite has the same outcome of [xirr]. *)
Theorem xirr_opposite_amounts (G : Type) (s : list (entry R)) (g : G)
    (silent : bool) :
  xirr (scale (-1)%R s) g silent = xirr s g silent.
Proof. apply ExactSolver.xirr_opposite. Qed.

(** X11.  Only the distances between the dates matter: moving every date
    of a series by the same number of days changes neither [xnpv] nor
    [xirr], in any arithmetic. *)
Theorem dates_shifted (F : Type) (AF : Arith F) (G : Type) (k : Z)
    (s : list (entry F)) :
  (forall rate sorted_ already_day_diffs,
      xnpv rate (shift k s) sorted_ already_day_diffs =
        xnpv rate s sorted_ already_day_diffs) /\
  (forall (g : G) silent, xirr (shift k s) g silent = xirr s g silent).
Proof.
  split.
  - intros. apply xnpv_shift.
  - intros. apply xirr_shift.
Qed.

(** X12.  [xirr] is the solver on [xnpv] as a caller has it: the NPV of
    the normalized series is [xnpv(rate, cash_flow, False)] at every rate,
    and on a series that is not empty [xirr] is [secant] on that function
    over [[0, 10]] with 2000 iterations, inside its [try]. *)
Theorem xirr_is_the_solver_on_xnpv (F : Type) (AF : Arith F) (G : Type)
    (s : list (entry F)) (g : G) (silent : bool) :
  s <> [] ->
  (forall ns rate,
      normalized s = Return ns ->
      xnpv rate ns true true = xnpv rate s false false) /\
  xirr s g silent =
    handled silent
      (secant (fun rate => xnpv rate s false false)
         zero ten 2000 eps_default eps_default).
Proof.
  intros Hs. split.
  - intros ns rate. apply xnpv_normalized.
  - now apply xirr_solves_xnpv.
Qed.

(** X13.  On a list that is in the order of its dates already, [xnpv]
    gives the same with [sorted_=False] as with [sorted_=True]. *)
Theorem xnpv_sorted_flag_on_sorted_input (F : Type) (AF : Arith F)
    (rate : F) (cash_flow : list (entry F)) (already_day_diffs : bool) :
  StronglySorted key_le cash_flow ->
  xnpv rate cash_flow false already_day_diffs =
    xnpv rate cash_flow true already_day_diffs.
Proof. apply xnpv_sorted_flag. Qed.

(** X14.  The series that [xirr] hands to the solver: it is in the order
    of its day offsets, it starts at the offset [0], no offset is negative,
    its amounts are the amounts of the input, and normalizing it again
    gives the same series. *)
Theorem normalized_series (F : Type) (AF : Arith F)
    (s ns : list (entry F)) :
  normalized s = Return ns ->
  StronglySorted key_le ns /\
  (exists a rest, ns = (0%Z, a) :: rest) /\
  Forall (fun e => (0 <= fst e)%Z) ns /\
  Permutation (map snd ns) (map snd s) /\
  normalized ns = Return ns.
Proof. apply normalized_spec. Qed.

(** X15.  A series whose entries all have the same date: its NPV is the
    sum of its amounts at every rate, and [xirr] returns [None].  On floats
    (the amounts added from [0.0] in the order of the list, NaN and
    infinities included) and in exact arithmetic. *)
Theorem series_on_one_day :
  (forall (G : Type) (s : list (entry float)) (t0 : Z) (g : G)
          (silent : bool),
      s <> [] -> Forall (fun item => fst item = t0) s ->
      (forall rate sorted_ already_day_diffs,
          xnpv rate s sorted_ already_day_diffs = Return (sum_amounts s)) /\
      xirr s g silent = Return None)
  /\
  (forall (G : Type) (s : list (entry R)) (t0 : Z) (g : G) (silent : bool),
      s <> [] -> Forall (fun item => fst item = t0) s ->
      (forall rate sorted_ already_day_diffs,
          xnpv rate s sorted_ already_day_diffs = Return (sum_amounts s)) /\
      xirr s g silent = Return None).
Proof.
  split.
  - intros G s t0 g silent Hne Hs. split.
    + intros rate sorted_ already_day_diffs.
      now apply (FloatRuns.float_xnpv_same_day rate t0).
    + rewrite (xirr_of_solve s _ g silent
                 (normalized_same_day t0 s Hne Hs)).
      now rewrite (FloatRuns.float_solve_same_day t0 s Hne Hs).
  - intros G s t0 g silent Hne Hs.
    pose proof (ExactFacts.real_single_entry_laws 0)
      as [Hyear Hfr Hexp Hpow H11 H1 _ _].
    assert (forall a : R, quot a one = a) as Hq by (intros a; cbn; field).
    split.
    + intros rate sorted_ already_day_diffs.
      apply (xnpv_same_day Hyear Hfr Hexp Hpow H11 H1 Hq rate t0);
        assumption.
    + rewrite (xirr_of_solve s _ g silent
                 (normalized_same_day t0 s Hne Hs)).
      rewrite (solve_same_day Hyear Hfr Hexp Hpow H11 H1 Hq t0 s Hne Hs).
      rewrite (secant_initial_check _ _ _ _ _ _
                 (sum_amounts s) (sum_amounts s)); try reflexivity.
      apply ExactFacts.geb_true. cbn [mul zero real_arith]. nra.
Qed.

(** X16.  In exact arithmetic, on a line [k * x + c] that changes sign
    between [a] and [b], [secant] with a tolerance [eps_y > 0] and at
    least one iteration returns the root of the line: the first estimate
    is exact. *)
Theorem secant_exact_on_a_line (k c a b eps_y eps_x : R) (N : nat) :
  ((k * a + c) * (k * b + c) < 0)%R -> (0 < eps_y)%R -> (1 <= N)%nat ->
  exists r,
    secant (fun x => Return (k * x + c)%R) a b N eps_y eps_x
      = Return (Some r) /\
    (k * r + c = 0)%R.
Proof. apply ExactSolver.secant_of_line. Qed.

(** X17.  With tolerances that are not above zero [secant] returns no
    rate, whatever the objective does (an exact root included): it returns
    [None] or raises.  On floats and in exact arithmetic. *)
Theorem secant_needs_a_tolerance :
  (forall (f : float -> outcome float) (a b : float) (N : nat)
          (eps_y eps_x m : float),
      (0 <? eps_y)%float = false -> (0 <? eps_x)%float = false ->
      secant f a b N eps_y eps_x <> Return (Some m))
  /\
  (forall (f : R -> outcome R) (a b : R) (N : nat) (eps_y eps_x m : R),
      (eps_y <= 0)%R -> (eps_x <= 0)%R ->
      secant f a b N eps_y eps_x <> Return (Some m)).
Proof.
  split.
  - intros f a b N eps_y eps_x m Hy Hx.
    apply (@secant_returns_no_rate float float_arith).
    + intros x. now apply FloatRuns.abs_not_below.
    + intros x. now apply FloatRuns.abs_not_below.
  - intros f a b N eps_y eps_x m Hy Hx.
    apply (@secant_returns_no_rate R real_arith).
    + intros x. apply ExactFacts.ltb_false. pose proof (Rabs_pos x).
      cbn [absv real_arith]. lra.
    + intros x. apply ExactFacts.ltb_false. pose proof (Rabs_pos x).
      cbn [absv real_arith]. lra.
Qed.

(** X19.  In exact arithmetic the order of the two ends does not
    matter: when the objective returns at [a] and at [b],
    [secant(f, b, a, N)] has the outcome of [secant(f, a, b, N)]. *)
Theorem secant_ends_exchanged (f : R -> outcome R) (a b : R) (N : nat)
    (eps_y eps_x f_a f_b : R) :
  f a = Return f_a -> f b = Return f_b ->
  secant f b a N eps_y eps_x = secant f a b N eps_y eps_x.
Proof. apply ExactSwap.secant_exchanged. Qed.

(** X20.  With [sorted_=False] the order of the list does not matter to
    [xnpv]: two orders of a series give the same when no date occurs twice
    in it, in any arithmetic, and always in exact arithmetic. *)
Theorem xnpv_order_of_input :
  (forall (F : Type) (AF : Arith F) (rate : F) (s s' : list (entry F))
          (already_day_diffs : bool),
      NoDup (map fst s) -> Permutation s s' ->
      xnpv rate s' false already_day_diffs =
        xnpv rate s false already_day_diffs)
  /\
  (forall (rate : R) (s s' : list (entry R)) (already_day_diffs : bool),
      Permutation s s' ->
      xnpv rate s' false already_day_diffs =
        xnpv rate s false already_day_diffs).
Proof.
  split.
  - intros F AF. exact xnpv_permutation_distinct.
  - exact xnpv_permutation_exact.
Qed.

(** ** xirr_scipy *)

(** X18.  [xirr_scipy] hands the payments to the library through
    [dict]: payments with pairwise distinct dates arrive as they are, and
    of two payments with the same date the amount of the earlier one never
    arrives. *)
Theorem xirr_scipy_keeps_last_amount (V A : Type)
    (library_xirr : list (Z * V) -> A) :
  (forall payments,
      NoDup (map fst payments) ->
      xirr_scipy library_xirr payments = library_xirr payments) /\
  (forall d a b a' p1 p2 p3,
      xirr_scipy library_xirr (p1 ++ (d, a) :: p2 ++ (d, a') :: p3) =
      xirr_scipy library_xirr (p1 ++ (d, b) :: p2 ++ (d, a') :: p3)).
Proof.
  split.
  - intros payments H. unfold xirr_scipy. now rewrite dict_distinct.
  - intros. unfold xirr_scipy. f_equal. apply dict_overwritten.
Qed.

(** ** The further statements applied to inputs *)

Module Instances.

Import Inputs Samples.
Local Open Scope float_scope.

Lemma secant_result_meets_a_tolerance_witness :
  exists ns n a_n b_n prev npv,
    normalized doubling = Return ns /\ (1 <= n <= 2000)%nat /\
    state_after (fun rate => xnpv rate ns true true)
      eps_default eps_default (seq 1 (n - 1)) zero ten None
      = Some (a_n, b_n, prev) /\
    estimate (fun rate => xnpv rate ns true true) a_n b_n
      = Return 0x1.0000120000001p+0 /\
    xnpv 0x1.0000120000001p+0 ns true true = Return npv /\
    (ltb (absv (sub b_n a_n)) eps_default = true \/
     ltb (absv npv) eps_default = true).
Proof.
  apply (proj2 (secant_result_meets_a_tolerance float float_arith)
           unit doubling tt false 0x1.0000120000001p+0).
  vm_compute. reflexivity.
Defined.

Lemma secant_reports_stall_witness :
  (secant stalling_early 0 10 2000 eps_default eps_default
     = Raise ConvergenceFailed <->
   exists j f_a f_b m_100 m_n f_m_n,
     (2 <= j)%nat /\ (100 * j <= 2000)%nat /\
     stalling_early 0 = Return f_a /\ stalling_early 10 = Return f_b /\
     geb (mul f_a f_b) zero = false /\
     estimate_at stalling_early 0 10 eps_default eps_default 100
       = Some m_100 /\
     estimate_at stalling_early 0 10 eps_default eps_default (100 * j)
       = Some m_n /\
     stalling_early m_n = Return f_m_n /\ eqb m_100 m_n = true) /\
  (forall N', (N' < 200)%nat ->
              secant stalling_early 0 10 N' eps_default eps_default
                <> Raise ConvergenceFailed).
Proof.
  apply (secant_reports_stall_iff float float_arith stalling_early 0 10
           2000%nat eps_default eps_default).
  intros x. discriminate.
Defined.

Lemma secant_iteration_budget_witness :
  secant golden 1 2 5 eps_default eps_default = Return None /\
  secant golden 1 2 3000 eps_default eps_default
    = Return (Some 0x1.9e3776c8602e3p+0).
Proof.
  split.
  - refine (proj1 (secant_iteration_budget float float_arith golden 1 2
                     5%nat eps_default eps_default)
              (-1) 1 (0x1.9e33c678cf19ep+0, 2, None) _ _ _);
      vm_compute; reflexivity.
  - refine (proj2 (secant_iteration_budget float float_arith golden 1 2
                     8%nat eps_default eps_default)
              3000%nat _ _ _ _); [lia|vm_compute; reflexivity|discriminate].
Defined.

Lemma secant_division_is_safe_witness :
  (exists f_a_k f_b_k,
      stalling_early 0 = Return f_a_k /\ stalling_early 10 = Return f_b_k /\
      div (mul f_a_k (sub 10 0)) (sub f_b_k f_a_k) =
        Return (quot (mul f_a_k (sub 10 0)) (sub f_b_k f_a_k))) /\
  (ConvergenceFailed = ConvergenceFailed \/
   stalling_early 0 = Raise ConvergenceFailed \/
   stalling_early 10 = Raise ConvergenceFailed \/
   exists k a_k b_k m_k,
     (k < 2000)%nat /\
     reached stalling_early eps_default eps_default 0 10 k a_k b_k /\
     estimate stalling_early a_k b_k = Return m_k /\
     stalling_early m_k = Raise ConvergenceFailed) /\
  (OverflowError = ConvergenceFailed \/
   failing 0%R = Raise OverflowError \/ failing 2%R = Raise OverflowError \/
   exists k a_k b_k m_k,
     (k < 2000)%nat /\
     reached failing eps_default eps_default 0%R 2%R k a_k b_k /\
     estimate failing a_k b_k = Return m_k /\
     failing m_k = Raise OverflowError).
Proof.
  split; [|split].
  - apply (proj1 (proj1 secant_division_is_safe stalling_early 0 10
                    eps_default eps_default) 0%nat 0 10).
    exists (- 0x1p70), 0x1p64, None.
    repeat split; vm_compute; reflexivity.
  - apply (proj2 (proj1 secant_division_is_safe stalling_early 0 10
                    eps_default eps_default) 2000%nat ConvergenceFailed).
    vm_compute. reflexivity.
  - apply (proj2 (proj2 secant_division_is_safe failing 0%R 2%R
                    eps_default eps_default) 2000%nat OverflowError).
    unfold secant, failing.
    destruct (Rle_dec 0 1) as [_|H]; [|lra].
    destruct (Rle_dec 2 1) as [H|_]; [lra|]. reflexivity.
Defined.

Lemma secant_reads_the_bracket_only_witness :
  secant (fun x => Return (x - 1 / 2)%R) 0%R 1%R 2000
    eps_default eps_default =
  secant failing 0%R 1%R 2000 eps_default eps_default.
Proof.
  apply (secant_reads_the_bracket_only failing
           (fun x => Return (x - 1 / 2)%R) 0%R 1%R 2000%nat
           eps_default eps_default).
  - lra.
  - intros x Hx. unfold failing. destruct (Rle_dec x 1); [reflexivity|lra].
Defined.

Lemma xirr_exceptions_witness :
  xirr (@nil (entry float)) tt true = Raise IndexError /\
  ((ConvergenceFailed = IndexError /\ huge = []) \/
   (ConvergenceFailed = ConvergenceFailed /\ false = false) \/
   ConvergenceFailed = ZeroDivisionError \/
   exists x y, float_pow x y = Raise ConvergenceFailed) /\
  (xirr doubling tt false = Raise IndexError <-> doubling = []).
Proof.
  split; [|split].
  - apply (proj1 (xirr_exceptions float float_arith unit [] tt true)).
    reflexivity.
  - apply (proj1 (proj2 (xirr_exceptions float float_arith unit huge tt false))
             ConvergenceFailed).
    vm_compute. reflexivity.
  - apply (proj2 (proj2 (xirr_exceptions float float_arith unit doubling
                           tt false))).
    intros x y. unfold power, float_arith, float_pow.
    destruct (y =? 0), (x =? 1), (y =? 1); discriminate.
Defined.

Lemma xnpv_is_the_discounted_sum_witness :
  xnpv (1 / 2)%R payments false false =
    Return (present_value (1 / 2)%R 735760%Z payments).
Proof.
  apply (xnpv_is_the_discounted_sum (1 / 2)%R payments false false 735760%Z
           (-1000)%R
           [(735800%Z, (-9000)%R); (735888%Z, (-3000)%R);
            (736855%Z, 20000%R)]).
  - lra.
  - reflexivity.
Defined.

Lemma xnpv_rate_minus_one_fails_witness :
  xnpv (-1)%R payments false false = Raise ZeroDivisionError.
Proof.
  apply (xnpv_rate_minus_one_fails payments false false 735760%Z (-1000)%R
           [(735800%Z, (-9000)%R); (735888%Z, (-3000)%R);
            (736855%Z, 20000%R)]).
  - reflexivity.
  - apply Exists_cons_tl, Exists_cons_hd. cbn. lia.
Defined.


Lemma xirr_is_the_solver_on_xnpv_witness :
  (forall ns rate,
      normalized float_payments = Return ns ->
      xnpv rate ns true true = xnpv rate float_payments false false) /\
  xirr float_payments tt false =
    handled false
      (secant (fun rate => xnpv rate float_payments false false)
         zero ten 2000 eps_default eps_default).
Proof.
  apply (xirr_is_the_solver_on_xnpv float float_arith unit float_payments
           tt false).
  discriminate.
Defined.

Lemma xnpv_sorted_flag_witness :
  xnpv 1 doubling false false = xnpv 1 doubling true false.
Proof.
  apply (xnpv_sorted_flag_on_sorted_input float float_arith 1 doubling false).
  repeat constructor; unfold key_le; cbn; lia.
Defined.

Lemma normalized_series_witness :
  StronglySorted key_le
    [(0%Z, (-1000)%R); (40%Z, (-9000)%R); (128%Z, (-3000)%R);
     (1095%Z, 20000%R)] /\
  (exists a rest,
      [(0%Z, (-1000)%R); (40%Z, (-9000)%R); (128%Z, (-3000)%R);
       (1095%Z, 20000%R)] = (0%Z, a) :: rest) /\
  Forall (fun e => (0 <= fst e)%Z)
    [(0%Z, (-1000)%R); (40%Z, (-9000)%R); (128%Z, (-3000)%R);
     (1095%Z, 20000%R)] /\
  Permutation
    (map snd [(0%Z, (-1000)%R); (40%Z, (-9000)%R); (128%Z, (-3000)%R);
              (1095%Z, 20000%R)])
    (map snd payments) /\
  normalized [(0%Z, (-1000)%R); (40%Z, (-9000)%R); (128%Z, (-3000)%R);
              (1095%Z, 20000%R)]
    = Return [(0%Z, (-1000)%R); (40%Z, (-9000)%R); (128%Z, (-3000)%R);
              (1095%Z, 20000%R)].
Proof.
  apply (normalized_series R real_arith payments).
  reflexivity.
Defined.

Lemma series_on_one_day_witness :
  (forall rate sorted_ already_day_diffs,
      xnpv rate one_day sorted_ already_day_diffs
        = Return (sum_amounts one_day)) /\
  xirr one_day tt false = Return None.
Proof.
  apply (proj1 series_on_one_day unit one_day 735760%Z tt false).
  - discriminate.
  - repeat constructor.
Defined.

Lemma secant_exact_on_a_line_witness :
  exists r,
    secant (fun x => Return (1 * x + -1)%R) 0%R 3%R 1 (1 / 2)%R (1 / 2)%R
      = Return (Some r) /\
    (1 * r + -1 = 0)%R.
Proof.
  apply (secant_exact_on_a_line 1 (-1) 0 3 (1 / 2) (1 / 2) 1); [lra|lra|lia].
Defined.

Lemma secant_needs_a_tolerance_witness :
  secant stalling 0 10 2000 0 0 <> Return (Some 1) /\
  secant line 0%R 3%R 1 0%R 0%R <> Return (Some 1%R).
Proof.
  split.
  - apply (proj1 secant_needs_a_tolerance stalling 0 10 2000%nat 0 0 1);
      vm_compute; reflexivity.
  - apply (proj2 secant_needs_a_tolerance line 0%R 3%R 1%nat 0%R 0%R 1%R);
      lra.
Defined.

Lemma secant_ends_exchanged_witness :
  secant line 3%R 0%R 1 (1 / 2)%R (1 / 2)%R =
  secant line 0%R 3%R 1 (1 / 2)%R (1 / 2)%R.
Proof.
  apply (secant_ends_exchanged line 0%R 3%R 1%nat (1 / 2)%R (1 / 2)%R
           (0 - 1)%R (3 - 1)%R); reflexivity.
Defined.

Lemma xnpv_order_of_input_witness :
  xnpv (1 / 2)%R (rev payments) false false =
    xnpv (1 / 2)%R payments false false /\
  xnpv (1 / 2)%R (rev tied) false false = xnpv (1 / 2)%R tied false false.
Proof.
  split.
  - apply (proj1 xnpv_order_of_input R real_arith (1 / 2)%R payments
             (rev payments) false).
    + repeat constructor; cbn; intuition lia.
    + apply Permutation_rev.
  - apply (proj2 xnpv_order_of_input (1 / 2)%R tied (rev tied) false).
    apply Permutation_rev.
Defined.

Lemma xirr_scipy_keeps_last_amount_witness :
  xirr_scipy (fun d => d) payments = payments /\
  xirr_scipy (fun d => d)
    ([(735760%Z, 1%R)] ++ (735800%Z, 2%R) :: [] ++ (735800%Z, 3%R) :: []) =
  xirr_scipy (fun d => d)
    ([(735760%Z, 1%R)] ++ (735800%Z, 5%R) :: [] ++ (735800%Z, 3%R) :: []).
Proof.
  split.
  - apply (proj1 (xirr_scipy_keeps_last_amount R (list (Z * R)) (fun d => d))
             payments).
    repeat constructor; cbn; intuition lia.
  - apply (proj2 (xirr_scipy_keeps_last_amount R (list (Z * R)) (fun d => d))).
Defined.

End Instances.
